(** * Reachability root seeder (libredex/ReachableClasses.cpp)

    A shallow embedding of the seeder that marks the classes, methods and
    fields a shrinker must keep, and the properties its specification
    states about it.

    Pointers to IR nodes are modelled by the identity of the node: a class
    by its type descriptor, a method or a field by a numeric address.  The
    mutable [rstate] member of every node lives in one store keyed by that
    identity, so that two paths reaching the same node write the same
    cell.  A nullable pointer is an [option]. *)

From stdpp Require Import gmap strings list fin_maps.
From Stdlib Require Import String Ascii.

Open Scope string_scope.
Open Scope list_scope.

(** ** Strings *)

Abbreviation DexType := string (only parsing).
Abbreviation DexString := string (only parsing).

(** [std::string(s.c_str())]: the copy stops at the first NUL of [s]. *)
Fixpoint c_str (s : string) : string :=
  match s with
  | EmptyString => EmptyString
  | String c rest => if Ascii.eqb c Ascii.zero then EmptyString else String c (c_str rest)
  end.

(** The line feed a format string writes as a backslash followed by n. *)
Definition LF : string := String (Ascii.ascii_of_nat 10) EmptyString.

(** [haystack.find(needle)]: position of the first occurrence, [None] for
    [std::string::npos]. *)
Definition find (haystack needle : string) : option nat :=
  String.index 0 needle haystack.

(** [s.substr(pos)] for [pos <= s.size()]. *)
Definition substr (s : string) (pos : nat) : string :=
  String.substring pos (String.length s - pos) s.

(** Modelled from the spec: [starts_with] of StringUtil.h, which is not
    part of the sources at hand; "fully-qualified name begins with the
    prefix". *)
Definition starts_with (s pre : string) : bool := String.prefix pre s.

(** ** IR nodes *)

Record DexField := {
  f_id : nat;
  f_name : DexString;
  f_public : bool;
  f_annos : option (list DexType)
}.

Record IRInstruction := {
  insn_id : nat;
  insn_is_invoke : bool;
  insn_callee_class : string;
  insn_callee_name : string;
  insn_srcs : list nat
}.

(** [insn->src(i)]; invoke instructions that reach the scanner carry their
    argument registers. *)
Definition src (insn : IRInstruction) (i : nat) : nat := nth i (insn_srcs insn) 0.

Record DexMethod := {
  m_id : nat;
  m_class : DexType;
  m_name : DexString;
  m_args : list DexType;
  m_public : bool;
  m_native : bool;
  m_init : bool;
  m_annos : option (list DexType);
  m_code : option (list IRInstruction)
}.

Record DexClass := {
  c_type : DexType;
  c_super : option DexType;
  c_external : bool;
  c_sfields : list DexField;
  c_ifields : list DexField;
  c_dmethods : list DexMethod;
  c_vmethods : list DexMethod;
  c_annos : option (list DexType)
}.

Abbreviation Scope := (list DexClass) (only parsing).

(** Modelled from the spec: [is_init] and [DexClass::get_ctors] of
    DexClass.h, which is not part of the sources at hand; the declared
    constructors are the direct methods carrying the distinguished
    constructor flag. *)
Definition get_ctors (cls : DexClass) : list DexMethod :=
  List.filter m_init (c_dmethods cls).

(** ** Reachability state *)

Inductive keep_reason := REFLECTION | MANIFEST | SERIALIZABLE.

#[global] Instance keep_reason_eq_dec : EqDecision keep_reason.
Proof. solve_decision. Defined.

(** Modelled from the spec: [ReferencedState] of ReferencedState.h, which
    is not part of the sources at hand (sections 3 and 4.1).  Independent
    flags, a keep count, and what [set_root] leaves: the [keep] flag and
    [m_keep_reasons], the log of the calls made on the element, oldest
    first, each with the reason it asked for and its optional originator.
    The one keep reason the element carries is not a field of its own: it
    is read off the log by [keep_reason_of] below. *)
Record ReferencedState := {
  m_by_type : bool;
  m_by_string : bool;
  m_by_resources : bool;
  m_is_serde : bool;
  m_keep : bool;
  m_allowobfuscation : bool;
  m_keep_count : nat;
  m_keep_reasons : list (keep_reason * option nat)
}.

Definition fresh_rstate : ReferencedState :=
  {| m_by_type := false; m_by_string := false; m_by_resources := false;
     m_is_serde := false; m_keep := false; m_allowobfuscation := true;
     m_keep_count := 0; m_keep_reasons := [] |}.

(** The mutating member functions of [ReferencedState] the seeder calls. *)
Inductive Op :=
| ref_by_type
| ref_by_string
| set_referenced_by_resource_xml
| unset_referenced_by_resource_xml
| set_is_serde
| set_root (reason : keep_reason) (originator : option nat)
| increment_keep_count
| unset_allowobfuscation.

#[global] Instance Op_eq_dec : EqDecision Op.
Proof. solve_decision. Defined.

(** Modelled from the spec: the effect of each operation of
    ReferencedState.h on the flag it touches (section 4.1).  [set_root]
    sets [keep] and appends the call to the log; the reason the element
    then carries, one reason however many the calls, is [keep_reason_of],
    which follows the rule of section 4.1 call after call. *)
Definition apply_op (op : Op) (rs : ReferencedState) : ReferencedState :=
  let '(Build_ReferencedState ty str xml serde keep obf cnt why) := rs in
  match op with
  | ref_by_type => Build_ReferencedState true str xml serde keep obf cnt why
  | ref_by_string => Build_ReferencedState ty true xml serde keep obf cnt why
  | set_referenced_by_resource_xml => Build_ReferencedState ty str true serde keep obf cnt why
  | unset_referenced_by_resource_xml => Build_ReferencedState ty str false serde keep obf cnt why
  | set_is_serde => Build_ReferencedState ty str xml true keep obf cnt why
  | set_root r o => Build_ReferencedState ty str xml serde true obf cnt (why ++ [(r, o)])
  | increment_keep_count => Build_ReferencedState ty str xml serde keep obf (S cnt) why
  | unset_allowobfuscation => Build_ReferencedState ty str xml serde keep false cnt why
  end.

(** Modelled from the spec: section 4.1 has [set_root] record the strongest
    reason seen and keep the first reason on duplicate calls, and section 5
    calls this a max of keep-reason priorities.  Neither the specification
    nor the sources at hand give the priorities, so they are a parameter:
    [record_reason priority recorded reason] is the reason carried after
    one more call [set_root(reason)], a stronger reason replacing the
    recorded one and the recorded one staying otherwise. *)
Definition record_reason (priority : keep_reason → nat) (recorded : option keep_reason)
    (reason : keep_reason) : option keep_reason :=
  match recorded with
  | None => Some reason
  | Some first =>
    if Nat.ltb (priority first) (priority reason) then Some reason else Some first
  end.

(** The keep reason the element carries: none before the first call of
    [set_root], then the reason [record_reason] leaves call after call. *)
Definition keep_reason_of (priority : keep_reason → nat) (rs : ReferencedState)
  : option keep_reason :=
  fold_left (record_reason priority) (fst <$> m_keep_reasons rs) None.

(** The originators [set_root] was called with: the debug log of section
    4.1. *)
Definition keep_originators (rs : ReferencedState) : list (option nat) :=
  snd <$> m_keep_reasons rs.

(** Identity of the node whose [rstate] is written. *)
Inductive Elem := EClass (t : DexType) | EMethod (id : nat) | EField (id : nat).

#[global] Instance Elem_eq_dec : EqDecision Elem.
Proof. solve_decision. Defined.

#[global] Instance Elem_countable : Countable Elem.
Proof.
  refine (inj_countable'
            (λ e, match e with
                  | EClass t => inl t
                  | EMethod i => inr (inl i)
                  | EField i => inr (inr i)
                  end)
            (λ x, match x with
                  | inl t => EClass t
                  | inr (inl i) => EMethod i
                  | inr (inr i) => EField i
                  end) _).
  by intros [].
Defined.

Definition of_class (cls : DexClass) : Elem := EClass (c_type cls).
Definition of_method (m : DexMethod) : Elem := EMethod (m_id m).
Definition of_field (f : DexField) : Elem := EField (f_id f).

(** ** Output channels *)

Inductive ReflectionType :=
| GET_FIELD
| GET_DECLARED_FIELD
| GET_METHOD
| GET_DECLARED_METHOD
| GET_CONSTRUCTOR
| GET_DECLARED_CONSTRUCTOR
| INT_UPDATER
| LONG_UPDATER
| REF_UPDATER.

#[global] Instance ReflectionType_eq_dec : EqDecision ReflectionType.
Proof. solve_decision. Defined.

(** One constructor for each [TRACE] site, with the arguments shown. *)
Inductive TraceMsg :=
| SRA_BLACKLIST (t : Elem)
| SRA_ANALYZE (insn : nat) (refl_type : ReflectionType) (arg_str_value : DexString)
| Keeping_vmethod (m : Elem)
| Dangling_reference_from_manifest (classname : string)
| manifest_root (classname : string)
| not_exported (classname : string)
| xml_layout (classname : string)
| native_lib (classname : string)
| reflected_package (clazz : Elem)
| native_method (cls : DexType).

Inductive Event :=
| Wrote (e : Elem) (op : Op)
| Traced (level : nat) (msg : TraceMsg)
| Printed (msg : string).

(** The store of every node's [rstate], and what the run has written and
    printed so far, oldest first. *)
Record State := {
  rstates : gmap Elem ReferencedState;
  events : list Event
}.

Definition rstate_of (st : State) (e : Elem) : ReferencedState :=
  default fresh_rstate (rstates st !! e).

(** [e->rstate.op()] *)
Definition rstate (e : Elem) (op : Op) (st : State) : State :=
  {| rstates := <[e := apply_op op (rstate_of st e)]> (rstates st);
     events := events st ++ [Wrote e op] |}.

Definition TRACE (level : nat) (msg : TraceMsg) (st : State) : State :=
  {| rstates := rstates st; events := events st ++ [Traced level msg] |}.

Definition fprintf_stderr (msg : string) (st : State) : State :=
  {| rstates := rstates st; events := events st ++ [Printed msg] |}.

(** ** Outcomes of fallible code *)

Inductive Failure :=
| assertion_failed (what : string)
| out_of_range (what : string)
| null_dereference (what : string).

(** [Timeout] is the model running out of fuel: a call that answers
    [Timeout] for every amount of fuel does not return. *)
Inductive Outcome (A : Type) :=
| Ok (a : A)
| Abort (why : Failure)
| Timeout.

Arguments Ok {A} a.
Arguments Abort {A} why.
Arguments Timeout {A}.

#[global] Instance Outcome_ret : MRet Outcome := λ A a, Ok a.
#[global] Instance Outcome_bind : MBind Outcome := λ A B f x,
  match x with
  | Ok a => f a
  | Abort why => Abort why
  | Timeout => Timeout
  end.

#[global] Instance Outcome_fmap : FMap Outcome := λ A B f x,
  match x with
  | Ok a => Ok (f a)
  | Abort why => Abort why
  | Timeout => Timeout
  end.

(** A range-based [for] whose body cannot fail. *)
Definition for_each {A} (l : list A) (body : A → State → State) (st : State) : State :=
  fold_left (λ s x, body x s) l st.

(** A range-based [for] whose body can fail: the first failure ends it. *)
Fixpoint for_eachM {A} (l : list A) (body : A → State → Outcome State) (st : State)
  : Outcome State :=
  match l with
  | [] => Ok st
  | x :: rest => st' ← body x st; for_eachM rest body st'
  end.

(** ** The loaded program and the collaborators *)

Inductive AbstractObjectKind := OBJECT | STRING | CLASS | FIELD | METHOD.

#[global] Instance AbstractObjectKind_eq_dec : EqDecision AbstractObjectKind.
Proof. solve_decision. Defined.

Record AbstractObject := {
  obj_kind : AbstractObjectKind;
  dex_type : option DexType;
  dex_string : option DexString
}.

Inductive ComponentTag := Activity | ActivityAlias | Provider | Receiver | Service.

#[global] Instance ComponentTag_eq_dec : EqDecision ComponentTag.
Proof. solve_decision. Defined.

Record ComponentTagInfo := {
  tag : ComponentTag;
  classname : string;
  is_exported : bool;
  has_intent_filters : bool;
  authority_classes : list string
}.

Record ManifestClassInfo := {
  application_classes : list string;
  instrumentation_classes : list string;
  component_tags : list ComponentTagInfo
}.

(** What the seeder reads and does not own: the global type and class
    tables, and the functions of libredex it calls whose code is in other
    files (class hierarchy, resource readers, reflection analysis). *)
Record Env := {
  (** the types [DexType::get_type] finds *)
  known_types : gset string;
  (** the strings [DexString::get_string] finds *)
  known_strings : gset string;
  (** [type_class] *)
  classes : gmap string DexClass;
  (** [build_type_hierarchy(scope)] followed by [get_all_children] *)
  get_all_children : Scope → DexType → gset string;
  (** [get_all_implementors(scope, intf, _)] *)
  get_all_implementors : Scope → DexType → gset string;
  (** [get_manifest_class_info(filename)] *)
  get_manifest_class_info : string → ManifestClassInfo;
  (** [collect_layout_classes_and_attributes(apk_dir, attrs, _, _)] *)
  collect_layout_classes_and_attributes :
    string → gset string → gset string * list (string * string);
  (** [get_native_classes(apk_dir)] *)
  get_native_classes : string → list string;
  (** [ReflectionAnalysis(method).get_abstract_object(reg, insn)] *)
  get_abstract_object : DexMethod → nat → IRInstruction → option AbstractObject;
  (** [ReflectionAnalysis(method).get_method_params(insn)] *)
  get_method_params : DexMethod → IRInstruction → option (list DexType);
  (** the constant [ONCLICK_ATTRIBUTE] of RedexResources.h *)
  ONCLICK_ATTRIBUTE : string
}.

(** The keys the seeder reads from the configuration; [None] for a key
    that is absent, which [config.get] replaces by its default. *)
Record JsonWrapper := {
  cfg_apk_dir : option string;
  cfg_keep_packages : option (list string);
  cfg_keep_annotations : option (list string);
  cfg_keep_class_members : option (list string);
  cfg_keep_methods : option (list string);
  cfg_compute_xml_reachability : option bool;
  cfg_prune_unexported_components : option (gset string);
  cfg_analyze_native_lib_reachability : option bool;
  cfg_json_serde_supercls : option (list string)
}.

(** [config.get(key, dflt, out)] *)
Definition config_get {A} (value : option A) (dflt : A) : A := default dflt value.

(** The seeders the orchestrator composes, as section 2 of the
    specification names them. *)
Inductive Seeder :=
| AnnotationPropagation
| ConfiguredKeeps
| ManifestSeeding
| ResourceLayoutSeeding
| NativeLibraryClassnames
| ReflectionScanning
| ReflectedPackageExpansion
| SerializableChain
| SerdeSuperclassMarker
| NativeMethodCodeWalk.

Section Seeder.

Variable env : Env.

(** [DexType::get_type(name)]: null unless the type is known. *)
Definition get_type (name : string) : option DexType :=
  if decide (name ∈ known_types env) then Some name else None.

(** [DexString::get_string(s)]: null unless the program holds the string. *)
Definition get_string (s : string) : option DexString :=
  if decide (s ∈ known_strings env) then Some s else None.

(** [type_class(t)]: the class of a type, null for a null or unknown type. *)
Definition type_class (t : option DexType) : option DexClass :=
  match t with
  | None => None
  | Some t => classes env !! t
  end.

(** Modelled from the spec: [type_class_internal] of DexClass.h, which is
    not part of the sources at hand; the class of a type unless it is
    external. *)
Definition type_class_internal (t : option DexType) : option DexClass :=
  match type_class t with
  | Some cls => if c_external cls then None else Some cls
  | None => None
  end.

(** ** Member resolver *)

(** [DexItemIter<DexField*, F>::iterate] *)
Definition iterate_fields (cls : DexClass) (yield : DexField → State → State)
    (st : State) : State :=
  if c_external cls then st
  else for_each (c_ifields cls) yield (for_each (c_sfields cls) yield st).

(** [DexItemIter<DexMethod*, F>::iterate] *)
Definition iterate_methods (cls : DexClass) (yield : DexMethod → State → State)
    (st : State) : State :=
  if c_external cls then st
  else for_each (c_vmethods cls) yield (for_each (c_dmethods cls) yield st).

(** The [yield] lambda of [blacklist_field]. *)
Definition blacklist_field_yield (reflecting_method : DexMethod) (name : DexString)
    (declared : bool) (t : DexField) (st : State) : State :=
  if negb (String.eqb (f_name t) name) then st
  else if negb (f_public t) && negb declared then st
  else rstate (of_field t) (set_root REFLECTION (Some (m_id reflecting_method)))
         (TRACE 4 (SRA_BLACKLIST (of_field t)) st).

Fixpoint blacklist_field (fuel : nat) (reflecting_method : DexMethod)
    (type : option DexType) (name : DexString) (declared : bool) (st : State)
  : Outcome State :=
  match fuel with
  | 0 => Timeout
  | S fuel =>
    match type_class type with
    | None => Ok st
    | Some cls =>
      let st := iterate_fields cls (blacklist_field_yield reflecting_method name declared) st in
      if negb declared then
        match c_super cls with
        | Some super_cls =>
          blacklist_field fuel reflecting_method (Some super_cls) name declared st
        | None => Ok st
        end
      else Ok st
    end
  end.

(** [t->get_proto()->get_args()->equals(params)] *)
Definition args_equal (args params : list DexType) : bool :=
  bool_decide (args = params).

(** The [yield] lambda of [blacklist_method]. *)
Definition blacklist_method_yield (reflecting_method : DexMethod) (name : DexString)
    (params : option (list DexType)) (declared : bool) (t : DexMethod) (st : State)
  : State :=
  if negb (String.eqb (m_name t) name) then st
  else if match params with
          | Some ps => negb (args_equal (m_args t) ps)
          | None => false
          end then st
  else if negb (m_public t) && negb declared then st
  else rstate (of_method t) (set_root REFLECTION (Some (m_id reflecting_method)))
         (TRACE 4 (SRA_BLACKLIST (of_method t)) st).

Fixpoint blacklist_method (fuel : nat) (reflecting_method : DexMethod)
    (type : option DexType) (name : DexString) (params : option (list DexType))
    (declared : bool) (st : State) : Outcome State :=
  match fuel with
  | 0 => Timeout
  | S fuel =>
    match type_class type with
    | None => Ok st
    | Some cls =>
      let st :=
        iterate_methods cls (blacklist_method_yield reflecting_method name params declared) st in
      if negb declared then
        match c_super cls with
        | Some super_cls =>
          blacklist_method fuel reflecting_method (Some super_cls) name params declared st
        | None => Ok st
        end
      else Ok st
    end
  end.

(** ** Reflection scanner *)

Definition JAVA_LANG_CLASS := "Ljava/lang/Class;".
Definition ATOMIC_INT_FIELD_UPDATER :=
  "Ljava/util/concurrent/atomic/AtomicIntegerFieldUpdater;".
Definition ATOMIC_LONG_FIELD_UPDATER :=
  "Ljava/util/concurrent/atomic/AtomicLongFieldUpdater;".
Definition ATOMIC_REF_FIELD_UPDATER :=
  "Ljava/util/concurrent/atomic/AtomicReferenceFieldUpdater;".

Definition refls : gmap string (gmap string ReflectionType) :=
  list_to_map
    [ (JAVA_LANG_CLASS,
       list_to_map
         [ ("getField", GET_FIELD);
           ("getDeclaredField", GET_DECLARED_FIELD);
           ("getMethod", GET_METHOD);
           ("getDeclaredMethod", GET_DECLARED_METHOD);
           ("getConstructor", GET_CONSTRUCTOR);
           ("getConstructors", GET_CONSTRUCTOR);
           ("getDeclaredConstructor", GET_DECLARED_CONSTRUCTOR);
           ("getDeclaredConstructors", GET_DECLARED_CONSTRUCTOR) ]);
      (ATOMIC_INT_FIELD_UPDATER, list_to_map [ ("newUpdater", INT_UPDATER) ]);
      (ATOMIC_LONG_FIELD_UPDATER, list_to_map [ ("newUpdater", LONG_UPDATER) ]);
      (ATOMIC_REF_FIELD_UPDATER, list_to_map [ ("newUpdater", REF_UPDATER) ]) ].

(** The [dex_string_lookup] lambda; [analysis] is the reflection analysis
    of [method]. *)
Definition dex_string_lookup (method : DexMethod) (refl_type : ReflectionType)
    (insn : IRInstruction) : option DexString :=
  if bool_decide (refl_type = GET_CONSTRUCTOR ∨ refl_type = GET_DECLARED_CONSTRUCTOR)
  then get_string "<init>"
  else
    let arg_str_idx := if bool_decide (refl_type = REF_UPDATER) then 2 else 1 in
    match get_abstract_object env method (src insn arg_str_idx) insn with
    | Some arg_str =>
      if bool_decide (obj_kind arg_str = STRING) then dex_string arg_str else None
    | None => None
    end.

(** The [switch (refl_type)] that ends the loop body. *)
Definition dispatch_reflection (fuel : nat) (method : DexMethod) (refl_type : ReflectionType)
    (arg_cls : AbstractObject) (arg_str_value : DexString)
    (param_types : option (list DexType)) (st : State) : Outcome State :=
  match refl_type with
  | GET_FIELD => blacklist_field fuel method (dex_type arg_cls) arg_str_value false st
  | GET_DECLARED_FIELD => blacklist_field fuel method (dex_type arg_cls) arg_str_value true st
  | GET_METHOD | GET_CONSTRUCTOR =>
    blacklist_method fuel method (dex_type arg_cls) arg_str_value param_types false st
  | GET_DECLARED_METHOD | GET_DECLARED_CONSTRUCTOR =>
    blacklist_method fuel method (dex_type arg_cls) arg_str_value param_types true st
  | INT_UPDATER | LONG_UPDATER | REF_UPDATER =>
    blacklist_field fuel method (dex_type arg_cls) arg_str_value true st
  end.

(** The body of the loop over the instructions of [method]. *)
Definition analyze_reflection_insn (fuel : nat) (method : DexMethod)
    (insn : IRInstruction) (st : State) : Outcome State :=
  if negb (insn_is_invoke insn) then Ok st
  else
    match refls !! insn_callee_class insn with
    | None => Ok st
    | Some method_map =>
      match method_map !! insn_callee_name insn with
      | None => Ok st
      | Some refl_type =>
        match get_abstract_object env method (src insn 0) insn with
        | None => Ok st
        | Some arg_cls =>
          if negb (bool_decide (obj_kind arg_cls = CLASS)) then Ok st
          else
            match dex_string_lookup method refl_type insn with
            | None => Ok st
            | Some arg_str_value =>
              let param_types :=
                if bool_decide (refl_type = GET_METHOD ∨ refl_type = GET_CONSTRUCTOR ∨
                                refl_type = GET_DECLARED_METHOD ∨
                                refl_type = GET_DECLARED_CONSTRUCTOR)
                then get_method_params env method insn
                else None in
              let st := TRACE 4 (SRA_ANALYZE (insn_id insn) refl_type arg_str_value) st in
              dispatch_reflection fuel method refl_type arg_cls arg_str_value param_types st
            end
        end
      end
    end.

(** Modelled from the spec: [walk::methods] of Walkers.h, which is not part
    of the sources at hand; every direct, then every virtual method of
    every class in scope. *)
Definition walk_methods (scope : Scope) (f : DexMethod → State → State) (st : State)
  : State :=
  for_each scope (λ cls, for_each (c_dmethods cls ++ c_vmethods cls) f) st.

(** Modelled from the spec: [walk::code] of Walkers.h, which is not part of
    the sources at hand; as [walk::methods], over the methods that have
    code. *)
Definition walk_code (scope : Scope)
    (f : DexMethod → list IRInstruction → State → Outcome State) (st : State)
  : Outcome State :=
  for_eachM scope
    (λ cls,
       for_eachM (c_dmethods cls ++ c_vmethods cls)
         (λ m st, match m_code m with
                  | Some code => f m code st
                  | None => Ok st
                  end)) st.

Definition analyze_reflection (fuel : nat) (scope : Scope) (st : State) : Outcome State :=
  walk_code scope (λ method code, for_eachM code (analyze_reflection_insn fuel method)) st.

(** ** Marking by name *)

Definition mark_only_reachable_directly (m : Elem) (st : State) : State :=
  rstate m ref_by_type st.

Definition mark_reachable_by_classname (dclass : option DexClass) (st : State) : State :=
  match dclass with
  | None => st
  | Some dclass =>
    let st := rstate (of_class dclass) ref_by_string st in
    let st := for_each (c_dmethods dclass) (λ dmethod, rstate (of_method dmethod) ref_by_string) st in
    let st := for_each (c_vmethods dclass) (λ vmethod, rstate (of_method vmethod) ref_by_string) st in
    let st := for_each (c_sfields dclass) (λ sfield, rstate (of_field sfield) ref_by_string) st in
    for_each (c_ifields dclass) (λ ifield, rstate (of_field ifield) ref_by_string) st
  end.

Definition mark_reachable_by_string (method : DexMethod) (st : State) : State :=
  let st :=
    match type_class_internal (Some (m_class method)) with
    | Some cls => rstate (of_class cls) ref_by_string st
    | None => st
    end in
  rstate (of_method method) ref_by_string st.

(** The overload taking a [DexType*]. *)
Definition mark_reachable_by_classname_type (dtype : option DexType) (st : State) : State :=
  mark_reachable_by_classname (type_class_internal dtype) st.

(** ** Resource layouts *)

Definition matches_onclick_method (dmethod : DexMethod) (names_to_keep : gset string)
  : bool :=
  match m_args dmethod with
  | [first_type] =>
    if String.eqb first_type "Landroid/view/View;"
    then bool_decide (m_name dmethod ∈ names_to_keep)
    else false
  | _ => false
  end.

Definition mark_onclick_attributes_reachable (scope : Scope)
    (onclick_attribute_values : gset string) (st : State) : Outcome State :=
  if bool_decide (size onclick_attribute_values = 0) then Ok st
  else
    match get_type "Landroid/content/Context;" with
    | None => Abort (assertion_failed "type_context != nullptr")
    | Some type_context =>
      let children := get_all_children env scope type_context in
      for_eachM (elements children)
        (λ t st,
           match type_class (Some t) with
           | None => Abort (null_dereference "dclass")
           | Some dclass =>
             if c_external dclass then Ok st
             else
               Ok (for_each (c_vmethods dclass)
                     (λ m st,
                        if matches_onclick_method m onclick_attribute_values
                        then rstate (of_method m) set_referenced_by_resource_xml
                               (TRACE 2 (Keeping_vmethod (of_method m)) st)
                        else st) st)
           end) st
    end.

Definition maybe_class_from_string (classname : string) : option DexClass :=
  match get_type (c_str classname) with
  | None => None
  | Some dtype => type_class (Some dtype)
  end.

Definition mark_reachable_by_xml (classname : string) (st : State) : State :=
  match maybe_class_from_string classname with
  | None => st
  | Some dclass =>
    let st := rstate (of_class dclass) set_referenced_by_resource_xml st in
    for_each (get_ctors dclass)
      (λ dmethod, rstate (of_method dmethod) set_referenced_by_resource_xml) st
  end.

(** Modelled from the spec: [multimap_values_to_set] of RedexResources.h,
    which is not part of the sources at hand; the set of distinct values
    bound to the key. *)
Definition multimap_values_to_set (m : list (string * string)) (key : string)
  : gset string :=
  list_to_set (snd <$> filter (λ kv, kv.1 = key) m).

Definition analyze_reachable_from_xml_layouts (scope : Scope) (apk_dir : string)
    (st : State) : Outcome State :=
  let attrs_to_read : gset string := {[ ONCLICK_ATTRIBUTE env ]} in
  let '(layout_classes, attribute_values) :=
    collect_layout_classes_and_attributes env apk_dir attrs_to_read in
  let st :=
    for_each (elements layout_classes)
      (λ classname st, mark_reachable_by_xml classname (TRACE 3 (xml_layout (c_str classname)) st))
      st in
  let attr_values := multimap_values_to_set attribute_values (ONCLICK_ATTRIBUTE env) in
  mark_onclick_attributes_reachable scope attr_values st.

(** The clearing pass of [recompute_reachable_from_xml_layouts]; the
    classes are visited one after the other. *)
Definition unset_referenced_by_resource_xml_pass (scope : Scope) (st : State) : State :=
  for_each scope
    (λ cls st,
       let st := rstate (of_class cls) unset_referenced_by_resource_xml st in
       let st := for_each (c_dmethods cls)
                   (λ method, rstate (of_method method) unset_referenced_by_resource_xml) st in
       let st := for_each (c_vmethods cls)
                   (λ method, rstate (of_method method) unset_referenced_by_resource_xml) st in
       let st := for_each (c_ifields cls)
                   (λ field, rstate (of_field field) unset_referenced_by_resource_xml) st in
       for_each (c_sfields cls)
         (λ field, rstate (of_field field) unset_referenced_by_resource_xml) st) st.

Definition recompute_reachable_from_xml_layouts (scope : Scope) (apk_dir : string)
    (st : State) : Outcome State :=
  analyze_reachable_from_xml_layouts scope apk_dir
    (unset_referenced_by_resource_xml_pass scope st).

(** ** Manifest *)

Definition mark_manifest_root (classname : string) (st : State) : State :=
  match maybe_class_from_string classname with
  | None => TRACE 3 (Dangling_reference_from_manifest (c_str classname)) st
  | Some dclass =>
    let st := TRACE 3 (manifest_root (c_str classname)) st in
    let st := rstate (of_class dclass) (set_root MANIFEST None) st in
    let st := rstate (of_class dclass) increment_keep_count st in
    for_each (get_ctors dclass) (λ dmethod, rstate (of_method dmethod) (set_root MANIFEST None)) st
  end.

(** [string_to_tag.at(s)]: throws for a key that is not in the map. *)
Definition string_to_tag_at (s : string) : Outcome ComponentTag :=
  if String.eqb s "activity" then Ok Activity
  else if String.eqb s "activity-alias" then Ok ActivityAlias
  else Abort (out_of_range "string_to_tag.at").

Fixpoint prune_unexported_components_of (strs : list string) : Outcome (list ComponentTag) :=
  match strs with
  | [] => Ok []
  | s :: rest =>
    t ← string_to_tag_at s;
    ts ← prune_unexported_components_of rest;
    Ok (t :: ts)
  end.

(** The body of the loop over [component_tags]. *)
Definition analyze_component_tag (prune_unexported_components : list ComponentTag)
    (tag_info : ComponentTagInfo) (st : State) : State :=
  match tag tag_info with
  | Activity | ActivityAlias =>
    if is_exported tag_info || has_intent_filters tag_info ||
       negb (bool_decide (tag tag_info ∈ prune_unexported_components))
    then mark_manifest_root (classname tag_info) st
    else
      let st := TRACE 3 (not_exported (c_str (classname tag_info))) st in
      match maybe_class_from_string (classname tag_info) with
      | Some dclass =>
        rstate (of_class dclass) unset_allowobfuscation
          (rstate (of_class dclass) increment_keep_count st)
      | None => st
      end
  | Receiver | Service => mark_manifest_root (classname tag_info) st
  | Provider =>
    for_each (authority_classes tag_info) mark_manifest_root
      (mark_manifest_root (classname tag_info) st)
  end.

Definition analyze_reachable_from_manifest (apk_dir : string)
    (prune_unexported_components_str : gset string) (st : State) : Outcome State :=
  prune_unexported_components ←
    prune_unexported_components_of (elements prune_unexported_components_str);
  let manifest := apk_dir +:+ "/AndroidManifest.xml" in
  let manifest_class_info := get_manifest_class_info env manifest in
  let st := for_each (application_classes manifest_class_info) mark_manifest_root st in
  let st := for_each (instrumentation_classes manifest_class_info) mark_manifest_root st in
  Ok (for_each (component_tags manifest_class_info)
        (analyze_component_tag prune_unexported_components) st).

(** ** Serializer families *)

(** The loop over [serde_superclses]; [children] is not reset between two
    superclasses. *)
Fixpoint serde_superclses_loop (scope : Scope) (serde_superclses : list DexType)
    (children : gset string) (st : State) : Outcome State :=
  match serde_superclses with
  | [] => Ok st
  | serde_supercls :: rest =>
    let children := children ∪ get_all_children env scope serde_supercls in
    st ← for_eachM (elements children)
           (λ child st,
              match type_class (Some child) with
              | Some cls => Ok (rstate (of_class cls) set_is_serde st)
              | None => Abort (null_dereference "type_class(child)")
              end) st;
    serde_superclses_loop scope rest children st
  end.

Definition initialize_reachable_for_json_serde (scope : Scope)
    (supercls_names : list string) (st : State) : Outcome State :=
  let serde_superclses : gset string :=
    list_to_set (omap get_type supercls_names) in
  if bool_decide (size serde_superclses = 0) then Ok st
  else serde_superclses_loop scope (elements serde_superclses) ∅ st.

(** ** Configured keeps *)

Definition anno_set_contains (anno_set : option (list DexType))
    (keep_annotations : gset string) : bool :=
  match anno_set with
  | None => false
  | Some annos => existsb (λ anno, bool_decide (anno ∈ keep_annotations)) annos
  end.

Definition keep_annotated (anno_set : option (list DexType))
    (keep_annotations : gset string) (m : Elem) (st : State) : State :=
  if anno_set_contains anno_set keep_annotations
  then mark_only_reachable_directly m st
  else st.

Definition keep_annotated_classes (scope : Scope) (keep_annotations : gset string)
    (st : State) : State :=
  for_each scope
    (λ cls st,
       let st := keep_annotated (c_annos cls) keep_annotations (of_class cls) st in
       let st := for_each (c_dmethods cls)
                   (λ m, keep_annotated (m_annos m) keep_annotations (of_method m)) st in
       let st := for_each (c_vmethods cls)
                   (λ m, keep_annotated (m_annos m) keep_annotations (of_method m)) st in
       let st := for_each (c_sfields cls)
                   (λ m, keep_annotated (f_annos m) keep_annotations (of_field m)) st in
       for_each (c_ifields cls)
         (λ m, keep_annotated (f_annos m) keep_annotations (of_field m)) st) st.

(** The loop of [keep_class_members] over the configured entries, for one
    class; it ends at the [break]. *)
Fixpoint keep_class_members_of (cls : DexClass) (keep_class_mems : list string)
    (st : State) : State :=
  let name := c_type cls in
  match keep_class_mems with
  | [] => st
  | class_mem :: rest =>
    let class_mem_str := c_str class_mem in
    match find class_mem_str name with
    | Some pos =>
      let rem_str := substr class_mem_str (pos + String.length name) in
      for_each (c_sfields cls)
        (λ f st,
           if bool_decide (is_Some (find rem_str (f_name f)))
           then mark_only_reachable_directly (of_class cls)
                  (mark_only_reachable_directly (of_field f) st)
           else st) st
    | None => keep_class_members_of cls rest st
    end
  end.

Definition keep_class_members (scope : Scope) (keep_class_mems : list string)
    (st : State) : State :=
  for_each scope (λ cls, keep_class_members_of cls keep_class_mems) st.

Definition keep_methods (scope : Scope) (ms : list string) (st : State) : State :=
  let methods_to_keep : gset string := list_to_set ms in
  for_each scope
    (λ cls st,
       let keep := λ (m : DexMethod) (st : State),
         if bool_decide (m_name m ∈ methods_to_keep)
         then rstate (of_method m) ref_by_string st
         else st in
       for_each (c_vmethods cls) keep (for_each (c_dmethods cls) keep st)) st.

(** ** Reflected packages *)

Fixpoint in_reflected_pkg (fuel : nat) (dclass : option DexClass)
    (reflected_pkg_classes : gset string) : Outcome bool :=
  match fuel with
  | 0 => Timeout
  | S fuel =>
    match dclass with
    | None => Ok false
    | Some dclass =>
      if bool_decide (c_type dclass ∈ reflected_pkg_classes) then Ok true
      else in_reflected_pkg fuel (type_class_internal (c_super dclass)) reflected_pkg_classes
    end
  end.

(** The first loop over the scope: the classes whose name starts with a
    configured prefix. *)
Definition reflected_package_seed (scope : Scope) (reflected_package_names : list string)
  : gset string :=
  list_to_set
    (c_type <$>
       List.filter
         (λ clazz, existsb (λ pkg, starts_with (c_type clazz) (c_str pkg))
                     reflected_package_names) scope).

(** The second loop over the scope. *)
Fixpoint reflected_package_loop (fuel : nat) (scope : Scope)
    (reflected_package_classes : gset string) (st : State) : Outcome State :=
  match scope with
  | [] => Ok st
  | clazz :: rest =>
    b ← in_reflected_pkg fuel (Some clazz) reflected_package_classes;
    if b : bool then
      reflected_package_loop fuel rest ({[ c_type clazz ]} ∪ reflected_package_classes)
        (mark_reachable_by_classname (Some clazz)
           (TRACE 3 (reflected_package (of_class clazz)) st))
    else reflected_package_loop fuel rest reflected_package_classes st
  end.

(** ** Serializable *)

(** [children.count(t)] on a [TypeSet]. *)
Definition type_set_count (children : gset string) (t : option DexType) : bool :=
  match t with
  | Some t => bool_decide (t ∈ children)
  | None => false
  end.

Definition analyze_serializable (scope : Scope) (st : State) : Outcome State :=
  match get_type "Ljava/io/Serializable;" with
  | None => Ok st
  | Some serializable =>
    let children := get_all_implementors env scope serializable in
    for_eachM (elements children)
      (λ child st,
         match type_class (Some child) with
         | None => Abort (null_dereference "child_cls")
         | Some child_cls =>
           let child_super_type := c_super child_cls in
           match type_class child_super_type with
           | None => Ok st
           | Some child_supercls =>
             if c_external child_supercls then Ok st
             else if type_set_count children child_super_type then Ok st
             else
               Ok (for_each (c_dmethods child_supercls)
                     (λ meth st,
                        if m_init meth && bool_decide (List.length (m_args meth) = 0)
                        then rstate (of_method meth) (set_root SERIALIZABLE None) st
                        else st) st)
           end
         end) st
  end.

(** ** Orchestrator *)

(** The loop over the configured [keep_annotations]. *)
Fixpoint keep_annotation_types (annotations : list string) (annotation_types : gset string)
    (st : State) : gset string * State :=
  match annotations with
  | [] => (annotation_types, st)
  | annostr :: rest =>
    match get_type (c_str annostr) with
    | Some anno => keep_annotation_types rest ({[ anno ]} ∪ annotation_types) st
    | None =>
      keep_annotation_types rest annotation_types
        (fprintf_stderr
           ("WARNING: keep annotation " +:+ c_str annostr +:+ " not found" +:+ LF) st)
    end
  end.

(** The loop over [get_native_classes(apk_dir)]. *)
Definition mark_native_classes (apk_dir : string) (st : State) : State :=
  for_each (get_native_classes env apk_dir)
    (λ classname st,
       match get_type (c_str classname) with
       | None => st
       | Some type =>
         mark_reachable_by_classname_type (Some type) (TRACE 3 (native_lib (c_str classname)) st)
       end) st.

Definition init_permanently_reachable_classes (fuel : nat) (scope : Scope)
    (config : JsonWrapper) (no_optimizations_anno : gset string) (st : State)
  : Outcome State :=
  let apk_dir := config_get (cfg_apk_dir config) "" in
  let reflected_package_names := config_get (cfg_keep_packages config) [] in
  let annotations := config_get (cfg_keep_annotations config) [] in
  let class_members := config_get (cfg_keep_class_members config) [] in
  let methods := config_get (cfg_keep_methods config) [] in
  let compute_xml_reachability := config_get (cfg_compute_xml_reachability config) true in
  let prune_unexported_components :=
    config_get (cfg_prune_unexported_components config) ∅ in
  let analyze_native_lib_reachability :=
    config_get (cfg_analyze_native_lib_reachability config) true in
  let '(annotation_types, st) :=
    keep_annotation_types annotations no_optimizations_anno st in
  let st := keep_annotated_classes scope annotation_types st in
  let st := keep_class_members scope class_members st in
  let st := keep_methods scope methods st in
  st ← (if negb (Nat.eqb (String.length apk_dir) 0) then
          st ← (if compute_xml_reachability : bool then
                  st ← analyze_reachable_from_manifest apk_dir prune_unexported_components st;
                  analyze_reachable_from_xml_layouts scope apk_dir st
                else Ok st);
          if analyze_native_lib_reachability : bool
          then Ok (mark_native_classes apk_dir st)
          else Ok st
        else Ok st);
  st ← analyze_reflection fuel scope st;
  st ← reflected_package_loop fuel scope
         (reflected_package_seed scope reflected_package_names) st;
  analyze_serializable scope st.

Definition recompute_classes_reachable_from_code (scope : Scope) (st : State) : State :=
  walk_methods scope
    (λ meth st,
       if m_native meth
       then mark_reachable_by_string meth (TRACE 3 (native_method (m_class meth)) st)
       else st) st.

Definition init_reachable_classes (fuel : nat) (scope : Scope) (config : JsonWrapper)
    (no_optimizations_anno : gset string) (st : State) : Outcome State :=
  st ← init_permanently_reachable_classes fuel scope config no_optimizations_anno st;
  let st := recompute_classes_reachable_from_code scope st in
  let json_serde_supercls := config_get (cfg_json_serde_supercls config) [] in
  initialize_reachable_for_json_serde scope json_serde_supercls st.

(** ** The orchestration as the specification words it

    One seeder at a time, each reading its own configuration keys and
    guarded as section 4.8 says; a run is a list of seeders. *)

Definition has_apk_dir (config : JsonWrapper) : bool :=
  negb (Nat.eqb (String.length (config_get (cfg_apk_dir config) "")) 0).

Definition run_seeder (fuel : nat) (scope : Scope) (config : JsonWrapper)
    (baseline_annotations : gset string) (s : Seeder) (st : State) : Outcome State :=
  let apk_dir := config_get (cfg_apk_dir config) "" in
  match s with
  | AnnotationPropagation =>
    let '(annotation_types, st) :=
      keep_annotation_types (config_get (cfg_keep_annotations config) [])
        baseline_annotations st in
    Ok (keep_annotated_classes scope annotation_types st)
  | ConfiguredKeeps =>
    Ok (keep_methods scope (config_get (cfg_keep_methods config) [])
          (keep_class_members scope (config_get (cfg_keep_class_members config) []) st))
  | ManifestSeeding =>
    if has_apk_dir config && config_get (cfg_compute_xml_reachability config) true
    then analyze_reachable_from_manifest apk_dir
           (config_get (cfg_prune_unexported_components config) ∅) st
    else Ok st
  | ResourceLayoutSeeding =>
    if has_apk_dir config && config_get (cfg_compute_xml_reachability config) true
    then analyze_reachable_from_xml_layouts scope apk_dir st
    else Ok st
  | NativeLibraryClassnames =>
    if has_apk_dir config && config_get (cfg_analyze_native_lib_reachability config) true
    then Ok (mark_native_classes apk_dir st)
    else Ok st
  | ReflectionScanning => analyze_reflection fuel scope st
  | ReflectedPackageExpansion =>
    reflected_package_loop fuel scope
      (reflected_package_seed scope (config_get (cfg_keep_packages config) [])) st
  | SerializableChain => analyze_serializable scope st
  | SerdeSuperclassMarker =>
    initialize_reachable_for_json_serde scope
      (config_get (cfg_json_serde_supercls config) []) st
  | NativeMethodCodeWalk => Ok (recompute_classes_reachable_from_code scope st)
  end.

Definition run_seeders (fuel : nat) (scope : Scope) (config : JsonWrapper)
    (baseline_annotations : gset string) (order : list Seeder) (st : State)
  : Outcome State :=
  for_eachM order (run_seeder fuel scope config baseline_annotations) st.

End Seeder.

(** The order section 2 of the specification gives. *)
Definition spec_overview_order : list Seeder :=
  [ AnnotationPropagation; ConfiguredKeeps; ManifestSeeding; ResourceLayoutSeeding;
    NativeLibraryClassnames; ReflectionScanning; ReflectedPackageExpansion;
    SerializableChain; SerdeSuperclassMarker; NativeMethodCodeWalk ].

(** The same seeders with the native-method walk ahead of the serde
    marker. *)
Definition native_walk_then_serde_order : list Seeder :=
  [ AnnotationPropagation; ConfiguredKeeps; ManifestSeeding; ResourceLayoutSeeding;
    NativeLibraryClassnames; ReflectionScanning; ReflectedPackageExpansion;
    SerializableChain; NativeMethodCodeWalk; SerdeSuperclassMarker ].

(** * Notions the properties are stated with *)

Definition referenced_by_string (st : State) (e : Elem) : bool :=
  m_by_string (rstate_of st e).

Definition referenced_by_resource_xml (st : State) (e : Elem) : bool :=
  m_by_resources (rstate_of st e).

(** The declared members of a class: direct methods, virtual methods,
    static fields, instance fields. *)
Definition declared_members (cls : DexClass) : list Elem :=
  (of_method <$> c_dmethods cls) ++ (of_method <$> c_vmethods cls) ++
  (of_field <$> c_sfields cls) ++ (of_field <$> c_ifields cls).

(** The classes of a scope and their declared members. *)
Definition scope_elements (scope : Scope) : list Elem :=
  flat_map (λ cls, of_class cls :: declared_members cls) scope.




(** A field or method that a reflective lookup of [name] selects. *)
Definition field_matches (name : DexString) (declared : bool) (t : DexField) : bool :=
  String.eqb (f_name t) name && (f_public t || declared).

Definition method_matches (name : DexString) (params : option (list DexType))
    (declared : bool) (t : DexMethod) : bool :=
  String.eqb (m_name t) name &&
  match params with
  | Some ps => bool_decide (m_args t = ps)
  | None => true
  end &&
  (m_public t || declared).

(** What the resolver does to a match. *)
Definition root_by_reflection (origin : DexMethod) (e : Elem) (st : State) : State :=
  rstate e (set_root REFLECTION (Some (m_id origin))) (TRACE 4 (SRA_BLACKLIST e) st).

(** The declared matches of a class, static fields before instance fields
    and direct methods before virtual methods, rooted in that order. *)
Definition root_declared_fields (origin : DexMethod) (cls : DexClass) (name : DexString)
    (declared : bool) (st : State) : State :=
  for_each (List.filter (field_matches name declared) (c_sfields cls ++ c_ifields cls))
    (λ t, root_by_reflection origin (of_field t)) st.

Definition root_declared_methods (origin : DexMethod) (cls : DexClass) (name : DexString)
    (params : option (list DexType)) (declared : bool) (st : State) : State :=
  for_each (List.filter (method_matches name params declared)
              (c_dmethods cls ++ c_vmethods cls))
    (λ t, root_by_reflection origin (of_method t)) st.

(** The superclass chain that starts at [t] ends, by a class without
    superclass or by a type without class, after at most [n] edges. *)
Fixpoint super_chain_within (env : Env) (n : nat) (t : option DexType) : bool :=
  match type_class env t with
  | None => true
  | Some cls =>
    match c_super cls with
    | None => true
    | Some super_cls =>
      match n with
      | 0 => false
      | S n => super_chain_within env n (Some super_cls)
      end
    end
  end.

(** A call returns when some amount of fuel gives a result. *)
Definition returns {A} (run : nat → Outcome A) : Prop :=
  ∃ fuel a, run fuel = Ok a.

(** A virtual method the click-handler pass selects: declared by a
    non-external child of the context type, named by a bound handler value
    and taking exactly one view. *)
Definition onclick_target (env : Env) (scope : Scope) (names : gset string) (e : Elem)
  : Prop :=
  ∃ t dclass m,
    t ∈ get_all_children env scope "Landroid/content/Context;" ∧
    classes env !! t = Some dclass ∧
    c_external dclass = false ∧
    m ∈ c_vmethods dclass ∧
    m_name m ∈ names ∧
    m_args m = ["Landroid/view/View;"] ∧
    e = of_method m.

(** A class named by a layout, or one of its declared constructors. *)
Definition layout_target (env : Env) (layout_classes : gset string) (e : Elem) : Prop :=
  ∃ classname dclass,
    classname ∈ layout_classes ∧
    maybe_class_from_string env classname = Some dclass ∧
    (e = of_class dclass ∨ ∃ m, m ∈ get_ctors dclass ∧ e = of_method m).

(** What a run of the resource layout seeder marks. *)
Definition xml_target (env : Env) (scope : Scope) (apk_dir : string) (e : Elem) : Prop :=
  let '(layout_classes, attribute_values) :=
    collect_layout_classes_and_attributes env apk_dir {[ ONCLICK_ATTRIBUTE env ]} in
  layout_target env layout_classes e ∨
  onclick_target env scope
    (multimap_values_to_set attribute_values (ONCLICK_ATTRIBUTE env)) e.

(** * Sample programs *)

Definition mk_field (id : nat) (name : string) (public : bool) : DexField :=
  {| f_id := id; f_name := name; f_public := public; f_annos := None |}.

Definition mk_method (id : nat) (cls name : string) (args : list string)
    (public native init : bool) : DexMethod :=
  {| m_id := id; m_class := cls; m_name := name; m_args := args; m_public := public;
     m_native := native; m_init := init; m_annos := None; m_code := None |}.

Definition mk_class (t : string) (super : option string) (external : bool)
    (sfields ifields : list DexField) (dmethods vmethods : list DexMethod) : DexClass :=
  {| c_type := t; c_super := super; c_external := external;
     c_sfields := sfields; c_ifields := ifields;
     c_dmethods := dmethods; c_vmethods := vmethods; c_annos := None |}.

(** The strings of a program that holds the classes [cls]: their
    descriptors and the names of their members. *)
Definition program_strings (cls : list DexClass) : gset string :=
  list_to_set
    (flat_map (λ c, c_type c :: (f_name <$> c_sfields c ++ c_ifields c) ++
                    (m_name <$> c_dmethods c ++ c_vmethods c)) cls).

(** A program with the given known types and classes, an empty manifest,
    no layouts, no native libraries and an analysis that knows nothing;
    [children] answers [get_all_children]. *)
Definition mk_env (types : list string) (cls : list DexClass)
    (children : DexType → gset string)
    (layouts : gset string * list (string * string)) : Env :=
  {| known_types := list_to_set types;
     known_strings := program_strings cls;
     classes := list_to_map ((λ c, (c_type c, c)) <$> cls);
     get_all_children := λ _ t, children t;
     get_all_implementors := λ _ _, ∅;
     get_manifest_class_info := λ _, Build_ManifestClassInfo [] [] [];
     collect_layout_classes_and_attributes := λ _ _, layouts;
     get_native_classes := λ _, [];
     get_abstract_object := λ _ _ _, None;
     get_method_params := λ _ _, None;
     ONCLICK_ATTRIBUTE := "onClick" |}.

Definition no_children : DexType → gset string := λ _, ∅.
Definition no_layouts : gset string * list (string * string) := (∅, []).

Definition empty_state : State := {| rstates := ∅; events := [] |}.

Definition empty_config : JsonWrapper :=
  {| cfg_apk_dir := None; cfg_keep_packages := None; cfg_keep_annotations := None;
     cfg_keep_class_members := None; cfg_keep_methods := None;
     cfg_compute_xml_reachability := None; cfg_prune_unexported_components := None;
     cfg_analyze_native_lib_reachability := None; cfg_json_serde_supercls := None |}.

Definition main_method : DexMethod :=
  mk_method 100 "LMain;" "main" [] true false false.

(** An external class whose superclass belongs to the program. *)
Definition external_E : DexClass :=
  mk_class "LE;" (Some "LS;") true [mk_field 7 "x" true] []
    [] [mk_method 8 "LE;" "run" [] true false false].
Definition internal_S : DexClass :=
  mk_class "LS;" None false [mk_field 1 "x" true] []
    [] [mk_method 2 "LS;" "run" [] true false false].
Definition internal_B : DexClass :=
  mk_class "LB;" (Some "LS;") false [mk_field 3 "x" true] []
    [] [mk_method 4 "LB;" "run" [] true false false].
Definition external_over_internal : Env :=
  mk_env ["LE;"; "LS;"; "LB;"] [external_E; internal_S; internal_B] no_children no_layouts.

(** A class that is its own superclass. *)
Definition cyclic_A : DexClass := mk_class "LA;" (Some "LA;") false [] [] [] [].
Definition cyclic_world : Env := mk_env ["LA;"] [cyclic_A] no_children no_layouts.

(** The activity of the manifest test, with a constructor and a static
    initializer. *)
Definition activity_test3 : DexClass :=
  mk_class "Ltest3;" None false [] []
    [mk_method 31 "Ltest3;" "<init>" [] true false true;
     mk_method 32 "Ltest3;" "<clinit>" [] false false false] [].
Definition manifest_world : Env :=
  mk_env ["Ltest3;"] [activity_test3] no_children no_layouts.


(** Scenario 6: [LV;] extends the context type and declares
    [doThing(View)] and [doThing(String)]; a layout binds [onClick] to
    [doThing]. *)
Definition view_V : DexClass :=
  mk_class "LV;" (Some "Landroid/content/Context;") false [] [] []
    [mk_method 61 "LV;" "doThing" ["Landroid/view/View;"] true false false;
     mk_method 62 "LV;" "doThing" ["Ljava/lang/String;"] true false false].
Definition context_children : DexType → gset string :=
  λ t, if String.eqb t "Landroid/content/Context;" then {[ "LV;" ]} else ∅.
Definition click_world : Env :=
  mk_env ["LV;"; "Landroid/content/Context;"] [view_V] context_children
    (∅, [("onClick", "doThing")]).

(** A custom view of the platform, named by a layout at first and no
    longer named once the layouts have changed. *)
Definition platform_widget : DexClass :=
  mk_class "Landroid/widget/Custom;" None true [] []
    [mk_method 71 "Landroid/widget/Custom;" "<init>" [] true false true] [].
Definition layouts_before : Env :=
  mk_env ["Landroid/widget/Custom;"; "LV;"; "Landroid/content/Context;"]
    [platform_widget; view_V] context_children ({[ "Landroid/widget/Custom;" ]}, []).
Definition layouts_after : Env :=
  mk_env ["Landroid/widget/Custom;"; "LV;"; "Landroid/content/Context;"]
    [platform_widget; view_V] context_children no_layouts.

(** The state a first run of the layout seeder leaves. *)
Definition state_before : State :=
  match analyze_reachable_from_xml_layouts layouts_before [view_V] "apk" empty_state with
  | Ok st => st
  | _ => empty_state
  end.

(** The state a fresh run of the layout seeder leaves in scenario 6. *)
Definition fresh_click_state : State :=
  match analyze_reachable_from_xml_layouts click_world [view_V] "apk" empty_state with
  | Ok st => st
  | _ => empty_state
  end.

(** The name the scanner reads at a call site: the abstract value of the
    argument register of rank [idx], when it is a known string. *)
Definition string_argument (env : Env) (method : DexMethod) (insn : IRInstruction)
    (idx : nat) : option DexString :=
  match get_abstract_object env method (src insn idx) insn with
  | Some obj => if bool_decide (obj_kind obj = STRING) then dex_string obj else None
  | None => None
  end.

(** A call site the scanner matches: an invoke of an entry of [refls] on a
    receiver the analysis knows to be a class. *)
Definition matched_site (env : Env) (method : DexMethod) (insn : IRInstruction)
    (refl_type : ReflectionType) (arg_cls : AbstractObject) : Prop :=
  insn_is_invoke insn = true ∧
  (refls !! insn_callee_class insn) ≫= (λ method_map, method_map !! insn_callee_name insn)
  = Some refl_type ∧
  get_abstract_object env method (src insn 0) insn = Some arg_cls ∧
  obj_kind arg_cls = CLASS.

(** An entry of [keep_class_members] that names the class. *)
Definition names_class (cls : DexClass) (class_mem : string) : bool :=
  bool_decide (is_Some (find (c_str class_mem) (c_type cls))).

(** A class with two static fields, and a configuration whose first entry
    names the class and none of its fields. *)
Definition class_Foo : DexClass :=
  mk_class "LFoo;" None false [mk_field 91 "bar" true; mk_field 92 "qux" true] [] [] [].
Definition foo_entries : list string := ["LOther; bar"; "LFoo; baz"; "LFoo; bar"].

(** A method that calls [AtomicReferenceFieldUpdater.newUpdater(LS;.class,
    Object.class, "x")] and [LS;.class.getConstructors()]. *)
Definition new_updater_call : IRInstruction :=
  {| insn_id := 1; insn_is_invoke := true;
     insn_callee_class := ATOMIC_REF_FIELD_UPDATER; insn_callee_name := "newUpdater";
     insn_srcs := [10; 11; 12] |}.
Definition get_constructors_call : IRInstruction :=
  {| insn_id := 2; insn_is_invoke := true;
     insn_callee_class := JAVA_LANG_CLASS; insn_callee_name := "getConstructors";
     insn_srcs := [10] |}.
Definition updater_analysis : DexMethod → nat → IRInstruction → option AbstractObject :=
  λ _ reg _,
    match reg with
    | 10 => Some {| obj_kind := CLASS; dex_type := Some "LS;"; dex_string := None |}
    | 11 => Some {| obj_kind := CLASS; dex_type := Some "Ljava/lang/Object;";
                    dex_string := None |}
    | 12 => Some {| obj_kind := STRING; dex_type := None; dex_string := Some "x" |}
    | _ => None
    end.
Definition updater_world : Env :=
  {| known_types := list_to_set ["LS;"];
     known_strings := program_strings [internal_S];
     classes := list_to_map [("LS;", internal_S)];
     get_all_children := λ _ _, ∅;
     get_all_implementors := λ _ _, ∅;
     get_manifest_class_info := λ _, Build_ManifestClassInfo [] [] [];
     collect_layout_classes_and_attributes := λ _ _, no_layouts;
     get_native_classes := λ _, [];
     get_abstract_object := updater_analysis;
     get_method_params := λ _ _, None;
     ONCLICK_ATTRIBUTE := "onClick" |}.

(** The same analysis over a program that also holds a class with a
    constructor, and so the string [<init>]. *)
Definition constructors_world : Env :=
  {| known_types := list_to_set ["LS;"; "Ltest3;"];
     known_strings := program_strings [internal_S; activity_test3];
     classes := list_to_map [("LS;", internal_S); ("Ltest3;", activity_test3)];
     get_all_children := λ _ _, ∅;
     get_all_implementors := λ _ _, ∅;
     get_manifest_class_info := λ _, Build_ManifestClassInfo [] [] [];
     collect_layout_classes_and_attributes := λ _ _, no_layouts;
     get_native_classes := λ _, [];
     get_abstract_object := updater_analysis;
     get_method_params := λ _ _, None;
     ONCLICK_ATTRIBUTE := "onClick" |}.

(** A class with a native method beside a static field, and a class that
    extends a configured serde base. *)
Definition native_N : DexClass :=
  mk_class "LNat;" None false [mk_field 42 "f" true] []
    [mk_method 41 "LNat;" "nativeCall" [] true true false] [].
Definition serde_child : DexClass := mk_class "LChild;" (Some "LBase;") false [] [] [] [].
Definition serde_children : DexType → gset string :=
  λ t, if String.eqb t "LBase;" then {[ "LChild;" ]} else ∅.
Definition native_and_serde_world : Env :=
  mk_env ["LNat;"; "LChild;"; "LBase;"] [native_N; serde_child] serde_children no_layouts.
Definition serde_config : JsonWrapper :=
  {| cfg_apk_dir := None; cfg_keep_packages := None; cfg_keep_annotations := None;
     cfg_keep_class_members := None; cfg_keep_methods := None;
     cfg_compute_xml_reachability := None; cfg_prune_unexported_components := None;
     cfg_analyze_native_lib_reachability := None;
     cfg_json_serde_supercls := Some ["LBase;"] |}.

(** A program that does not know the context type, with a layout that
    binds a click handler. *)
Definition missing_context_world : Env :=
  mk_env ["LFoo;"] [class_Foo] no_children (∅, [("onClick", "doThing")]).

(** A program whose native libraries name a class it does not know, a
    class it has, and a type it knows without having its class. *)
Definition native_names_world : Env :=
  {| known_types := list_to_set ["LFoo;"; "LKnown;"];
     known_strings := program_strings [class_Foo];
     classes := list_to_map [("LFoo;", class_Foo)];
     get_all_children := λ _ _, ∅;
     get_all_implementors := λ _ _, ∅;
     get_manifest_class_info := λ _, Build_ManifestClassInfo [] [] [];
     collect_layout_classes_and_attributes := λ _ _, no_layouts;
     get_native_classes := λ _, ["LMissing;"; "LFoo;"; "LKnown;"];
     get_abstract_object := λ _ _ _, None;
     get_method_params := λ _ _, None;
     ONCLICK_ATTRIBUTE := "onClick" |}.
Definition apk_config : JsonWrapper :=
  {| cfg_apk_dir := Some "apk"; cfg_keep_packages := None;
     cfg_keep_annotations := Some ["Lcom/example/Missing;"];
     cfg_keep_class_members := None; cfg_keep_methods := None;
     cfg_compute_xml_reachability := None; cfg_prune_unexported_components := None;
     cfg_analyze_native_lib_reachability := None; cfg_json_serde_supercls := None |}.



(** The warning printed for a keep annotation that does not resolve. *)
Definition keep_annotation_warning (annostr : string) : Event :=
  Printed ("WARNING: keep annotation " +:+ c_str annostr +:+ " not found" +:+ LF).

(** A scope whose only class lies in a configured package. *)
Definition package_world : Env := mk_env ["LFoo;"] [class_Foo] no_children no_layouts.
Definition package_config : JsonWrapper :=
  {| cfg_apk_dir := None; cfg_keep_packages := Some ["LFoo"]; cfg_keep_annotations := None;
     cfg_keep_class_members := None; cfg_keep_methods := None;
     cfg_compute_xml_reachability := None; cfg_prune_unexported_components := None;
     cfg_analyze_native_lib_reachability := None; cfg_json_serde_supercls := None |}.

(** A state in which elements of [LFoo;] carry marks and a root already,
    and the state a run of the seeder from there leaves. *)
Definition marked_before : State :=
  rstate (EField 92) (set_root REFLECTION (Some 100))
    (rstate (EClass "LFoo;") set_referenced_by_resource_xml
       (rstate (EField 91) ref_by_type empty_state)).
Definition marked_after : State :=
  match init_reachable_classes package_world 5 [class_Foo] package_config ∅
          marked_before with
  | Ok st => st
  | _ => marked_before
  end.

(** ** Notions for the further properties *)

Definition referenced_by_type (st : State) (e : Elem) : bool :=
  m_by_type (rstate_of st e).

Definition is_serde (st : State) (e : Elem) : bool :=
  m_is_serde (rstate_of st e).

(** Two states that differ at most in what the operation [op] sets. *)
Definition same_but (op : Op) (st st' : State) : Prop :=
  ∀ e, apply_op op (rstate_of st' e) = apply_op op (rstate_of st e).

(** [o'] is a reason, and one at least as strong as the reason [o], if
    there is one. *)
Definition no_weaker (priority : keep_reason → nat) (o o' : option keep_reason) : Prop :=
  ∀ r, o = Some r → ∃ r', o' = Some r' ∧ (priority r ≤ priority r')%nat.

(** Nothing the seeder records is taken back between [st] and [st']: the
    flags that were set are set, the keep count has not decreased, an
    element that carried a keep reason carries one that is no weaker,
    whatever the priorities, and the originators logged before are still
    there, in front. *)
Definition never_cleared (st st' : State) : Prop :=
  ∀ e,
    (m_by_type (rstate_of st e) = true → m_by_type (rstate_of st' e) = true) ∧
    (m_by_string (rstate_of st e) = true → m_by_string (rstate_of st' e) = true) ∧
    (m_by_resources (rstate_of st e) = true → m_by_resources (rstate_of st' e) = true) ∧
    (m_is_serde (rstate_of st e) = true → m_is_serde (rstate_of st' e) = true) ∧
    (m_keep (rstate_of st e) = true → m_keep (rstate_of st' e) = true) ∧
    (m_keep_count (rstate_of st e) ≤ m_keep_count (rstate_of st' e))%nat ∧
    (∀ priority, no_weaker priority (keep_reason_of priority (rstate_of st e))
                   (keep_reason_of priority (rstate_of st' e))) ∧
    keep_originators (rstate_of st e) `prefix_of` keep_originators (rstate_of st' e).

(** The elements of a class that can carry annotations, each with its
    annotation set. *)
Definition annotated_elements (cls : DexClass) : list (Elem * option (list DexType)) :=
  (of_class cls, c_annos cls) ::
  ((λ m, (of_method m, m_annos m)) <$> c_dmethods cls ++ c_vmethods cls) ++
  ((λ f, (of_field f, f_annos f)) <$> c_sfields cls ++ c_ifields cls).

(** The classes a super-walk that starts at [t] visits. *)
Inductive on_super_chain (env : Env) : option DexType → DexClass → Prop :=
| on_super_chain_here t cls :
    type_class env t = Some cls → on_super_chain env t cls
| on_super_chain_super t c cls :
    type_class env t = Some c → on_super_chain env (c_super c) cls →
    on_super_chain env t cls.

(** The classes a lookup considers: the class itself when the lookup is
    declared-only, and the class with its superclasses when it is not. *)
Definition lookup_visits (env : Env) (declared : bool) (t : option DexType)
    (cls : DexClass) : Prop :=
  if declared then type_class env t = Some cls else on_super_chain env t cls.

(** The component names [prune_unexported_components] may hold. *)
Definition prunable_tags : gset string := {[ "activity"; "activity-alias" ]}.

#[global] Instance ReferencedState_eq_dec : EqDecision ReferencedState.
Proof. solve_decision. Defined.

(** The element is a root and, whatever the priorities, the keep reason
    it carries is at least as strong as [reason]. *)
Definition rooted_at_least (reason : keep_reason) (st : State) (e : Elem) : Prop :=
  m_keep (rstate_of st e) = true ∧
  ∀ priority, no_weaker priority (Some reason) (keep_reason_of priority (rstate_of st e)).

(** Between [st] and [st'] the element got no root, or roots that all gave
    [reason]: whatever the priorities, it carries the reason it carried or
    the one that [set_root(reason)] records over it. *)
Definition rooted_only_with (reason : keep_reason) (st st' : State) : Prop :=
  ∀ e priority,
    keep_reason_of priority (rstate_of st' e) = keep_reason_of priority (rstate_of st e) ∨
    keep_reason_of priority (rstate_of st' e) =
      record_reason priority (keep_reason_of priority (rstate_of st e)) reason.

(** In [st'] the element is a root and, whatever the priorities, carries
    the reason that [set_root(reason)] records over the one it carried in
    [st]: [reason] when it carried none or a weaker one, and the reason it
    carried otherwise. *)
Definition rooted_with (reason : keep_reason) (st st' : State) (e : Elem) : Prop :=
  m_keep (rstate_of st' e) = true ∧
  ∀ priority,
    keep_reason_of priority (rstate_of st' e) =
      record_reason priority (keep_reason_of priority (rstate_of st e)) reason.

(** The element is a root with a reason at least as strong as
    [REFLECTION], and the reflection site [origin] is logged. *)
Definition rooted_by_reflection (origin : DexMethod) (st : State) (e : Elem) : Prop :=
  rooted_at_least REFLECTION st e ∧
  Some (m_id origin) ∈ keep_originators (rstate_of st e).

(** The element is a root with a reason at least as strong as
    [MANIFEST]. *)
Definition rooted_by_manifest (st : State) (e : Elem) : Prop :=
  rooted_at_least MANIFEST st e.

(** Every reason as strong as any other: the first reason is kept. *)
Definition first_reason_kept : keep_reason → nat := λ _, 0.

(** [REFLECTION] stronger than the other reasons. *)
Definition reflection_first : keep_reason → nat :=
  λ reason, match reason with REFLECTION => 1 | _ => 0 end.

(** The state a lookup of the public field [x] from [LB;] leaves. *)
Definition looked_up_field : State :=
  match blacklist_field external_over_internal 3 main_method (Some "LB;") "x" false
          empty_state with
  | Ok st => st
  | _ => empty_state
  end.

(** A state in which the manifest seeder has rooted the method [run] of
    [LB;], and the state a declared lookup of that method then leaves. *)
Definition manifest_rooted_before : State :=
  rstate (EMethod 4) (set_root MANIFEST None) empty_state.
Definition looked_up_method : State :=
  match blacklist_method external_over_internal 3 main_method (Some "LB;") "run"
          (Some []) true manifest_rooted_before with
  | Ok st => st
  | _ => empty_state
  end.

(** The type the super-walk looks at after [k] steps up from [t]. *)
Fixpoint super_at (env : Env) (k : nat) (t : option DexType) : option DexType :=
  match k with
  | 0 => t
  | S k =>
    match type_class env t with
    | Some cls => super_at env k (c_super cls)
    | None => None
    end
  end.

(** The superclass chain of [t] comes back to a class it has been at. *)
Definition cyclic_chain (env : Env) (t : option DexType) : Prop :=
  ∃ k m u, (0 < m)%nat ∧ super_at env k t = Some u ∧ super_at env m (Some u) = Some u.

(** The class names the manifest policy makes roots: the application and
    instrumentation classes, every receiver, service and provider with the
    authority classes of the provider, and an activity or activity alias
    that is exported, has intent filters, or whose kind is not pruned. *)
Definition manifest_root_name (info : ManifestClassInfo) (prune : list ComponentTag)
    (name : string) : Prop :=
  name ∈ application_classes info ∨
  name ∈ instrumentation_classes info ∨
  ∃ tag_info, tag_info ∈ component_tags info ∧
    ((name = classname tag_info ∧
      (tag tag_info = Receiver ∨ tag tag_info = Service ∨ tag tag_info = Provider ∨
       is_exported tag_info = true ∨ has_intent_filters tag_info = true ∨
       tag tag_info ∉ prune)) ∨
     (tag tag_info = Provider ∧ name ∈ authority_classes tag_info)).

(** Scenario 2: an activity that is not exported and has no intent
    filter, with activities pruned. *)
Definition unexported_activity : ComponentTagInfo :=
  {| tag := Activity; classname := "Ltest3;"; is_exported := false;
     has_intent_filters := false; authority_classes := [] |}.

(** Scenario 1: an activity with an intent filter, with activities
    pruned. *)
Definition filtered_activity : ComponentTagInfo :=
  {| tag := Activity; classname := "Ltest3;"; is_exported := false;
     has_intent_filters := true; authority_classes := [] |}.
Definition filtered_activity_world : Env :=
  {| known_types := list_to_set ["Ltest3;"];
     known_strings := program_strings [activity_test3];
     classes := list_to_map [("Ltest3;", activity_test3)];
     get_all_children := λ _ _, ∅;
     get_all_implementors := λ _ _, ∅;
     get_manifest_class_info := λ _, Build_ManifestClassInfo [] [] [filtered_activity];
     collect_layout_classes_and_attributes := λ _ _, no_layouts;
     get_native_classes := λ _, [];
     get_abstract_object := λ _ _ _, None;
     get_method_params := λ _ _, None;
     ONCLICK_ATTRIBUTE := "onClick" |}.
Definition filtered_activity_state : State :=
  match analyze_reachable_from_manifest filtered_activity_world "apk" {[ "activity" ]}
          empty_state with
  | Ok st => st
  | _ => empty_state
  end.

(** The classes [in_reflected_pkg] looks at from [cls]: the class, then
    the class of its superclass as long as that class is known and not
    external. *)
Inductive on_internal_chain (env : Env) : DexClass → DexClass → Prop :=
| on_internal_chain_here cls : on_internal_chain env cls cls
| on_internal_chain_super cls super_cls dclass :
    type_class_internal env (c_super cls) = Some super_cls →
    on_internal_chain env super_cls dclass →
    on_internal_chain env cls dclass.

(** A class of the scope whose name starts with a configured prefix. *)
Definition in_configured_package (scope : Scope) (pkgs : list string) (t : DexType)
  : Prop :=
  ∃ clazz pkg, clazz ∈ scope ∧ c_type clazz = t ∧ pkg ∈ pkgs ∧
               starts_with (c_type clazz) (c_str pkg) = true.

Definition keep_flag (st : State) (e : Elem) : bool := m_keep (rstate_of st e).

(** A no-argument constructor that the serializable chain selects: a
    constructor declared by the non-external superclass of an implementor
    of [Serializable], when that superclass is not itself an implementor. *)
Definition serializable_target (env : Env) (scope : Scope) (e : Elem) : Prop :=
  ∃ child child_cls child_supercls meth,
    child ∈ get_all_implementors env scope "Ljava/io/Serializable;" ∧
    classes env !! child = Some child_cls ∧
    type_class env (c_super child_cls) = Some child_supercls ∧
    c_external child_supercls = false ∧
    type_set_count (get_all_implementors env scope "Ljava/io/Serializable;")
      (c_super child_cls) = false ∧
    meth ∈ c_dmethods child_supercls ∧ m_init meth = true ∧ m_args meth = [] ∧
    e = of_method meth.

(** Scenario: [LBean;] implements [Serializable] and extends [LPlain;],
    which does not. *)
Definition plain_super : DexClass :=
  mk_class "LPlain;" None false [] []
    [mk_method 51 "LPlain;" "<init>" [] true false true;
     mk_method 52 "LPlain;" "<init>" ["I"] true false true] [].
Definition bean : DexClass := mk_class "LBean;" (Some "LPlain;") false [] [] [] [].
Definition serializable_world : Env :=
  {| known_types := list_to_set ["LPlain;"; "LBean;"; "Ljava/io/Serializable;"];
     known_strings := program_strings [plain_super; bean];
     classes := list_to_map [("LPlain;", plain_super); ("LBean;", bean)];
     get_all_children := λ _ _, ∅;
     get_all_implementors :=
       λ _ t, if String.eqb t "Ljava/io/Serializable;" then {[ "LBean;" ]} else ∅;
     get_manifest_class_info := λ _, Build_ManifestClassInfo [] [] [];
     collect_layout_classes_and_attributes := λ _ _, no_layouts;
     get_native_classes := λ _, [];
     get_abstract_object := λ _ _ _, None;
     get_method_params := λ _ _, None;
     ONCLICK_ATTRIBUTE := "onClick" |}.
Definition serializable_state : State :=
  match analyze_serializable serializable_world [plain_super; bean] empty_state with
  | Ok st => st
  | _ => empty_state
  end.

(** The state the serde marker leaves on the sample with a serde base. *)
Definition serde_state : State :=
  match initialize_reachable_for_json_serde native_and_serde_world [native_N; serde_child]
          ["LBase;"] empty_state with
  | Ok st => st
  | _ => empty_state
  end.

(** * Properties *)

(** ** Keep reasons

    The reason read off the log follows the rule of section 4.1 call
    after call, whatever the priorities. *)

Lemma keep_reason_of_set_root priority reason originator rs :
  keep_reason_of priority (apply_op (set_root reason originator) rs) =
  record_reason priority (keep_reason_of priority rs) reason.
Proof.
  destruct rs as [ty str xml serde keep obf cnt why]. unfold keep_reason_of. simpl.
  by rewrite fmap_app, fold_left_app.
Qed.

Lemma keep_reason_of_apply_op priority op rs :
  (∀ reason originator, op ≠ set_root reason originator) →
  keep_reason_of priority (apply_op op rs) = keep_reason_of priority rs ∧
  keep_originators (apply_op op rs) = keep_originators rs ∧
  m_keep (apply_op op rs) = m_keep rs.
Proof.
  intros Hop. destruct rs as [ty str xml serde keep obf cnt why].
  destruct op; try done. by destruct (Hop reason originator).
Qed.

Lemma Op_root_or_not op :
  (∃ reason originator, op = set_root reason originator) ∨
  (∀ reason originator, op ≠ set_root reason originator).
Proof. destruct op; try (by right); left; by eexists _, _. Qed.

Lemma m_keep_set_root reason originator rs :
  m_keep (apply_op (set_root reason originator) rs) = true.
Proof. by destruct rs. Qed.

Lemma keep_originators_set_root reason originator rs :
  keep_originators (apply_op (set_root reason originator) rs) =
  keep_originators rs ++ [originator].
Proof. destruct rs. unfold keep_originators. simpl. by rewrite fmap_app. Qed.

Lemma record_reason_idem priority recorded reason :
  record_reason priority (record_reason priority recorded reason) reason =
  record_reason priority recorded reason.
Proof.
  destruct recorded as [first|]; simpl.
  - destruct (Nat.ltb (priority first) (priority reason)) eqn:Hlt; simpl.
    + by rewrite Nat.ltb_irrefl.
    + by rewrite Hlt.
  - by rewrite Nat.ltb_irrefl.
Qed.

Lemma record_reason_no_weaker priority recorded reason :
  no_weaker priority (Some reason) (record_reason priority recorded reason) ∧
  no_weaker priority recorded (record_reason priority recorded reason).
Proof.
  split; intros r Hr.
  - injection Hr as <-. destruct recorded as [first|]; simpl.
    + destruct (Nat.ltb (priority first) (priority reason)) eqn:Hlt.
      * by exists reason.
      * exists first. split; [done|]. apply Nat.ltb_ge in Hlt. lia.
    + by exists reason.
  - subst recorded. simpl.
    destruct (Nat.ltb (priority r) (priority reason)) eqn:Hlt.
    + exists reason. split; [done|]. apply Nat.ltb_lt in Hlt. lia.
    + by exists r.
Qed.

Lemma no_weaker_trans priority o1 o2 o3 :
  no_weaker priority o1 o2 → no_weaker priority o2 o3 → no_weaker priority o1 o3.
Proof.
  intros H12 H23 r Hr. destruct (H12 r Hr) as (r2 & Hr2 & Hle).
  destruct (H23 r2 Hr2) as (r3 & Hr3 & Hle'). exists r3. split; [done|]. lia.
Qed.

(** A reason that is at least as strong as [reason] is the one
    [set_root(reason)] records over it. *)
Lemma record_reason_absorbed priority recorded reason :
  no_weaker priority (Some reason) recorded →
  record_reason priority recorded reason = recorded.
Proof.
  intros Hge. destruct (Hge reason eq_refl) as (r & -> & Hle). simpl.
  by rewrite (proj2 (Nat.ltb_ge _ _) Hle).
Qed.


(** ** The store and the loops *)

Lemma rstate_of_rstate e op st e' :
  rstate_of (rstate e op st) e' =
  if decide (e = e') then apply_op op (rstate_of st e) else rstate_of st e'.
Proof.
  unfold rstate_of at 1. simpl. case_decide as He.
  - subst e'. by rewrite lookup_insert_eq.
  - by rewrite lookup_insert_ne.
Qed.

Lemma rstate_of_rstate_eq e op st :
  rstate_of (rstate e op st) e = apply_op op (rstate_of st e).
Proof. rewrite rstate_of_rstate. by case_decide. Qed.

Lemma rstate_of_rstate_ne e op st e' :
  e ≠ e' → rstate_of (rstate e op st) e' = rstate_of st e'.
Proof. intros. rewrite rstate_of_rstate. by case_decide. Qed.

Lemma rstate_of_TRACE level msg st e : rstate_of (TRACE level msg st) e = rstate_of st e.
Proof. reflexivity. Qed.

Lemma rstate_of_fprintf_stderr msg st e :
  rstate_of (fprintf_stderr msg st) e = rstate_of st e.
Proof. reflexivity. Qed.

Lemma for_each_nil {A} (body : A → State → State) st : for_each [] body st = st.
Proof. reflexivity. Qed.

Lemma for_each_cons {A} x (l : list A) body st :
  for_each (x :: l) body st = for_each l body (body x st).
Proof. reflexivity. Qed.

Lemma for_each_app {A} (l1 l2 : list A) body st :
  for_each (l1 ++ l2) body st = for_each l2 body (for_each l1 body st).
Proof. unfold for_each. apply fold_left_app. Qed.

Lemma for_each_snoc {A} (l : list A) x body st :
  for_each (l ++ [x]) body st = body x (for_each l body st).
Proof. by rewrite for_each_app. Qed.

(** A loop that acts on the elements a test selects is the loop over the
    selected elements. *)
Lemma for_each_filter {A} (p : A → bool) (l : list A) body st :
  for_each l (λ x s, if p x then body x s else s) st = for_each (List.filter p l) body st.
Proof.
  revert st. induction l as [|x l IH]; intros st; [done|].
  rewrite for_each_cons. simpl. destruct (p x); [rewrite for_each_cons|]; apply IH.
Qed.

Lemma for_each_ext {A} (l : list A) body1 body2 st :
  (∀ x s, x ∈ l → body1 x s = body2 x s) →
  for_each l body1 st = for_each l body2 st.
Proof.
  revert st. induction l as [|x l IH]; intros st Hb; [done|].
  rewrite !for_each_cons, Hb by left. apply IH. intros. apply Hb. by right.
Qed.

(** A property that every iteration carries over holds after the loop. *)
Lemma for_each_invariant {A} (P : State → Prop) (l : list A) body st :
  (∀ x s, x ∈ l → P s → P (body x s)) → P st → P (for_each l body st).
Proof.
  revert st. induction l as [|x l IH]; intros st Hb Hst; [done|].
  rewrite for_each_cons. apply IH.
  - intros. apply Hb; [by right|done].
  - apply Hb; [by left|done].
Qed.

Lemma for_eachM_invariant {A} (P : State → Prop) (l : list A) body st st' :
  (∀ x s s', x ∈ l → P s → body x s = Ok s' → P s') →
  P st → for_eachM l body st = Ok st' → P st'.
Proof.
  revert st. induction l as [|x l IH]; intros st Hb Hst Hrun; simpl in Hrun.
  - by simplify_eq.
  - destruct (body x st) as [s1| |] eqn:Hx; simpl in Hrun; try discriminate.
    eapply IH; [|eapply Hb; [by left|done..]|done].
    intros. eapply Hb; [by right|done..].
Qed.

Lemma for_eachM_pure {A} (l : list A) (body : A → State → State) st :
  for_eachM l (λ x s, Ok (body x s)) st = Ok (for_each l body st).
Proof. revert st. induction l as [|x l IH]; intros st; [done|]. simpl. apply IH. Qed.

(** ** Member resolver *)

Section Resolver.

Variable env : Env.

Lemma blacklist_field_yield_matches origin name declared t st :
  blacklist_field_yield origin name declared t st =
  if field_matches name declared t then root_by_reflection origin (of_field t) st else st.
Proof.
  unfold blacklist_field_yield, field_matches, root_by_reflection.
  by destruct (String.eqb (f_name t) name), (f_public t), declared.
Qed.

Lemma blacklist_method_yield_matches origin name params declared t st :
  blacklist_method_yield origin name params declared t st =
  if method_matches name params declared t then root_by_reflection origin (of_method t) st
  else st.
Proof.
  unfold blacklist_method_yield, method_matches, root_by_reflection, args_equal.
  destruct (String.eqb (m_name t) name); [|done].
  destruct params as [ps|]; simpl.
  - by destruct (bool_decide (m_args t = ps)), (m_public t), declared.
  - by destruct (m_public t), declared.
Qed.

Lemma iterate_fields_internal origin cls name declared st :
  c_external cls = false →
  iterate_fields cls (blacklist_field_yield origin name declared) st =
  root_declared_fields origin cls name declared st.
Proof.
  intros Hext. unfold iterate_fields, root_declared_fields. rewrite Hext.
  rewrite <- for_each_app, <- for_each_filter.
  apply for_each_ext. intros. apply blacklist_field_yield_matches.
Qed.

Lemma iterate_methods_internal origin cls name params declared st :
  c_external cls = false →
  iterate_methods cls (blacklist_method_yield origin name params declared) st =
  root_declared_methods origin cls name params declared st.
Proof.
  intros Hext. unfold iterate_methods, root_declared_methods. rewrite Hext.
  rewrite <- for_each_app, <- for_each_filter.
  apply for_each_ext. intros. apply blacklist_method_yield_matches.
Qed.

(** C1 (as amended).  For a class the type resolves to: when the class is
    external none of its declared members is yielded, a declared-only
    lookup leaves the state as it is, and a lookup that is not
    declared-only goes on with the superclass, if there is one, exactly as
    a call on the superclass would; when the class is not external and has
    a superclass, a lookup that is not declared-only roots the declared
    matches and then runs on the superclass with the same parameters. *)
Theorem blacklist_external_and_super_walk
    (fuel : nat) (origin : DexMethod) (t : DexType) (cls : DexClass)
    (name : DexString) (params : option (list DexType)) (st : State) :
  type_class env (Some t) = Some cls →
  (c_external cls = true →
     blacklist_field env (S fuel) origin (Some t) name true st = Ok st ∧
     blacklist_method env (S fuel) origin (Some t) name params true st = Ok st) ∧
  (c_external cls = true → c_super cls = None →
     blacklist_field env (S fuel) origin (Some t) name false st = Ok st ∧
     blacklist_method env (S fuel) origin (Some t) name params false st = Ok st) ∧
  (c_external cls = true → ∀ super_cls, c_super cls = Some super_cls →
     blacklist_field env (S fuel) origin (Some t) name false st =
       blacklist_field env fuel origin (Some super_cls) name false st ∧
     blacklist_method env (S fuel) origin (Some t) name params false st =
       blacklist_method env fuel origin (Some super_cls) name params false st) ∧
  (c_external cls = false → ∀ super_cls, c_super cls = Some super_cls →
     blacklist_field env (S fuel) origin (Some t) name false st =
       blacklist_field env fuel origin (Some super_cls) name false
         (root_declared_fields origin cls name false st) ∧
     blacklist_method env (S fuel) origin (Some t) name params false st =
       blacklist_method env fuel origin (Some super_cls) name params false
         (root_declared_methods origin cls name params false st)).
Proof.
  intros Hcls. split; [|split; [|split]].
  - intros Hext. cbn [blacklist_field blacklist_method]. rewrite Hcls. unfold iterate_fields, iterate_methods.
    by rewrite Hext.
  - intros Hext Hsup. cbn [blacklist_field blacklist_method]. rewrite Hcls. unfold iterate_fields, iterate_methods.
    by rewrite Hext, Hsup.
  - intros Hext s Hsup. cbn [blacklist_field blacklist_method]. rewrite Hcls. unfold iterate_fields, iterate_methods.
    by rewrite Hext, Hsup.
  - intros Hext s Hsup. cbn [blacklist_field blacklist_method]. rewrite Hcls, Hsup.
    by rewrite iterate_fields_internal, iterate_methods_internal.
Qed.

(** The walk with more fuel than the chain is long. *)
Lemma blacklist_field_finite_chain n :
  ∀ origin t name declared st,
    super_chain_within env n t = true ∨ declared = true →
    ∃ st', ∀ fuel, n < fuel → blacklist_field env fuel origin t name declared st = Ok st'.
Proof.
  induction n as [|n IH]; intros origin t name declared st Hfin.
  - destruct (type_class env t) as [cls|] eqn:Hcls.
    + exists (iterate_fields cls (blacklist_field_yield origin name declared) st).
      intros [|fuel] Hlt; [lia|]. simpl. rewrite Hcls.
      destruct declared; [done|]. simpl.
      destruct Hfin as [Hfin|]; [|done]. simpl in Hfin. rewrite Hcls in Hfin.
      by destruct (c_super cls).
    + exists st. intros [|fuel] Hlt; [lia|]. simpl. by rewrite Hcls.
  - destruct (type_class env t) as [cls|] eqn:Hcls.
    + set (st1 := iterate_fields cls (blacklist_field_yield origin name declared) st).
      destruct declared.
      { exists st1. intros [|fuel] Hlt; [lia|]. simpl. by rewrite Hcls. }
      destruct (c_super cls) as [s|] eqn:Hsup.
      * destruct (IH origin (Some s) name false st1) as [st' Hst'].
        { destruct Hfin as [Hfin|]; [|done]. left. simpl in Hfin.
          by rewrite Hcls, Hsup in Hfin. }
        exists st'. intros [|fuel] Hlt; [lia|]. simpl. rewrite Hcls, Hsup.
        apply Hst'. lia.
      * exists st1. intros [|fuel] Hlt; [lia|]. simpl. by rewrite Hcls, Hsup.
    + exists st. intros [|fuel] Hlt; [lia|]. simpl. by rewrite Hcls.
Qed.

Lemma blacklist_method_finite_chain n :
  ∀ origin t name params declared st,
    super_chain_within env n t = true ∨ declared = true →
    ∃ st', ∀ fuel, n < fuel →
      blacklist_method env fuel origin t name params declared st = Ok st'.
Proof.
  induction n as [|n IH]; intros origin t name params declared st Hfin.
  - destruct (type_class env t) as [cls|] eqn:Hcls.
    + exists (iterate_methods cls (blacklist_method_yield origin name params declared) st).
      intros [|fuel] Hlt; [lia|]. simpl. rewrite Hcls.
      destruct declared; [done|]. simpl.
      destruct Hfin as [Hfin|]; [|done]. simpl in Hfin. rewrite Hcls in Hfin.
      by destruct (c_super cls).
    + exists st. intros [|fuel] Hlt; [lia|]. simpl. by rewrite Hcls.
  - destruct (type_class env t) as [cls|] eqn:Hcls.
    + set (st1 := iterate_methods cls (blacklist_method_yield origin name params declared) st).
      destruct declared.
      { exists st1. intros [|fuel] Hlt; [lia|]. simpl. by rewrite Hcls. }
      destruct (c_super cls) as [s|] eqn:Hsup.
      * destruct (IH origin (Some s) name params false st1) as [st' Hst'].
        { destruct Hfin as [Hfin|]; [|done]. left. simpl in Hfin.
          by rewrite Hcls, Hsup in Hfin. }
        exists st'. intros [|fuel] Hlt; [lia|]. simpl. rewrite Hcls, Hsup.
        apply Hst'. lia.
      * exists st1. intros [|fuel] Hlt; [lia|]. simpl. by rewrite Hcls, Hsup.
    + exists st. intros [|fuel] Hlt; [lia|]. simpl. by rewrite Hcls.
Qed.

(** A chain that never ends keeps the walk going until the fuel is spent. *)
Lemma blacklist_field_endless_chain fuel :
  ∀ origin t name st,
    (∀ n, super_chain_within env n t = false) →
    blacklist_field env fuel origin t name false st = Timeout.
Proof.
  induction fuel as [|fuel IH]; intros origin t name st Hend; [done|].
  cbn [blacklist_field]. pose proof (Hend 0) as H0. simpl in H0.
  destruct (type_class env t) as [cls|] eqn:Hcls; [|done].
  destruct (c_super cls) as [super_cls|] eqn:Hsup; [|done].
  simpl. apply IH. intros n. specialize (Hend (S n)). simpl in Hend.
  by rewrite Hcls, Hsup in Hend.
Qed.

Lemma blacklist_method_endless_chain fuel :
  ∀ origin t name params st,
    (∀ n, super_chain_within env n t = false) →
    blacklist_method env fuel origin t name params false st = Timeout.
Proof.
  induction fuel as [|fuel IH]; intros origin t name params st Hend; [done|].
  cbn [blacklist_method]. pose proof (Hend 0) as H0. simpl in H0.
  destruct (type_class env t) as [cls|] eqn:Hcls; [|done].
  destruct (c_super cls) as [super_cls|] eqn:Hsup; [|done].
  simpl. apply IH. intros n. specialize (Hend (S n)). simpl in Hend.
  by rewrite Hcls, Hsup in Hend.
Qed.

Lemma super_at_None k : super_at env k None = None.
Proof. by destruct k. Qed.

Lemma super_at_add k :
  ∀ m t, super_at env (k + m) t = super_at env m (super_at env k t).
Proof.
  induction k as [|k IH]; intros m t; [done|].
  simpl. destruct (type_class env t) as [cls|]; [apply IH|].
  by rewrite super_at_None.
Qed.

Lemma super_chain_within_super_at n :
  ∀ t, super_chain_within env n t = true → super_at env (S n) t = None.
Proof.
  induction n as [|n IH]; intros t Hfin; simpl in *.
  - destruct (type_class env t) as [cls|]; [|done]. by destruct (c_super cls).
  - destruct (type_class env t) as [cls|]; [|done].
    destruct (c_super cls) as [super_cls|]; [|done]. by apply IH in Hfin.
Qed.

Lemma cyclic_chain_round m u j :
  super_at env m (Some u) = Some u → super_at env (j * m) (Some u) = Some u.
Proof.
  intros Hround. induction j as [|j IH]; [done|].
  simpl. by rewrite super_at_add, Hround.
Qed.

Lemma cyclic_chain_never_ends t n :
  cyclic_chain env t → super_chain_within env n t = false.
Proof.
  intros (k & m & u & Hm & Hk & Hround).
  destruct (super_chain_within env n t) eqn:Hfin; [|done].
  apply super_chain_within_super_at in Hfin.
  assert (super_at env (k + S n * m) t = Some u) as Hfar.
  { by rewrite super_at_add, Hk, cyclic_chain_round. }
  assert (∃ d, (k + S n * m = S n + d)%nat) as [d Hd] by (exists (k + S n * m - S n); nia).
  rewrite Hd, super_at_add, Hfin, super_at_None in Hfar. discriminate Hfar.
Qed.

(** C2 (as amended).  The super-walk of [blacklist_field] and of
    [blacklist_method] returns, after at most [n + 1] calls and with a
    result that more fuel does not change, when the lookup is
    declared-only or the superclass chain of the class ends within [n]
    edges.  There is no guard against a revisited class: on a chain that
    never ends a lookup that is not declared-only does not return,
    whatever the fuel, and a cyclic chain never ends. *)
Theorem super_walk_returns_iff_chain_ends
    (origin : DexMethod) (t : option DexType) (name : DexString)
    (params : option (list DexType)) (st : State) :
  (∀ n declared, super_chain_within env n t = true ∨ declared = true →
     (∃ st', ∀ fuel, n < fuel →
        blacklist_field env fuel origin t name declared st = Ok st') ∧
     (∃ st', ∀ fuel, n < fuel →
        blacklist_method env fuel origin t name params declared st = Ok st')) ∧
  ((∀ n, super_chain_within env n t = false) →
     ∀ fuel, blacklist_field env fuel origin t name false st = Timeout ∧
             blacklist_method env fuel origin t name params false st = Timeout) ∧
  (cyclic_chain env t → ∀ n, super_chain_within env n t = false).
Proof.
  split; [|split].
  - intros n declared Hfin. split.
    + by apply blacklist_field_finite_chain.
    + by apply blacklist_method_finite_chain.
  - intros Hend fuel. split.
    + by apply blacklist_field_endless_chain.
    + by apply blacklist_method_endless_chain.
  - intros Hcycle n. by apply cyclic_chain_never_ends.
Qed.

End Resolver.

(** C1, counterexample.  [LE;] is external and extends [LS;], which
    declares a public field [x] and a public method [run].  A lookup on
    [LE;] that is not declared-only does not return at once: it goes on to
    [LS;] and roots its members. *)
Lemma external_class_lookup_roots_superclass_member :
  type_class external_over_internal (Some "LE;") = Some external_E ∧
  c_external external_E = true ∧
  m_keep (rstate_of empty_state (EField 1)) = false ∧
  m_keep (rstate_of empty_state (EMethod 2)) = false ∧
  (λ st, m_keep (rstate_of st (EField 1))) <$>
    blacklist_field external_over_internal 2 main_method (Some "LE;") "x" false empty_state
  = Ok true ∧
  events <$>
    blacklist_field external_over_internal 2 main_method (Some "LE;") "x" false empty_state
  = Ok [Traced 4 (SRA_BLACKLIST (EField 1));
        Wrote (EField 1) (set_root REFLECTION (Some 100))] ∧
  (λ st, m_keep (rstate_of st (EMethod 2))) <$>
    blacklist_method external_over_internal 2 main_method (Some "LE;") "run" None false
      empty_state
  = Ok true ∧
  events <$>
    blacklist_method external_over_internal 2 main_method (Some "LE;") "run" None false
      empty_state
  = Ok [Traced 4 (SRA_BLACKLIST (EMethod 2));
        Wrote (EMethod 2) (set_root REFLECTION (Some 100))].
Proof.
  split; [vm_compute; reflexivity|]. split; [vm_compute; reflexivity|].
  split; [vm_compute; reflexivity|]. split; [vm_compute; reflexivity|].
  split; [vm_compute; reflexivity|]. split; [vm_compute; reflexivity|].
  split; vm_compute; reflexivity.
Qed.

Lemma blacklist_external_and_super_walk_witness :
  (blacklist_field external_over_internal 3 main_method (Some "LE;") "x" false empty_state =
   blacklist_field external_over_internal 2 main_method (Some "LS;") "x" false empty_state) ∧
  (blacklist_field external_over_internal 3 main_method (Some "LE;") "x" true empty_state =
   Ok empty_state) ∧
  (blacklist_method external_over_internal 3 main_method (Some "LB;") "run" None false
     empty_state =
   blacklist_method external_over_internal 2 main_method (Some "LS;") "run" None false
     (root_declared_methods main_method internal_B "run" None false empty_state)).
Proof.
  split; [|split].
  - destruct (blacklist_external_and_super_walk external_over_internal 2 main_method
                "LE;" external_E "x" None empty_state) as (_ & _ & H & _);
      [reflexivity|].
    destruct (H eq_refl "LS;" eq_refl) as [Hf _]. exact Hf.
  - destruct (blacklist_external_and_super_walk external_over_internal 2 main_method
                "LE;" external_E "x" None empty_state) as (H & _);
      [reflexivity|].
    destruct (H eq_refl) as [Hf _]. exact Hf.
  - destruct (blacklist_external_and_super_walk external_over_internal 2 main_method
                "LB;" internal_B "run" None empty_state) as (_ & _ & _ & H);
      [reflexivity|].
    destruct (H eq_refl "LS;" eq_refl) as [_ Hm]. exact Hm.
Defined.

Lemma cyclic_world_field_walk fuel :
  ∀ st, blacklist_field cyclic_world fuel main_method (Some "LA;") "x" false st = Timeout.
Proof.
  induction fuel as [|fuel IH]; intros st; [done|].
  cbn [blacklist_field].
  replace (type_class cyclic_world (Some "LA;")) with (Some cyclic_A) by reflexivity.
  simpl. apply IH.
Qed.

Lemma cyclic_world_method_walk fuel :
  ∀ st, blacklist_method cyclic_world fuel main_method (Some "LA;") "x" None false st
        = Timeout.
Proof.
  induction fuel as [|fuel IH]; intros st; [done|].
  cbn [blacklist_method].
  replace (type_class cyclic_world (Some "LA;")) with (Some cyclic_A) by reflexivity.
  simpl. apply IH.
Qed.

(** C2, counterexample.  [LA;] is its own superclass.  A lookup on it that
    is not declared-only never returns: whatever the fuel, the walk is
    still going round the cycle when the fuel is spent. *)
Lemma super_walk_never_returns_on_cycle :
  ¬ returns (λ fuel, blacklist_field cyclic_world fuel main_method (Some "LA;") "x" false
                       empty_state) ∧
  ¬ returns (λ fuel, blacklist_method cyclic_world fuel main_method (Some "LA;") "x" None
                       false empty_state).
Proof.
  split; intros (fuel & st' & Hrun); simpl in Hrun.
  - by rewrite cyclic_world_field_walk in Hrun.
  - by rewrite cyclic_world_method_walk in Hrun.
Qed.

Lemma super_walk_returns_iff_chain_ends_witness :
  returns (λ fuel, blacklist_field external_over_internal fuel main_method (Some "LB;")
                     "x" false empty_state) ∧
  returns (λ fuel, blacklist_method external_over_internal fuel main_method (Some "LB;")
                     "run" None false empty_state) ∧
  cyclic_chain cyclic_world (Some "LA;") ∧
  (∀ fuel, blacklist_field cyclic_world fuel main_method (Some "LA;") "x" false empty_state
           = Timeout) ∧
  (∀ fuel, blacklist_method cyclic_world fuel main_method (Some "LA;") "run" None false
             empty_state = Timeout).
Proof.
  destruct (super_walk_returns_iff_chain_ends external_over_internal main_method
              (Some "LB;") "x" None empty_state) as [Hf _].
  destruct (Hf 1 false) as [[sf Hsf] _]; [left; reflexivity|].
  destruct (super_walk_returns_iff_chain_ends external_over_internal main_method
              (Some "LB;") "run" None empty_state) as [Hm _].
  destruct (Hm 1 false) as [_ [sm Hsm]]; [left; reflexivity|].
  assert (cyclic_chain cyclic_world (Some "LA;")) as Hcycle.
  { exists 0, 1, "LA;". split; [lia|]. split; reflexivity. }
  destruct (super_walk_returns_iff_chain_ends cyclic_world main_method (Some "LA;") "x"
              None empty_state) as (_ & Hfield & Hends).
  destruct (super_walk_returns_iff_chain_ends cyclic_world main_method (Some "LA;") "run"
              None empty_state) as (_ & Hmethod & _).
  split; [exists 2, sf; apply Hsf; lia|].
  split; [exists 2, sm; apply Hsm; lia|].
  split; [exact Hcycle|].
  split.
  - intros fuel. apply Hfield. by apply Hends.
  - intros fuel. apply Hmethod. by apply Hends.
Defined.

(** ** Loops of writes *)



Lemma rstate_of_for_each_rstate_in {A} (P : ReferencedState → Prop) (g : A → Elem) op
    (l : list A) st e :
  (∀ rs, P (apply_op op rs)) →
  e ∈ g <$> l → P (rstate_of (for_each l (λ x, rstate (g x) op) st) e).
Proof.
  intros Hop. induction l as [|x l IH] using rev_ind; intros Hin.
  - by apply elem_of_nil in Hin.
  - rewrite for_each_snoc, rstate_of_rstate. case_decide as Hx; [apply Hop|].
    apply IH. rewrite fmap_app in Hin. apply elem_of_app in Hin as [|Hin]; [done|].
    simpl in Hin. apply list_elem_of_singleton in Hin. by subst.
Qed.

(** ** Manifest roots *)





(** ** Resource layouts *)

(** A loop whose iterations each set the flag on the elements they select
    sets it on everything some iteration selects. *)
Lemma for_each_xml {A} (T : A → Elem → Prop) (l : list A) body st :
  (∀ x s e, x ∈ l →
     referenced_by_resource_xml (body x s) e = true ↔
     referenced_by_resource_xml s e = true ∨ T x e) →
  ∀ e, referenced_by_resource_xml (for_each l body st) e = true ↔
       referenced_by_resource_xml st e = true ∨ ∃ x, x ∈ l ∧ T x e.
Proof.
  revert st. induction l as [|x l IH]; intros st Hb e.
  - simpl. split; [by left|]. intros [|(x & Hx & _)]; [done|]. by apply elem_of_nil in Hx.
  - rewrite for_each_cons, IH by (intros; apply Hb; by right).
    rewrite Hb by left. split.
    + intros [[|]|(y & Hy & HT)]; [by left|right; exists x; split; [by left|done]|].
      right. exists y. split; [by right|done].
    + intros [|(y & Hy & HT)]; [by left; left|].
      apply elem_of_cons in Hy as [->|Hy]; [by left; right|].
      right. by exists y.
Qed.

Lemma for_eachM_xml {A} (T : A → Elem → Prop) (l : list A) body st st' :
  (∀ x s s' e, x ∈ l → body x s = Ok s' →
     referenced_by_resource_xml s' e = true ↔
     referenced_by_resource_xml s e = true ∨ T x e) →
  for_eachM l body st = Ok st' →
  ∀ e, referenced_by_resource_xml st' e = true ↔
       referenced_by_resource_xml st e = true ∨ ∃ x, x ∈ l ∧ T x e.
Proof.
  revert st. induction l as [|x l IH]; intros st Hb Hrun e; simpl in Hrun.
  - simplify_eq. split; [by left|]. intros [|(x & Hx & _)]; [done|].
    by apply elem_of_nil in Hx.
  - destruct (body x st) as [s1| |] eqn:Hx; simpl in Hrun; try discriminate.
    rewrite (IH s1) by first [done | intros; eapply Hb; [by right|done]].
    rewrite (Hb x st s1 e) by (done || by left). split.
    + intros [[|]|(y & Hy & HT)]; [by left|right; exists x; split; [by left|done]|].
      right. exists y. split; [by right|done].
    + intros [|(y & Hy & HT)]; [by left; left|].
      apply elem_of_cons in Hy as [->|Hy]; [by left; right|].
      right. by exists y.
Qed.

Lemma xml_rstate_set e st e' :
  referenced_by_resource_xml (rstate e set_referenced_by_resource_xml st) e' = true ↔
  referenced_by_resource_xml st e' = true ∨ e' = e.
Proof.
  unfold referenced_by_resource_xml. rewrite rstate_of_rstate. case_decide as He.
  - subst e'. destruct (rstate_of st e). simpl. split; [by right|done].
  - split; [by left|]. by intros [ | -> ].
Qed.

Lemma matches_onclick_method_spec m names :
  matches_onclick_method m names = true ↔
  m_name m ∈ names ∧ m_args m = ["Landroid/view/View;"].
Proof.
  unfold matches_onclick_method. destruct (m_args m) as [|a [|b l]].
  - split; [done|]. by intros [_ ?].
  - destruct (String.eqb_spec a "Landroid/view/View;") as [->|Hne].
    + rewrite bool_decide_eq_true. split; [done|]. by intros [? _].
    + split; [done|]. intros [_ Heq]. by simplify_eq.
  - split; [done|]. by intros [_ ?].
Qed.

Section Layouts.

Variable env : Env.

Lemma mark_onclick_attributes_reachable_xml scope names st st' :
  mark_onclick_attributes_reachable env scope names st = Ok st' →
  ∀ e, referenced_by_resource_xml st' e = true ↔
       referenced_by_resource_xml st e = true ∨ onclick_target env scope names e.
Proof.
  unfold mark_onclick_attributes_reachable. intros Hrun e.
  case_bool_decide as Hsize.
  - simplify_eq. split; [by left|]. intros [|(t & d & m & _ & _ & _ & _ & Hn & _)]; [done|].
    apply size_empty_inv in Hsize. set_solver.
  - unfold get_type in Hrun. case_decide; [|done].
    eapply (for_eachM_xml
              (λ t e, ∃ dclass m, classes env !! t = Some dclass ∧
                        c_external dclass = false ∧ m ∈ c_vmethods dclass ∧
                        m_name m ∈ names ∧ m_args m = ["Landroid/view/View;"] ∧
                        e = of_method m)) in Hrun; [rewrite Hrun|].
    + unfold onclick_target. split.
      * intros [|(t & Ht & d & m & Hrest)]; [by left|]. right. exists t, d, m.
        apply elem_of_elements in Ht. by split.
      * intros [|(t & d & m & Ht & Hrest)]; [by left|]. right. exists t.
        rewrite elem_of_elements. split; [done|]. by exists d, m.
    + clear Hrun. intros t s s' e' _ Hbody. simpl in Hbody.
      destruct (classes env !! t) as [dclass|]; [|done].
      destruct (c_external dclass) eqn:Hext.
      * simplify_eq. split; [by left|]. intros [|(d & m & ? & ? & _)]; [done|].
        simplify_eq. congruence.
      * simplify_eq. rewrite for_each_filter.
        rewrite (for_each_xml (λ m e, e = of_method m)).
        -- split.
           ++ intros [|(m & Hm & ->)]; [by left|]. right. exists dclass, m.
              apply list_elem_of_In, filter_In in Hm as [Hm Hmatch].
              apply matches_onclick_method_spec in Hmatch as [? ?].
              by rewrite <- list_elem_of_In in Hm.
           ++ intros [|(d & m & ? & ? & Hm & ? & ? & ->)]; [by left|]. simplify_eq.
              right. exists m. split; [|done].
              apply list_elem_of_In, filter_In. rewrite <- list_elem_of_In.
              split; [done|]. by apply matches_onclick_method_spec.
        -- intros m s0 e0 _. by rewrite xml_rstate_set.
Qed.

(** C5.  With no bound handler name the click-handler pass leaves the
    state as it is.  When it returns, the flag [referenced_by_resource_xml]
    is set exactly on the elements that had it before and on the virtual
    methods that a non-external child of the context type declares, whose
    name is a bound handler value and whose parameter list is exactly the
    single view type.  It returns whenever the context type and the class
    of every child resolve. *)
Theorem onclick_pass_marks_exactly (scope : Scope) (names : gset string) (st : State) :
  (names = ∅ → mark_onclick_attributes_reachable env scope names st = Ok st) ∧
  (∀ st', mark_onclick_attributes_reachable env scope names st = Ok st' →
     ∀ e, referenced_by_resource_xml st' e = true ↔
          referenced_by_resource_xml st e = true ∨ onclick_target env scope names e) ∧
  ("Landroid/content/Context;" ∈ known_types env →
   (∀ t, t ∈ get_all_children env scope "Landroid/content/Context;" →
         is_Some (classes env !! t)) →
   ∃ st', mark_onclick_attributes_reachable env scope names st = Ok st').
Proof.
  split; [|split].
  - intros ->. reflexivity.
  - apply mark_onclick_attributes_reachable_xml.
  - intros Hctx Hchildren. unfold mark_onclick_attributes_reachable.
    case_bool_decide; [by eexists|].
    unfold get_type. case_decide; [|done].
    assert (∀ l s, (∀ t, t ∈ l → is_Some (classes env !! t)) →
              ∃ s', for_eachM l
                      (λ t st0,
                         match type_class env (Some t) with
                         | Some dclass =>
                           if c_external dclass then Ok st0
                           else Ok (for_each (c_vmethods dclass)
                                      (λ m st1,
                                         if matches_onclick_method m names
                                         then rstate (of_method m) set_referenced_by_resource_xml
                                                (TRACE 2 (Keeping_vmethod (of_method m)) st1)
                                         else st1) st0)
                         | None => Abort (null_dereference "dclass")
                         end) s = Ok s') as Hloop.
    { induction l as [|t l IH]; intros s Hl; [by eexists|]. simpl.
      destruct (Hl t) as [d Hd]; [by left|]. rewrite Hd.
      destruct (c_external d); simpl; apply IH; intros; apply Hl; by right. }
    apply Hloop. intros t Ht. apply Hchildren. by apply elem_of_elements.
Qed.

End Layouts.

Lemma onclick_pass_marks_exactly_witness :
  ∃ st', mark_onclick_attributes_reachable click_world [view_V] {[ "doThing" ]} empty_state
         = Ok st' ∧
         referenced_by_resource_xml st' (EMethod 61) = true ∧
         referenced_by_resource_xml st' (EMethod 62) = false ∧
         mark_onclick_attributes_reachable click_world [view_V] ∅ empty_state
         = Ok empty_state.
Proof.
  destruct (onclick_pass_marks_exactly click_world [view_V] {[ "doThing" ]} empty_state)
    as (_ & Hiff & Hret).
  destruct Hret as [st' Hst'].
  - compute_done.
  - intros t Ht. change (t ∈ ({[ "LV;" ]} : gset string)) in Ht.
    apply elem_of_singleton in Ht as ->. eexists. vm_compute. reflexivity.
  - exists st'. split; [done|]. split; [|split].
    + apply (Hiff st' Hst'). right.
      exists "LV;", view_V,
        (mk_method 61 "LV;" "doThing" ["Landroid/view/View;"] true false false).
      split; [compute_done|]. split; [reflexivity|]. split; [reflexivity|].
      split; [by left|]. split; [compute_done|]. by split.
    + apply not_true_is_false. intros Hset. apply (Hiff st' Hst') in Hset as [Hset|Ht].
      * discriminate.
      * destruct Ht as (t & d & m & Ht & Hd & _ & Hm & _ & Hargs & Heq).
        change (t ∈ ({[ "LV;" ]} : gset string)) in Ht.
        apply elem_of_singleton in Ht as ->.
        assert (classes click_world !! "LV;" = Some view_V) as Hv by reflexivity.
        rewrite Hv in Hd. injection Hd as <-.
        simpl in Hm. apply elem_of_cons in Hm as [->|Hm]; [discriminate|].
        apply list_elem_of_singleton in Hm as ->. discriminate.
    + by apply (onclick_pass_marks_exactly click_world [view_V] ∅ empty_state).
Defined.

(** ** Recomputing the layout marks *)

Lemma for_each_fmap {A B} (g : A → B) (l : list A) body st :
  for_each (g <$> l) body st = for_each l (λ x, body (g x)) st.
Proof. revert st. induction l as [|x l IH]; intros st; [done|]. simpl. apply IH. Qed.

(** A loop that applies an idempotent operation to a list of elements
    applies it once to each of them. *)
Lemma rstate_of_for_each_idempotent op (l : list Elem) st e :
  (∀ rs, apply_op op (apply_op op rs) = apply_op op rs) →
  rstate_of (for_each l (λ x, rstate x op) st) e =
  if decide (e ∈ l) then apply_op op (rstate_of st e) else rstate_of st e.
Proof.
  intros Hidem. induction l as [|x l IH] using rev_ind.
  - rewrite for_each_nil. case_decide as Hin; [|done]. by apply elem_of_nil in Hin.
  - destruct (decide (x = e)) as [->|Hne].
    + rewrite for_each_snoc, rstate_of_rstate_eq, IH.
      rewrite (decide_True (P := e ∈ l ++ [e])) by (apply elem_of_app; right; by left).
      case_decide; [apply Hidem|done].
    + rewrite for_each_snoc, rstate_of_rstate_ne, IH by done.
      destruct (decide (e ∈ l)) as [Hin|Hnin].
      * by rewrite decide_True by (apply elem_of_app; by left).
      * rewrite decide_False; [done|]. intros Hin.
        apply elem_of_app in Hin as [|Hin]; [done|].
        apply list_elem_of_singleton in Hin. by subst.
Qed.

(** The elements the clearing pass visits, in the order it visits them. *)
Lemma unset_referenced_by_resource_xml_pass_writes scope st :
  unset_referenced_by_resource_xml_pass scope st =
  for_each
    (flat_map (λ cls, of_class cls ::
                 (of_method <$> c_dmethods cls) ++ (of_method <$> c_vmethods cls) ++
                 (of_field <$> c_ifields cls) ++ (of_field <$> c_sfields cls)) scope)
    (λ e, rstate e unset_referenced_by_resource_xml) st.
Proof.
  unfold unset_referenced_by_resource_xml_pass.
  revert st. induction scope as [|cls scope IH]; intros st; [done|].
  rewrite for_each_cons, IH. cbn [flat_map].
  rewrite for_each_app. f_equal.
  rewrite for_each_cons, !for_each_app, !for_each_fmap. reflexivity.
Qed.

Lemma unset_referenced_by_resource_xml_pass_rstate scope st e :
  rstate_of (unset_referenced_by_resource_xml_pass scope st) e =
  if decide (e ∈ scope_elements scope)
  then apply_op unset_referenced_by_resource_xml (rstate_of st e)
  else rstate_of st e.
Proof.
  rewrite unset_referenced_by_resource_xml_pass_writes.
  rewrite rstate_of_for_each_idempotent by (by intros []).
  assert (e ∈ flat_map (λ cls, of_class cls ::
                    (of_method <$> c_dmethods cls) ++ (of_method <$> c_vmethods cls) ++
                    (of_field <$> c_ifields cls) ++ (of_field <$> c_sfields cls)) scope
          ↔ e ∈ scope_elements scope) as Hsame.
  { unfold scope_elements, declared_members.
    rewrite !list_elem_of_In, !in_flat_map. setoid_rewrite <- list_elem_of_In.
    split; intros (cls & Hcls & Hin); exists cls; (split; [done|]);
      rewrite elem_of_cons, !elem_of_app in *; tauto. }
  destruct (decide (e ∈ scope_elements scope)) as [Hin|Hnin].
  - rewrite decide_True; [done|]. by apply Hsame.
  - rewrite decide_False; [done|]. intros Hin. apply Hnin. by apply Hsame.
Qed.

Section Recompute.

Variable env : Env.

Lemma mark_reachable_by_xml_xml classname st e :
  referenced_by_resource_xml (mark_reachable_by_xml env classname st) e = true ↔
  referenced_by_resource_xml st e = true ∨
  ∃ dclass, maybe_class_from_string env classname = Some dclass ∧
            (e = of_class dclass ∨ ∃ m, m ∈ get_ctors dclass ∧ e = of_method m).
Proof.
  unfold mark_reachable_by_xml.
  destruct (maybe_class_from_string env classname) as [dclass|].
  - rewrite (for_each_xml (λ m e, e = of_method m))
      by (intros; apply xml_rstate_set).
    rewrite xml_rstate_set. split.
    + intros [[|]|(m & Hm & ->)]; [by left| |]; right; exists dclass; split; try done.
      * by left.
      * right. by exists m.
    + intros [|(d & Hd & [->|(m & Hm & ->)])]; simplify_eq.
      * by left; left.
      * by left; right.
      * right. by exists m.
  - split; [by left|]. by intros [|(? & ? & _)].
Qed.

Lemma analyze_reachable_from_xml_layouts_xml scope apk_dir st st' :
  analyze_reachable_from_xml_layouts env scope apk_dir st = Ok st' →
  ∀ e, referenced_by_resource_xml st' e = true ↔
       referenced_by_resource_xml st e = true ∨ xml_target env scope apk_dir e.
Proof.
  unfold analyze_reachable_from_xml_layouts, xml_target.
  destruct (collect_layout_classes_and_attributes env apk_dir {[ONCLICK_ATTRIBUTE env]})
    as [layout_classes attribute_values].
  intros Hrun e.
  rewrite (mark_onclick_attributes_reachable_xml _ _ _ _ _ Hrun).
  rewrite (for_each_xml
             (λ classname e,
                ∃ dclass, maybe_class_from_string env classname = Some dclass ∧
                          (e = of_class dclass ∨
                           ∃ m, m ∈ get_ctors dclass ∧ e = of_method m))).
  - unfold layout_target. split.
    + intros [[|(c & Hc & d & Hd)]|]; [by left| |by right; right].
      right. left. exists c, d. apply elem_of_elements in Hc. by split.
    + intros [|[(c & d & Hc & Hd)|]]; [by left; left| |by right].
      left. right. exists c. rewrite elem_of_elements. split; [done|]. by exists d.
  - intros classname s e' _. by rewrite mark_reachable_by_xml_xml.
Qed.

(** Whether a loop fails does not depend on the state when no iteration's
    failure does. *)
Lemma for_eachM_returns_anyway {A} (l : list A) body :
  (∀ x s1 s1' s2, x ∈ l → body x s1 = Ok s1' → ∃ s2', body x s2 = Ok s2') →
  ∀ s1 s1' s2, for_eachM l body s1 = Ok s1' → ∃ s2', for_eachM l body s2 = Ok s2'.
Proof.
  induction l as [|x l IH]; intros Hb s1 s1' s2 Hrun; [by eexists|].
  simpl in *. destruct (body x s1) as [t1| |] eqn:Hx; simpl in Hrun; try discriminate.
  destruct (Hb x s1 t1 s2) as [t2 Ht2]; [by left|done|]. rewrite Ht2. simpl.
  eapply IH; [|done]. intros. eapply Hb; [by right|done].
Qed.

Lemma analyze_reachable_from_xml_layouts_returns_anyway scope apk_dir s1 s1' s2 :
  analyze_reachable_from_xml_layouts env scope apk_dir s1 = Ok s1' →
  ∃ s2', analyze_reachable_from_xml_layouts env scope apk_dir s2 = Ok s2'.
Proof.
  unfold analyze_reachable_from_xml_layouts.
  destruct (collect_layout_classes_and_attributes env apk_dir {[ONCLICK_ATTRIBUTE env]})
    as [layout_classes attribute_values].
  unfold mark_onclick_attributes_reachable.
  case_bool_decide; [by eexists|].
  destruct (get_type env "Landroid/content/Context;"); [|done].
  apply for_eachM_returns_anyway.
  intros t t1 t1' t2 _. simpl.
  destruct (classes env !! t) as [d|]; [|done].
  destruct (c_external d); by eexists.
Qed.

(** C7 (as amended).  Take a fresh run of the layout seeder from a state
    where no element has the flag.  The recompute entry point returns on
    the same inputs, and afterwards the classes of the scope and their
    declared members have [referenced_by_resource_xml] exactly where the
    fresh run sets it; an element that is not in the scope keeps the flag
    it had, or gets it from the run.  The clearing pass changes nothing but
    that flag, and only on the elements of the scope. *)
Theorem recompute_reachable_from_xml_layouts_on_scope
    (scope : Scope) (apk_dir : string) (st st0 st_fresh : State) :
  (∀ e, referenced_by_resource_xml st0 e = false) →
  analyze_reachable_from_xml_layouts env scope apk_dir st0 = Ok st_fresh →
  ∃ st_re,
    recompute_reachable_from_xml_layouts env scope apk_dir st = Ok st_re ∧
    (∀ e, e ∈ scope_elements scope →
          referenced_by_resource_xml st_re e = referenced_by_resource_xml st_fresh e) ∧
    (∀ e, e ∉ scope_elements scope →
          referenced_by_resource_xml st_re e =
          referenced_by_resource_xml st e || referenced_by_resource_xml st_fresh e) ∧
    (∀ e, rstate_of (unset_referenced_by_resource_xml_pass scope st) e =
          if decide (e ∈ scope_elements scope)
          then apply_op unset_referenced_by_resource_xml (rstate_of st e)
          else rstate_of st e).
Proof.
  intros Hfalse Hfresh. unfold recompute_reachable_from_xml_layouts.
  destruct (analyze_reachable_from_xml_layouts_returns_anyway _ _ _ _
              (unset_referenced_by_resource_xml_pass scope st) Hfresh) as [st_re Hre].
  exists st_re. split; [done|].
  pose proof (analyze_reachable_from_xml_layouts_xml _ _ _ _ Hfresh) as Hf.
  pose proof (analyze_reachable_from_xml_layouts_xml _ _ _ _ Hre) as Hr.
  split; [|split].
  - intros e Hin. apply eq_true_iff_eq. rewrite Hf, Hr, Hfalse.
    unfold referenced_by_resource_xml at 1.
    rewrite unset_referenced_by_resource_xml_pass_rstate, decide_True by done.
    by destruct (rstate_of st e).
  - intros e Hnin. apply eq_true_iff_eq. rewrite orb_true_iff, Hf, Hr, Hfalse.
    unfold referenced_by_resource_xml at 1.
    rewrite unset_referenced_by_resource_xml_pass_rstate, decide_False by done.
    unfold referenced_by_resource_xml. intuition discriminate.
  - intros e. apply unset_referenced_by_resource_xml_pass_rstate.
Qed.

End Recompute.

(** C7, counterexample.  A first run marks the platform class a layout
    names.  The layouts then stop naming it and the marks are recomputed:
    the class is external, so not in the scope the clearing pass walks, and
    it keeps the flag, which a fresh run on the same inputs does not set. *)
Lemma recompute_keeps_flag_outside_scope :
  (∀ e, referenced_by_resource_xml empty_state e = false) ∧
  (λ st, referenced_by_resource_xml st (EClass "Landroid/widget/Custom;")) <$>
    recompute_reachable_from_xml_layouts layouts_after [view_V] "apk" state_before
  = Ok true ∧
  (λ st, referenced_by_resource_xml st (EClass "Landroid/widget/Custom;")) <$>
    analyze_reachable_from_xml_layouts layouts_after [view_V] "apk" empty_state
  = Ok false.
Proof.
  split; [intros e; vm_compute; reflexivity|].
  split; vm_compute; reflexivity.
Qed.

Lemma recompute_reachable_from_xml_layouts_on_scope_witness :
  ∃ st_re,
    recompute_reachable_from_xml_layouts click_world [view_V] "apk" state_before = Ok st_re ∧
    ∀ e, e ∈ scope_elements [view_V] →
         referenced_by_resource_xml st_re e = referenced_by_resource_xml fresh_click_state e.
Proof.
  destruct (recompute_reachable_from_xml_layouts_on_scope click_world [view_V] "apk"
              state_before empty_state fresh_click_state) as (st_re & Hre & Hin & _).
  - intros e. vm_compute. reflexivity.
  - vm_compute. reflexivity.
  - exists st_re. split; [exact Hre|exact Hin].
Defined.

(** ** Configured class members *)

Lemma keep_class_members_of_skip cls before rest st :
  (∀ x, x ∈ before → names_class cls x = false) →
  keep_class_members_of cls (before ++ rest) st = keep_class_members_of cls rest st.
Proof.
  induction before as [|x before IH]; intros Hnone; [done|].
  simpl. pose proof (Hnone x ltac:(by left)) as Hx.
  unfold names_class in Hx. apply bool_decide_eq_false in Hx.
  destruct (find (c_str x) (c_type cls)) as [pos|] eqn:Hfind.
  - exfalso. apply Hx. by eexists.
  - apply IH. intros. apply Hnone. by right.
Qed.

(** C10.  For one class, the entries before the first one that contains
    the class name do nothing, and that first entry alone decides: the
    entries after it are never examined.  So when no static-field name of
    the class occurs in the remainder of the first matching entry, nothing
    is marked, whatever the later entries say. *)
Theorem keep_class_members_first_match_only
    (cls : DexClass) (before after : list string) (class_mem : string) (st : State) :
  (∀ x, x ∈ before → names_class cls x = false) →
  names_class cls class_mem = true →
  keep_class_members_of cls (before ++ class_mem :: after) st =
    keep_class_members_of cls [class_mem] st ∧
  ((∀ pos f, find (c_str class_mem) (c_type cls) = Some pos → f ∈ c_sfields cls →
             find (substr (c_str class_mem) (pos + String.length (c_type cls))) (f_name f)
             = None) →
   keep_class_members_of cls (before ++ class_mem :: after) st = st).
Proof.
  intros Hbefore Hmatch. rewrite keep_class_members_of_skip by done.
  unfold names_class in Hmatch. apply bool_decide_eq_true in Hmatch as [pos Hpos].
  simpl. rewrite Hpos. split; [done|].
  intros Hnofield. apply (for_each_invariant (λ s, s = st)); [|done].
  intros f s Hf ->. rewrite (Hnofield pos f) by done.
  rewrite bool_decide_eq_false_2; [done|]. by intros [? ?].
Qed.

Lemma keep_class_members_first_match_only_witness :
  keep_class_members_of class_Foo foo_entries empty_state = empty_state ∧
  events (keep_class_members_of class_Foo ["LFoo; bar"] empty_state) =
    [Wrote (EField 91) ref_by_type; Wrote (EClass "LFoo;") ref_by_type].
Proof.
  split; [|vm_compute; reflexivity].
  apply (keep_class_members_first_match_only class_Foo ["LOther; bar"] ["LFoo; bar"]
           "LFoo; baz" empty_state).
  - intros x Hx. apply list_elem_of_singleton in Hx as ->. vm_compute. reflexivity.
  - vm_compute. reflexivity.
  - intros pos f Hpos Hf.
    assert (find (c_str "LFoo; baz") (c_type class_Foo) = Some 0) as Hzero
        by (vm_compute; reflexivity).
    rewrite Hzero in Hpos. injection Hpos as <-.
    apply elem_of_cons in Hf as [->|Hf]; [vm_compute; reflexivity|].
    apply list_elem_of_singleton in Hf as ->. vm_compute. reflexivity.
Defined.

(** ** Reflection scanner *)

(** C8.  The name of a matched call site is the literal [<init>] for the
    constructor kinds, looked up among the strings of the program whatever
    the analysis says of any register; it is the string argument of rank 2
    for [REF_UPDATER] and of rank 1 for every other kind, and a site for
    which the lookup gives no string is skipped.  The three updater kinds
    hand the site to [blacklist_field] with [declared] set. *)
Theorem reflection_site_name_and_updaters
    (env : Env) (fuel : nat) (method : DexMethod) (insn : IRInstruction)
    (refl_type : ReflectionType) (arg_cls : AbstractObject) (st : State) :
  matched_site env method insn refl_type arg_cls →
  (refl_type = GET_CONSTRUCTOR ∨ refl_type = GET_DECLARED_CONSTRUCTOR →
     ∀ env',
       dex_string_lookup env' method refl_type insn = get_string env' "<init>" ∧
       ∀ name, dex_string_lookup env' method refl_type insn = Some name →
               name = "<init>") ∧
  (refl_type = REF_UPDATER →
     dex_string_lookup env method refl_type insn = string_argument env method insn 2) ∧
  (refl_type ≠ GET_CONSTRUCTOR → refl_type ≠ GET_DECLARED_CONSTRUCTOR →
   refl_type ≠ REF_UPDATER →
     dex_string_lookup env method refl_type insn = string_argument env method insn 1) ∧
  (dex_string_lookup env method refl_type insn = None →
     analyze_reflection_insn env fuel method insn st = Ok st) ∧
  (refl_type = INT_UPDATER ∨ refl_type = LONG_UPDATER ∨ refl_type = REF_UPDATER →
     ∀ name, dex_string_lookup env method refl_type insn = Some name →
       analyze_reflection_insn env fuel method insn st =
       blacklist_field env fuel method (dex_type arg_cls) name true
         (TRACE 4 (SRA_ANALYZE (insn_id insn) refl_type name) st)).
Proof.
  intros (Hinvoke & Hrefl & Hobj & Hkind).
  assert (∀ o, dex_string_lookup env method refl_type insn = o →
            analyze_reflection_insn env fuel method insn st =
            match o with
            | None => Ok st
            | Some name =>
              dispatch_reflection env fuel method refl_type arg_cls name
                (if bool_decide (refl_type = GET_METHOD ∨ refl_type = GET_CONSTRUCTOR ∨
                                 refl_type = GET_DECLARED_METHOD ∨
                                 refl_type = GET_DECLARED_CONSTRUCTOR)
                 then get_method_params env method insn else None)
                (TRACE 4 (SRA_ANALYZE (insn_id insn) refl_type name) st)
            end) as Hsite.
  { intros o Ho. unfold analyze_reflection_insn. rewrite Hinvoke. simpl.
    destruct (refls !! insn_callee_class insn) as [method_map|]; [|done].
    simpl in Hrefl. rewrite Hrefl, Hobj, Hkind. simpl. by rewrite Ho. }
  split; [|split; [|split; [|split]]].
  - assert (∀ env' name, get_string env' "<init>" = Some name → name = "<init>") as Hlit.
    { intros env' name. unfold get_string.
      destruct (decide ("<init>" ∈ known_strings env')); intros Hname;
        [by injection Hname as <-|discriminate Hname]. }
    intros [-> | ->] env'; (split; [reflexivity|apply Hlit]).
  - intros ->. reflexivity.
  - intros H1 H2 H3. unfold dex_string_lookup, string_argument.
    rewrite bool_decide_eq_false_2 by (by intros [|]).
    by rewrite (bool_decide_eq_false_2 (refl_type = REF_UPDATER)).
  - intros Hnone. by rewrite (Hsite None).
  - intros Hupd name Hname. rewrite (Hsite (Some name)) by done.
    by destruct Hupd as [-> | [-> | ->]].
Qed.

Lemma reflection_site_name_and_updaters_witness :
  matched_site updater_world main_method new_updater_call REF_UPDATER
    {| obj_kind := CLASS; dex_type := Some "LS;"; dex_string := None |} ∧
  dex_string_lookup updater_world main_method REF_UPDATER new_updater_call = Some "x" ∧
  analyze_reflection_insn updater_world 3 main_method new_updater_call empty_state =
  blacklist_field updater_world 3 main_method (Some "LS;") "x" true
    (TRACE 4 (SRA_ANALYZE 1 REF_UPDATER "x") empty_state) ∧
  dex_string_lookup constructors_world main_method GET_CONSTRUCTOR get_constructors_call
  = Some "<init>" ∧
  analyze_reflection_insn updater_world 3 main_method get_constructors_call empty_state
  = Ok empty_state.
Proof.
  assert (matched_site updater_world main_method new_updater_call REF_UPDATER
            {| obj_kind := CLASS; dex_type := Some "LS;"; dex_string := None |}) as Hsite.
  { split; [reflexivity|]. split; [vm_compute; reflexivity|]. split; reflexivity. }
  split; [exact Hsite|].
  destruct (reflection_site_name_and_updaters updater_world 3 main_method new_updater_call
              REF_UPDATER _ empty_state Hsite) as (_ & Hname & _ & _ & Hupd).
  split; [rewrite (Hname eq_refl); vm_compute; reflexivity|].
  split.
  - apply (Hupd (or_intror (or_intror eq_refl)) "x"). rewrite (Hname eq_refl).
    vm_compute. reflexivity.
  - assert (matched_site updater_world main_method get_constructors_call GET_CONSTRUCTOR
              {| obj_kind := CLASS; dex_type := Some "LS;"; dex_string := None |}) as Hctor.
    { split; [reflexivity|]. split; [vm_compute; reflexivity|]. split; reflexivity. }
    destruct (reflection_site_name_and_updaters updater_world 3 main_method
                get_constructors_call GET_CONSTRUCTOR _ empty_state Hctor)
      as (Hinit & _ & _ & Hskip & _).
    split.
    + destruct (Hinit (or_introl eq_refl) constructors_world) as [-> _].
      vm_compute. reflexivity.
    + apply Hskip. destruct (Hinit (or_introl eq_refl) updater_world) as [-> _].
      vm_compute. reflexivity.
Defined.

(** ** Orchestrator *)

Lemma Outcome_bind_assoc {A B C} (m : Outcome A) (f : A → Outcome B) (g : B → Outcome C) :
  (m ≫= f) ≫= g = m ≫= (λ x, f x ≫= g).
Proof. by destruct m. Qed.

Lemma Outcome_bind_Ok {A B} (a : A) (f : A → Outcome B) : Ok a ≫= f = f a.
Proof. reflexivity. Qed.

Lemma Outcome_bind_ret {A} (m : Outcome A) : m ≫= (λ x, Ok x) = m.
Proof. by destruct m. Qed.

Lemma Outcome_bind_ext {A B} (m : Outcome A) (f g : A → Outcome B) :
  (∀ x, f x = g x) → m ≫= f = m ≫= g.
Proof. intros Hfg. destruct m; [apply Hfg|done..]. Qed.

(** C9 (as amended).  The orchestrator runs annotation propagation, the
    configured member and method keeps, manifest seeding, resource-layout
    seeding, native-library classnames, reflection scanning,
    reflected-package expansion, the serializable chain, then the code walk
    that marks native methods, and the serde superclass marker last. *)
Theorem init_reachable_classes_order
    (env : Env) (fuel : nat) (scope : Scope) (config : JsonWrapper)
    (no_optimizations_anno : gset string) (st : State) :
  init_reachable_classes env fuel scope config no_optimizations_anno st =
  run_seeders env fuel scope config no_optimizations_anno native_walk_then_serde_order st.
Proof.
  unfold init_reachable_classes, init_permanently_reachable_classes, run_seeders,
    native_walk_then_serde_order.
  cbn [for_eachM run_seeder]. unfold has_apk_dir.
  destruct (keep_annotation_types env (config_get (cfg_keep_annotations config) [])
              no_optimizations_anno st) as [annotation_types st1].
  rewrite !Outcome_bind_Ok.
  destruct (negb (Nat.eqb (String.length (config_get (cfg_apk_dir config) "")) 0));
    destruct (config_get (cfg_compute_xml_reachability config) true);
    destruct (config_get (cfg_analyze_native_lib_reachability config) true);
    cbn [andb];
    repeat first [ rewrite Outcome_bind_Ok
                 | rewrite Outcome_bind_assoc
                 | match goal with |- ?x = ?x => reflexivity end
                 | apply Outcome_bind_ext; intros ? ];
    try (symmetry; apply Outcome_bind_ret).
Qed.

(** C9, counterexample.  A scope with a native method and a child of a
    configured serde base: the run writes the marks of the native-method
    walk before the serde mark, while the order of section 2 of the
    specification would write the serde mark first. *)
Lemma serde_marker_runs_after_native_walk :
  events <$> init_reachable_classes native_and_serde_world 5 [native_N; serde_child]
               serde_config ∅ empty_state
  = Ok [Traced 3 (native_method "LNat;");
        Wrote (EClass "LNat;") ref_by_string;
        Wrote (EMethod 41) ref_by_string;
        Wrote (EClass "LChild;") set_is_serde] ∧
  events <$> run_seeders native_and_serde_world 5 [native_N; serde_child]
               serde_config ∅ spec_overview_order empty_state
  = Ok [Wrote (EClass "LChild;") set_is_serde;
        Traced 3 (native_method "LNat;");
        Wrote (EClass "LNat;") ref_by_string;
        Wrote (EMethod 41) ref_by_string] ∧
  init_reachable_classes native_and_serde_world 5 [native_N; serde_child]
    serde_config ∅ empty_state
  ≠ run_seeders native_and_serde_world 5 [native_N; serde_child]
      serde_config ∅ spec_overview_order empty_state.
Proof.
  assert (events <$> init_reachable_classes native_and_serde_world 5 [native_N; serde_child]
                       serde_config ∅ empty_state
          = Ok [Traced 3 (native_method "LNat;");
                Wrote (EClass "LNat;") ref_by_string;
                Wrote (EMethod 41) ref_by_string;
                Wrote (EClass "LChild;") set_is_serde]) as Hsource
      by (vm_compute; reflexivity).
  assert (events <$> run_seeders native_and_serde_world 5 [native_N; serde_child]
                       serde_config ∅ spec_overview_order empty_state
          = Ok [Wrote (EClass "LChild;") set_is_serde;
                Traced 3 (native_method "LNat;");
                Wrote (EClass "LNat;") ref_by_string;
                Wrote (EMethod 41) ref_by_string]) as Hspec
      by (vm_compute; reflexivity).
  split; [exact Hsource|]. split; [exact Hspec|].
  intros Heq. rewrite Heq, Hspec in Hsource. clear Heq. discriminate Hsource.
Qed.

(** ** What each seeder writes

    A property of states that the writes a seeder performs carry over is
    carried over by the seeder.  [allowed e op] says which writes carry
    the property over. *)

Section Footprint.

Variable env : Env.
Variable P : State → Prop.
Variable allowed : Elem → Op → Prop.

Hypothesis P_rstate : ∀ e op s, allowed e op → P s → P (rstate e op s).
Hypothesis P_TRACE : ∀ level msg s, P s → P (TRACE level msg s).
Hypothesis P_stderr : ∀ msg s, P s → P (fprintf_stderr msg s).

Ltac footprint :=
  repeat match goal with
  | H : P ?s |- P ?s => exact H
  | |- P (rstate _ _ _) => apply P_rstate; [solve [auto]|]
  | |- P (TRACE _ _ _) => apply P_TRACE
  | |- P (fprintf_stderr _ _) => apply P_stderr
  | |- P (for_each _ _ _) => apply for_each_invariant; [intros ? ? ? ?|]
  | |- P (if ?b then _ else _) => destruct b
  | |- P (match ?o with Some _ => _ | None => _ end) => destruct o
  | |- P (mark_only_reachable_directly _ _) => unfold mark_only_reachable_directly
  | |- P (keep_annotated _ _ _ _) => unfold keep_annotated
  end.

Lemma keep_annotation_types_footprint annotations types st :
  P st → P (keep_annotation_types env annotations types st).2.
Proof.
  revert types st. induction annotations as [|a l IH]; intros types st Hst; [done|].
  simpl. destruct (get_type env (c_str a)); apply IH; footprint.
Qed.

Lemma keep_annotated_classes_footprint scope keep_annotations st :
  (∀ e, allowed e ref_by_type) →
  P st → P (keep_annotated_classes scope keep_annotations st).
Proof. intros Hop Hst. unfold keep_annotated_classes. footprint. Qed.

Lemma keep_class_members_of_footprint cls keep_class_mems st :
  (∀ e, allowed e ref_by_type) →
  P st → P (keep_class_members_of cls keep_class_mems st).
Proof.
  intros Hop Hst. induction keep_class_mems as [|x l IH]; [done|].
  simpl. destruct (find (c_str x) (c_type cls)); [|done]. footprint.
Qed.

Lemma keep_class_members_footprint scope keep_class_mems st :
  (∀ e, allowed e ref_by_type) →
  P st → P (keep_class_members scope keep_class_mems st).
Proof.
  intros Hop Hst. unfold keep_class_members. footprint.
  by apply keep_class_members_of_footprint.
Qed.

Lemma keep_methods_footprint scope ms st :
  (∀ m, allowed (of_method m) ref_by_string) →
  P st → P (keep_methods scope ms st).
Proof. intros Hop Hst. unfold keep_methods. footprint. Qed.

Lemma mark_manifest_root_footprint classname st :
  (∀ e, allowed e (set_root MANIFEST None)) →
  (∀ e, allowed e increment_keep_count) →
  P st → P (mark_manifest_root env classname st).
Proof. intros Hroot Hcount Hst. unfold mark_manifest_root. footprint. Qed.

Lemma analyze_reachable_from_manifest_footprint apk_dir prune st st' :
  (∀ e, allowed e (set_root MANIFEST None)) →
  (∀ e, allowed e increment_keep_count) →
  (∀ e, allowed e unset_allowobfuscation) →
  P st → analyze_reachable_from_manifest env apk_dir prune st = Ok st' → P st'.
Proof.
  intros Hroot Hcount Hobf Hst. unfold analyze_reachable_from_manifest.
  destruct (prune_unexported_components_of (elements prune)) as [tags| |];
    simpl; [|done..].
  intros [= <-]. footprint; try by apply mark_manifest_root_footprint.
  unfold analyze_component_tag. destruct (tag _); footprint;
    by apply mark_manifest_root_footprint.
Qed.

Lemma mark_reachable_by_xml_footprint classname st :
  (∀ e, allowed e set_referenced_by_resource_xml) →
  P st → P (mark_reachable_by_xml env classname st).
Proof. intros Hop Hst. unfold mark_reachable_by_xml. footprint. Qed.

Lemma mark_onclick_attributes_reachable_footprint scope names st st' :
  (∀ e, allowed e set_referenced_by_resource_xml) →
  P st → mark_onclick_attributes_reachable env scope names st = Ok st' → P st'.
Proof.
  intros Hop Hst. unfold mark_onclick_attributes_reachable.
  case_bool_decide; [by intros [= <-]|].
  destruct (get_type env "Landroid/content/Context;") as [type_context|]; [|done].
  apply for_eachM_invariant; [|done].
  intros t sa sb _ Hsa. destruct (type_class env (Some t)) as [d|]; [|done].
  destruct (c_external d); intros [= <-]; footprint.
Qed.

Lemma analyze_reachable_from_xml_layouts_footprint scope apk_dir st st' :
  (∀ e, allowed e set_referenced_by_resource_xml) →
  P st → analyze_reachable_from_xml_layouts env scope apk_dir st = Ok st' → P st'.
Proof.
  intros Hop Hst. unfold analyze_reachable_from_xml_layouts.
  destruct (collect_layout_classes_and_attributes env apk_dir {[ONCLICK_ATTRIBUTE env]})
    as [layout_classes attribute_values].
  apply mark_onclick_attributes_reachable_footprint; [done|].
  footprint. apply mark_reachable_by_xml_footprint; [done|]. footprint.
Qed.

Lemma unset_referenced_by_resource_xml_pass_footprint scope st :
  (∀ e, allowed e unset_referenced_by_resource_xml) →
  P st → P (unset_referenced_by_resource_xml_pass scope st).
Proof. intros Hop Hst. unfold unset_referenced_by_resource_xml_pass. footprint. Qed.

Lemma blacklist_field_footprint fuel :
  (∀ e o, allowed e (set_root REFLECTION o)) →
  ∀ origin t name declared st st',
    P st → blacklist_field env fuel origin t name declared st = Ok st' → P st'.
Proof.
  intros Hop. induction fuel as [|fuel IH]; intros origin t name declared st st' Hst;
    [done|].
  cbn [blacklist_field]. destruct (type_class env t) as [cls|]; [|by intros [= <-]].
  assert (P (iterate_fields cls (blacklist_field_yield origin name declared) st)) as Hit.
  { unfold iterate_fields, blacklist_field_yield. footprint. }
  destruct (negb declared); [|by intros [= <-]].
  destruct (c_super cls); [|by intros [= <-]]. by apply IH.
Qed.

Lemma blacklist_method_footprint fuel :
  (∀ e o, allowed e (set_root REFLECTION o)) →
  ∀ origin t name params declared st st',
    P st → blacklist_method env fuel origin t name params declared st = Ok st' → P st'.
Proof.
  intros Hop. induction fuel as [|fuel IH];
    intros origin t name params declared st st' Hst; [done|].
  cbn [blacklist_method]. destruct (type_class env t) as [cls|]; [|by intros [= <-]].
  assert (P (iterate_methods cls (blacklist_method_yield origin name params declared) st))
    as Hit.
  { unfold iterate_methods, blacklist_method_yield. footprint. }
  destruct (negb declared); [|by intros [= <-]].
  destruct (c_super cls); [|by intros [= <-]]. by apply IH.
Qed.

Lemma analyze_reflection_footprint fuel scope st st' :
  (∀ e o, allowed e (set_root REFLECTION o)) →
  P st → analyze_reflection env fuel scope st = Ok st' → P st'.
Proof.
  intros Hop Hst. unfold analyze_reflection, walk_code.
  apply for_eachM_invariant; [|done]. intros cls sa sb _ Hsa.
  apply for_eachM_invariant; [|done]. intros m sc sd _ Hsc.
  destruct (m_code m) as [code|]; [|by intros [= <-]].
  apply for_eachM_invariant; [|done]. intros insn se sf _ Hse.
  unfold analyze_reflection_insn.
  destruct (negb (insn_is_invoke insn)); [by intros [= <-]|].
  destruct (refls !! insn_callee_class insn) as [method_map|]; [|by intros [= <-]].
  destruct (method_map !! insn_callee_name insn) as [refl_type|]; [|by intros [= <-]].
  destruct (get_abstract_object env m (src insn 0) insn) as [arg_cls|];
    [|by intros [= <-]].
  destruct (negb (bool_decide (obj_kind arg_cls = CLASS))); [by intros [= <-]|].
  destruct (dex_string_lookup env m refl_type insn) as [name|]; [|by intros [= <-]].
  cbn zeta. unfold dispatch_reflection.
  destruct refl_type;
    first [ apply blacklist_field_footprint | apply blacklist_method_footprint ];
    try done; by apply P_TRACE.
Qed.

Lemma analyze_serializable_footprint scope st st' :
  (∀ e, allowed e (set_root SERIALIZABLE None)) →
  P st → analyze_serializable env scope st = Ok st' → P st'.
Proof.
  intros Hop Hst. unfold analyze_serializable.
  destruct (get_type env "Ljava/io/Serializable;") as [serializable|];
    [|by intros [= <-]].
  apply for_eachM_invariant; [|done]. intros child sa sb _ Hsa.
  destruct (type_class env (Some child)) as [child_cls|]; [|done].
  destruct (type_class env (c_super child_cls)) as [child_supercls|];
    [|by intros [= <-]].
  destruct (c_external child_supercls); [by intros [= <-]|].
  destruct (type_set_count _ _); intros [= <-]; footprint.
Qed.

Lemma initialize_reachable_for_json_serde_footprint scope supercls_names st st' :
  (∀ e, allowed e set_is_serde) →
  P st → initialize_reachable_for_json_serde env scope supercls_names st = Ok st' → P st'.
Proof.
  intros Hop Hst. unfold initialize_reachable_for_json_serde.
  case_bool_decide; [by intros [= <-]|].
  generalize (∅ : gset string) as children.
  generalize (elements (list_to_set (omap (get_type env) supercls_names) : gset string))
    as supers.
  intros supers. revert st Hst.
  induction supers as [|sup supers IH]; intros st Hst children; [by intros [= <-]|].
  cbn [serde_superclses_loop].
  destruct (for_eachM _ _ st) as [s1| |] eqn:Hloop; simpl; [|done..].
  apply IH. revert Hloop. apply for_eachM_invariant; [|done].
  intros child sa sb _ Hsa. destruct (type_class env (Some child)); [|done].
  intros [= <-]. footprint.
Qed.

(** The seeders that mark by class name carry over what
    [mark_reachable_by_classname] carries over for the classes they meet. *)
Lemma mark_reachable_by_classname_footprint dclass st :
  (∀ e, e ∈ of_class dclass :: declared_members dclass → allowed e ref_by_string) →
  P st → P (mark_reachable_by_classname (Some dclass) st).
Proof.
  intros Hop Hst. unfold mark_reachable_by_classname.
  assert (∀ e, e ∈ declared_members dclass → allowed e ref_by_string) as Hmem
      by (intros; apply Hop; by right).
  unfold declared_members in Hmem. setoid_rewrite elem_of_app in Hmem.
  setoid_rewrite elem_of_app in Hmem. setoid_rewrite elem_of_app in Hmem.
  apply for_each_invariant.
  { intros f s Hf Hs. apply P_rstate; [|done]. apply Hmem. do 3 right.
    by apply list_elem_of_fmap_2. }
  apply for_each_invariant.
  { intros f s Hf Hs. apply P_rstate; [|done]. apply Hmem. right. right. left.
    by apply list_elem_of_fmap_2. }
  apply for_each_invariant.
  { intros m s Hm Hs. apply P_rstate; [|done]. apply Hmem. right. left.
    by apply list_elem_of_fmap_2. }
  apply for_each_invariant.
  { intros m s Hm Hs. apply P_rstate; [|done]. apply Hmem. left.
    by apply list_elem_of_fmap_2. }
  apply P_rstate; [|done]. apply Hop. by left.
Qed.

Lemma mark_native_classes_footprint apk_dir st :
  (∀ t dclass s, classes env !! t = Some dclass → P s →
                 P (mark_reachable_by_classname (Some dclass) s)) →
  P st → P (mark_native_classes env apk_dir st).
Proof.
  intros Hcn Hst. unfold mark_native_classes. apply for_each_invariant; [|done].
  intros classname s _ Hs. unfold get_type. case_decide; [|done].
  unfold mark_reachable_by_classname_type, type_class_internal. simpl.
  destruct (classes env !! c_str classname) as [d|] eqn:Hd; [|by apply P_TRACE].
  destruct (c_external d); [by apply P_TRACE|].
  eapply Hcn; [done|]. by apply P_TRACE.
Qed.

Lemma reflected_package_loop_footprint fuel scope :
  (∀ dclass s, dclass ∈ scope → P s → P (mark_reachable_by_classname (Some dclass) s)) →
  ∀ reflected st st',
    P st → reflected_package_loop env fuel scope reflected st = Ok st' → P st'.
Proof.
  induction scope as [|clazz scope IH]; intros Hcn reflected st st' Hst;
    [by intros [= <-]|].
  cbn [reflected_package_loop].
  destruct (in_reflected_pkg env fuel (Some clazz) reflected) as [[|]| |]; simpl;
    [| |done..].
  - apply IH; [intros; apply Hcn; [by right|done]|].
    apply Hcn; [by left|]. by apply P_TRACE.
  - apply IH; [intros; apply Hcn; [by right|done]|done].
Qed.

Lemma recompute_classes_reachable_from_code_footprint scope st :
  (∀ cls m s, cls ∈ scope → m ∈ c_dmethods cls ++ c_vmethods cls → m_native m = true →
              P s → P (mark_reachable_by_string env m s)) →
  P st → P (recompute_classes_reachable_from_code env scope st).
Proof.
  intros Hnative Hst. unfold recompute_classes_reachable_from_code, walk_methods.
  apply for_each_invariant; [|done]. intros cls s Hcls Hs.
  apply for_each_invariant; [|done]. intros m s1 Hm Hs1.
  destruct (m_native m) eqn:Hnat; [|done].
  eapply Hnative; [done..|]. by apply P_TRACE.
Qed.

(** The whole run carries over what its writes carry over. *)
Lemma init_permanently_reachable_classes_footprint fuel scope config annos st st' :
  (∀ e op, op ≠ ref_by_string → op ≠ unset_referenced_by_resource_xml → allowed e op) →
  (∀ m, allowed (of_method m) ref_by_string) →
  (∀ t dclass s, classes env !! t = Some dclass → P s →
                 P (mark_reachable_by_classname (Some dclass) s)) →
  (∀ dclass s, dclass ∈ scope → P s → P (mark_reachable_by_classname (Some dclass) s)) →
  P st → init_permanently_reachable_classes env fuel scope config annos st = Ok st' →
  P st'.
Proof.
  intros Hquiet Hmeth Hreg Hscope Hst. unfold init_permanently_reachable_classes.
  pose proof (keep_annotation_types_footprint
                (config_get (cfg_keep_annotations config) []) annos st Hst) as Hanno.
  destruct (keep_annotation_types env (config_get (cfg_keep_annotations config) [])
              annos st) as [annotation_types st1].
  simpl in Hanno.
  assert (P (keep_methods scope (config_get (cfg_keep_methods config) [])
               (keep_class_members scope (config_get (cfg_keep_class_members config) [])
                  (keep_annotated_classes scope annotation_types st1)))) as Hkeeps.
  { apply keep_methods_footprint; [done|].
    apply keep_class_members_footprint; [by intros; apply Hquiet|].
    apply keep_annotated_classes_footprint; [by intros; apply Hquiet|done]. }
  revert Hkeeps. generalize (keep_methods scope (config_get (cfg_keep_methods config) [])
               (keep_class_members scope (config_get (cfg_keep_class_members config) [])
                  (keep_annotated_classes scope annotation_types st1))).
  intros st2 Hst2.
  match goal with
  | |- ?apk ≫= _ = _ → _ => assert (∀ s, apk = Ok s → P s) as Hapk
  end.
  { destruct (negb (Nat.eqb (String.length (config_get (cfg_apk_dir config) "")) 0));
      [|by intros s [= <-]].
    assert (∀ s, (if config_get (cfg_compute_xml_reachability config) true
                  then analyze_reachable_from_manifest env
                         (config_get (cfg_apk_dir config) "")
                         (config_get (cfg_prune_unexported_components config) ∅) st2
                       ≫= analyze_reachable_from_xml_layouts env scope
                            (config_get (cfg_apk_dir config) "")
                  else Ok st2) = Ok s → P s) as Hxml.
    { destruct (config_get (cfg_compute_xml_reachability config) true);
        [|by intros s [= <-]].
      intros s. destruct (analyze_reachable_from_manifest _ _ _ _) as [sm| |] eqn:Hm;
        simpl; [|done..].
      apply analyze_reachable_from_xml_layouts_footprint; [by intros; apply Hquiet|].
      revert Hm. apply analyze_reachable_from_manifest_footprint;
        try done; by intros; apply Hquiet. }
    intros s.
    match goal with
    | |- ?xml ≫= _ = _ → _ => destruct xml as [sx| |]; simpl; [|done..]
    end.
    specialize (Hxml sx eq_refl).
    destruct (config_get (cfg_analyze_native_lib_reachability config) true);
      intros [= <-]; [|done].
    by apply mark_native_classes_footprint. }
  match goal with
  | |- ?apk ≫= _ = _ → _ => destruct apk as [sa| |]; simpl; [|done..]
  end.
  specialize (Hapk sa eq_refl).
  destruct (analyze_reflection env fuel scope sa) as [sr| |] eqn:Hr; simpl; [|done..].
  destruct (reflected_package_loop _ _ _ _ sr) as [sp| |] eqn:Hp; simpl; [|done..].
  apply analyze_serializable_footprint; [by intros; apply Hquiet|].
  revert Hp. apply reflected_package_loop_footprint; [done|].
  revert Hr. apply analyze_reflection_footprint; [by intros; apply Hquiet|done].
Qed.

Lemma init_reachable_classes_footprint fuel scope config annos st st' :
  (∀ e op, op ≠ ref_by_string → op ≠ unset_referenced_by_resource_xml → allowed e op) →
  (∀ m, allowed (of_method m) ref_by_string) →
  (∀ t dclass s, classes env !! t = Some dclass → P s →
                 P (mark_reachable_by_classname (Some dclass) s)) →
  (∀ dclass s, dclass ∈ scope → P s → P (mark_reachable_by_classname (Some dclass) s)) →
  (∀ cls m s, cls ∈ scope → m ∈ c_dmethods cls ++ c_vmethods cls → m_native m = true →
              P s → P (mark_reachable_by_string env m s)) →
  P st → init_reachable_classes env fuel scope config annos st = Ok st' → P st'.
Proof.
  intros Hquiet Hmeth Hreg Hscope Hnative Hst. unfold init_reachable_classes.
  destruct (init_permanently_reachable_classes env fuel scope config annos st)
    as [sp| |] eqn:Hperm; simpl; [|done..].
  apply initialize_reachable_for_json_serde_footprint; [by intros; apply Hquiet|].
  apply recompute_classes_reachable_from_code_footprint; [done|].
  revert Hperm. by apply init_permanently_reachable_classes_footprint.
Qed.

End Footprint.

(** ** String marks of a class and of its members *)











(** ** Names that do not resolve *)

Lemma for_each_skip {A} (l1 l2 : list A) x body (st : State) :
  for_each (l1 ++ x :: l2) body st = for_each l2 body (body x (for_each l1 body st)).
Proof. by rewrite for_each_app, for_each_cons. Qed.

Section Unresolved.

Variable env : Env.

Lemma keep_annotation_types_result annotations :
  ∀ types st,
    (keep_annotation_types env annotations types st).1 =
      list_to_set (omap (λ a, get_type env (c_str a)) annotations) ∪ types ∧
    rstates (keep_annotation_types env annotations types st).2 = rstates st ∧
    events (keep_annotation_types env annotations types st).2 =
      events st ++
      (keep_annotation_warning <$>
         filter (λ a, get_type env (c_str a) = None) annotations).
Proof.
  induction annotations as [|a l IH]; intros types st.
  - simpl. split; [by rewrite (left_id_L ∅ (∪))|]. split; [done|]. by rewrite app_nil_r.
  - cbn [keep_annotation_types omap list_omap].
    destruct (get_type env (c_str a)) as [anno|] eqn:Ha.
    + destruct (IH ({[anno]} ∪ types) st) as (Hset & Hrs & Hev).
      rewrite Hset, Hrs, Hev.
      split; [by rewrite list_to_set_cons, (assoc_L (∪)), (comm_L (∪) _ {[anno]})|].
      split; [done|].
      by rewrite filter_cons_False by (rewrite Ha; congruence).
    + destruct (IH types
                  (fprintf_stderr
                     ("WARNING: keep annotation " +:+ c_str a +:+ " not found" +:+ LF)
                     st)) as (Hset & Hrs & Hev).
      rewrite Hset, Hrs, Hev. split; [done|]. split; [done|].
      rewrite filter_cons_True by done. simpl. by rewrite <- app_assoc.
Qed.

Lemma mark_manifest_root_dangling classname st :
  maybe_class_from_string env classname = None →
  mark_manifest_root env classname st =
  TRACE 3 (Dangling_reference_from_manifest (c_str classname)) st.
Proof. intros Hnone. unfold mark_manifest_root. by rewrite Hnone. Qed.

Lemma analyze_component_tag_dangling prune tag_info s :
  maybe_class_from_string env (classname tag_info) = None →
  analyze_component_tag env prune tag_info s =
  (if bool_decide (tag tag_info = Provider)
   then for_each (authority_classes tag_info) (mark_manifest_root env)
   else id)
    (TRACE 3
       (if bool_decide (tag tag_info = Activity ∨ tag tag_info = ActivityAlias) &&
           negb (is_exported tag_info) && negb (has_intent_filters tag_info) &&
           bool_decide (tag tag_info ∈ prune)
        then not_exported (c_str (classname tag_info))
        else Dangling_reference_from_manifest (c_str (classname tag_info))) s).
Proof.
  intros Hnone. unfold analyze_component_tag. rewrite Hnone.
  rewrite !mark_manifest_root_dangling by done.
  destruct (tag tag_info); simpl; try done;
    destruct (is_exported tag_info), (has_intent_filters tag_info); simpl; try done;
    by case_bool_decide.
Qed.

Lemma mark_native_classes_known_only (l : list string) :
  ∀ st,
    for_each l
      (λ classname st,
         match get_type env (c_str classname) with
         | None => st
         | Some type =>
           mark_reachable_by_classname_type env (Some type)
             (TRACE 3 (native_lib (c_str classname)) st)
         end) st =
    for_each (filter (λ classname, is_Some (get_type env (c_str classname))) l)
      (λ classname st,
         match get_type env (c_str classname) with
         | None => st
         | Some type =>
           mark_reachable_by_classname_type env (Some type)
             (TRACE 3 (native_lib (c_str classname)) st)
         end) st.
Proof.
  induction l as [|x l IH]; intros st; [done|].
  rewrite for_each_cons. destruct (get_type env (c_str x)) as [type|] eqn:Hx.
  - rewrite filter_cons_True by (by rewrite Hx). rewrite for_each_cons, Hx. apply IH.
  - rewrite filter_cons_False by (rewrite Hx; by intros [? ?]). apply IH.
Qed.

Lemma omap_get_type_known_only (names : list string) :
  omap (get_type env) (filter (λ cls_name, is_Some (get_type env cls_name)) names) =
  omap (get_type env) names.
Proof.
  induction names as [|x l IH]; [done|].
  destruct (get_type env x) as [t|] eqn:Hx.
  - rewrite filter_cons_True by (by rewrite Hx). cbn [omap list_omap].
    by rewrite Hx, IH.
  - rewrite filter_cons_False by (rewrite Hx; by intros [? ?]). cbn [omap list_omap].
    by rewrite Hx.
Qed.

(** C6 (as amended).  A name that does not resolve is skipped: nothing is
    written to any [rstate] for it, and the loop it is in goes on with the
    names that follow.  What is logged depends on the name.  A keep
    annotation is reported on the standard error stream as a warning.  A
    manifest class name is traced as dangling, or as not exported when it
    is the name of a pruned activity.  A layout class name is traced as
    every layout class name is.  A native-library class name and a serde
    superclass name whose type is unknown leave no record at all: the
    loops behave as if the name were not in the list; a native-library
    name whose type is known but has no class of the program is traced and
    nothing more.  The context type of the click-handler pass is asserted:
    when a handler name is bound and the type does not resolve, the pass
    aborts. *)
Theorem unresolved_names_skipped_or_asserted (scope : Scope) (st : State) :
  (∀ annotations types,
     (keep_annotation_types env annotations types st).1 =
       list_to_set (omap (λ a, get_type env (c_str a)) annotations) ∪ types ∧
     rstates (keep_annotation_types env annotations types st).2 = rstates st ∧
     events (keep_annotation_types env annotations types st).2 =
       events st ++
       (keep_annotation_warning <$>
          filter (λ a, get_type env (c_str a) = None) annotations)) ∧
  (∀ name, maybe_class_from_string env name = None →
     (∀ before after,
        for_each (before ++ name :: after) (mark_manifest_root env) st =
        for_each after (mark_manifest_root env)
          (TRACE 3 (Dangling_reference_from_manifest (c_str name))
             (for_each before (mark_manifest_root env) st))) ∧
     (∀ prune tag_info before after, classname tag_info = name →
        for_each (before ++ tag_info :: after) (analyze_component_tag env prune) st =
        for_each after (analyze_component_tag env prune)
          ((if bool_decide (tag tag_info = Provider)
            then for_each (authority_classes tag_info) (mark_manifest_root env)
            else id)
             (TRACE 3
                (if bool_decide (tag tag_info = Activity ∨ tag tag_info = ActivityAlias) &&
                    negb (is_exported tag_info) && negb (has_intent_filters tag_info) &&
                    bool_decide (tag tag_info ∈ prune)
                 then not_exported (c_str name)
                 else Dangling_reference_from_manifest (c_str name))
                (for_each before (analyze_component_tag env prune) st)))) ∧
     (∀ before after,
        for_each (before ++ name :: after)
          (λ classname st,
             mark_reachable_by_xml env classname (TRACE 3 (xml_layout (c_str classname)) st))
          st =
        for_each after
          (λ classname st,
             mark_reachable_by_xml env classname (TRACE 3 (xml_layout (c_str classname)) st))
          (TRACE 3 (xml_layout (c_str name))
             (for_each before
                (λ classname st,
                   mark_reachable_by_xml env classname
                     (TRACE 3 (xml_layout (c_str classname)) st)) st)))) ∧
  (∀ apk_dir,
     mark_native_classes env apk_dir st =
     for_each (filter (λ classname, is_Some (get_type env (c_str classname)))
                 (get_native_classes env apk_dir))
       (λ classname st,
          match get_type env (c_str classname) with
          | None => st
          | Some type =>
            mark_reachable_by_classname_type env (Some type)
              (TRACE 3 (native_lib (c_str classname)) st)
          end) st) ∧
  (∀ classname type,
     get_type env (c_str classname) = Some type →
     type_class_internal env (Some type) = None →
     mark_reachable_by_classname_type env (Some type)
       (TRACE 3 (native_lib (c_str classname)) st) =
     TRACE 3 (native_lib (c_str classname)) st) ∧
  (∀ supercls_names,
     initialize_reachable_for_json_serde env scope supercls_names st =
     initialize_reachable_for_json_serde env scope
       (filter (λ cls_name, is_Some (get_type env cls_name)) supercls_names) st) ∧
  (∀ names, names ≠ ∅ → get_type env "Landroid/content/Context;" = None →
     mark_onclick_attributes_reachable env scope names st =
       Abort (assertion_failed "type_context != nullptr") ∧
     ∀ apk_dir layout_classes attribute_values,
       collect_layout_classes_and_attributes env apk_dir {[ ONCLICK_ATTRIBUTE env ]}
       = (layout_classes, attribute_values) →
       multimap_values_to_set attribute_values (ONCLICK_ATTRIBUTE env) = names →
       analyze_reachable_from_xml_layouts env scope apk_dir st =
         Abort (assertion_failed "type_context != nullptr")).
Proof.
  split; [|split; [|split; [|split; [|split]]]].
  - intros. apply keep_annotation_types_result.
  - intros name Hnone. split; [|split].
    + intros before after. by rewrite for_each_skip, mark_manifest_root_dangling.
    + intros prune tag_info before after Hname. rewrite for_each_skip. f_equal.
      rewrite <- Hname in Hnone |- *. by apply analyze_component_tag_dangling.
    + intros before after. rewrite for_each_skip. f_equal.
      unfold mark_reachable_by_xml. by rewrite Hnone.
  - intros apk_dir. unfold mark_native_classes. apply mark_native_classes_known_only.
  - intros classname type _ Hnone. unfold mark_reachable_by_classname_type.
    by rewrite Hnone.
  - intros names. unfold initialize_reachable_for_json_serde.
    by rewrite omap_get_type_known_only.
  - intros names Hnames Hctx.
    assert (∀ s, mark_onclick_attributes_reachable env scope names s =
                 Abort (assertion_failed "type_context != nullptr")) as Habort.
    { intros s. unfold mark_onclick_attributes_reachable.
      rewrite bool_decide_eq_false_2.
      - by rewrite Hctx.
      - intros Hsize. apply Hnames. by apply leibniz_equiv, size_empty_inv. }
    split; [apply Habort|].
    intros apk_dir layout_classes attribute_values Hcollect Hvalues.
    unfold analyze_reachable_from_xml_layouts. rewrite Hcollect, Hvalues. apply Habort.
Qed.

End Unresolved.

(** C6, counterexample.  The program does not know the context type and a
    layout binds a click handler: the run aborts on the assertion.  And a
    serde superclass name that does not resolve is dropped without any
    record, warning or other. *)
Lemma unresolved_context_type_aborts_the_run :
  get_type missing_context_world "Landroid/content/Context;" = None ∧
  init_reachable_classes missing_context_world 5 [class_Foo] apk_config ∅ empty_state
  = Abort (assertion_failed "type_context != nullptr") ∧
  get_type missing_context_world "LMissing;" = None ∧
  events <$> initialize_reachable_for_json_serde missing_context_world [class_Foo]
               ["LMissing;"] empty_state
  = Ok [].
Proof.
  split; [vm_compute; reflexivity|]. split; [vm_compute; reflexivity|].
  split; vm_compute; reflexivity.
Qed.

Lemma unresolved_names_skipped_or_asserted_witness :
  events (keep_annotation_types native_names_world ["Lcom/example/Missing;"; "LFoo;"] ∅
            empty_state).2
  = [keep_annotation_warning "Lcom/example/Missing;"] ∧
  for_each (["LFoo;"] ++ "LMissing;" :: ["LFoo;"]) (mark_manifest_root native_names_world)
    empty_state
  = for_each ["LFoo;"] (mark_manifest_root native_names_world)
      (TRACE 3 (Dangling_reference_from_manifest (c_str "LMissing;"))
         (for_each ["LFoo;"] (mark_manifest_root native_names_world) empty_state)) ∧
  events (for_each ([] ++ unexported_activity :: [])
            (analyze_component_tag native_names_world [Activity]) empty_state)
  = [Traced 3 (not_exported "Ltest3;")] ∧
  events (for_each (["LFoo;"] ++ "LMissing;" :: [])
            (λ classname st,
               mark_reachable_by_xml native_names_world classname
                 (TRACE 3 (xml_layout (c_str classname)) st)) empty_state)
  = [Traced 3 (xml_layout "LFoo;");
     Wrote (EClass "LFoo;") set_referenced_by_resource_xml;
     Traced 3 (xml_layout "LMissing;")] ∧
  events (mark_native_classes native_names_world "apk" empty_state)
  = [Traced 3 (native_lib "LFoo;");
     Wrote (EClass "LFoo;") ref_by_string;
     Wrote (EField 91) ref_by_string;
     Wrote (EField 92) ref_by_string;
     Traced 3 (native_lib "LKnown;")] ∧
  mark_reachable_by_classname_type native_names_world (Some "LKnown;")
    (TRACE 3 (native_lib (c_str "LKnown;")) empty_state)
  = TRACE 3 (native_lib (c_str "LKnown;")) empty_state ∧
  initialize_reachable_for_json_serde native_and_serde_world [native_N; serde_child]
    ["LMissing;"; "LBase;"] empty_state
  = initialize_reachable_for_json_serde native_and_serde_world [native_N; serde_child]
      ["LBase;"] empty_state ∧
  analyze_reachable_from_xml_layouts missing_context_world [class_Foo] "apk" empty_state
  = Abort (assertion_failed "type_context != nullptr").
Proof.
  destruct (unresolved_names_skipped_or_asserted native_names_world [class_Foo] empty_state)
    as (Hanno & Hname & Hnative & Hknown & _).
  destruct (unresolved_names_skipped_or_asserted native_and_serde_world
              [native_N; serde_child] empty_state) as (_ & _ & _ & _ & Hserde & _).
  destruct (unresolved_names_skipped_or_asserted missing_context_world [class_Foo]
              empty_state) as (_ & _ & _ & _ & _ & Hclick).
  destruct (Hname "LMissing;") as (Hroot & _ & Hlayout); [vm_compute; reflexivity|].
  destruct (Hname "Ltest3;") as (_ & Htag & _); [vm_compute; reflexivity|].
  split; [|split; [|split; [|split; [|split; [|split; [|split]]]]]].
  - destruct (Hanno ["Lcom/example/Missing;"; "LFoo;"] ∅) as (_ & _ & ->).
    vm_compute. reflexivity.
  - apply (Hroot ["LFoo;"] ["LFoo;"]).
  - rewrite (Htag [Activity] unexported_activity [] [] eq_refl). vm_compute. reflexivity.
  - rewrite (Hlayout ["LFoo;"] []). vm_compute. reflexivity.
  - rewrite (Hnative "apk"). vm_compute. reflexivity.
  - apply (Hknown "LKnown;" "LKnown;"); vm_compute; reflexivity.
  - rewrite (Hserde ["LMissing;"; "LBase;"]). f_equal.
  - destruct (Hclick {[ "doThing" ]}) as [_ Hrun].
    + intros Hempty. assert ("doThing" ∈ (∅ : gset string)) as Hin
          by (rewrite <- Hempty; by apply elem_of_singleton).
      by apply not_elem_of_empty in Hin.
    + vm_compute. reflexivity.
    + apply (Hrun "apk" ∅ [("onClick", "doThing")]); [reflexivity|].
      apply (bool_decide_unpack _). vm_compute. reflexivity.
Defined.

(** * Further properties of the seeders *)

(** ** Flags set by loops *)

Lemma for_each_marks {A} (φ : State → Elem → bool) (T : A → Elem → Prop) (l : list A)
    body st :
  (∀ x s e, x ∈ l → φ (body x s) e = true ↔ φ s e = true ∨ T x e) →
  ∀ e, φ (for_each l body st) e = true ↔ φ st e = true ∨ ∃ x, x ∈ l ∧ T x e.
Proof.
  revert st. induction l as [|x l IH]; intros st Hb e.
  - simpl. split; [by left|]. intros [|(x & Hx & _)]; [done|]. by apply elem_of_nil in Hx.
  - rewrite for_each_cons, IH by (intros; apply Hb; by right).
    rewrite Hb by left. split.
    + intros [[|]|(y & Hy & HT)]; [by left|right; exists x; split; [by left|done]|].
      right. exists y. split; [by right|done].
    + intros [|(y & Hy & HT)]; [by left; left|].
      apply elem_of_cons in Hy as [->|Hy]; [by left; right|].
      right. by exists y.
Qed.

Lemma for_eachM_marks {A} (φ : State → Elem → bool) (T : A → Elem → Prop) (l : list A)
    body st st' :
  (∀ x s s' e, x ∈ l → body x s = Ok s' → φ s' e = true ↔ φ s e = true ∨ T x e) →
  for_eachM l body st = Ok st' →
  ∀ e, φ st' e = true ↔ φ st e = true ∨ ∃ x, x ∈ l ∧ T x e.
Proof.
  revert st. induction l as [|x l IH]; intros st Hb Hrun e; simpl in Hrun.
  - simplify_eq. split; [by left|]. intros [|(x & Hx & _)]; [done|].
    by apply elem_of_nil in Hx.
  - destruct (body x st) as [s1| |] eqn:Hx; simpl in Hrun; try discriminate.
    rewrite (IH s1) by first [done | intros; eapply Hb; [by right|done]].
    rewrite (Hb x st s1 e) by (done || by left). split.
    + intros [[|]|(y & Hy & HT)]; [by left|right; exists x; split; [by left|done]|].
      right. exists y. split; [by right|done].
    + intros [|(y & Hy & HT)]; [by left; left|].
      apply elem_of_cons in Hy as [->|Hy]; [by left; right|].
      right. by exists y.
Qed.

Lemma referenced_by_string_rstate_set e st e' :
  referenced_by_string (rstate e ref_by_string st) e' = true ↔
  referenced_by_string st e' = true ∨ e' = e.
Proof.
  unfold referenced_by_string. rewrite rstate_of_rstate. case_decide as He.
  - subst e'. destruct (rstate_of st e). simpl. split; [by right|done].
  - split; [by left|]. by intros [ | -> ].
Qed.

Lemma referenced_by_type_rstate_set e st e' :
  referenced_by_type (rstate e ref_by_type st) e' = true ↔
  referenced_by_type st e' = true ∨ e' = e.
Proof.
  unfold referenced_by_type. rewrite rstate_of_rstate. case_decide as He.
  - subst e'. destruct (rstate_of st e). simpl. split; [by right|done].
  - split; [by left|]. by intros [ | -> ].
Qed.

Lemma is_serde_rstate_set e st e' :
  is_serde (rstate e set_is_serde st) e' = true ↔ is_serde st e' = true ∨ e' = e.
Proof.
  unfold is_serde. rewrite rstate_of_rstate. case_decide as He.
  - subst e'. destruct (rstate_of st e). simpl. split; [by right|done].
  - split; [by left|]. by intros [ | -> ].
Qed.

Lemma same_but_refl op st : same_but op st st.
Proof. by intros e. Qed.

Lemma same_but_rstate op st e s :
  (∀ rs, apply_op op (apply_op op rs) = apply_op op rs) →
  same_but op st s → same_but op st (rstate e op s).
Proof.
  intros Hidem Hs e'. rewrite rstate_of_rstate. case_decide; [|apply Hs].
  subst e'. rewrite Hidem. apply Hs.
Qed.

(** ** Configured method names *)

(** [keep_methods] sets [referenced_by_string] exactly on the direct and
    virtual methods of the scope whose name is in the list, beside the
    elements that had it, and changes nothing else. *)
Theorem keep_methods_marks_exactly (scope : Scope) (ms : list string) (st : State) :
  (∀ e, referenced_by_string (keep_methods scope ms st) e = true ↔
        referenced_by_string st e = true ∨
        ∃ cls m, cls ∈ scope ∧ m ∈ c_dmethods cls ++ c_vmethods cls ∧
                 m_name m ∈ ms ∧ e = of_method m) ∧
  same_but ref_by_string st (keep_methods scope ms st).
Proof.
  split.
  - intros e. unfold keep_methods.
    rewrite (for_each_marks referenced_by_string
               (λ cls e, ∃ m, m ∈ c_dmethods cls ++ c_vmethods cls ∧
                              m_name m ∈ ms ∧ e = of_method m)).
    + split.
      * intros [|(cls & Hcls & m & Hm)]; [by left|right]. by exists cls, m.
      * intros [|(cls & m & Hcls & Hm)]; [by left|right]. exists cls.
        split; [done|]. by exists m.
    + intros cls s e' _. rewrite <- for_each_app.
      rewrite (for_each_marks referenced_by_string
                 (λ m e, m_name m ∈ ms ∧ e = of_method m)).
      * split; (intros [|(m & Hm & Hn & ->)]; [by left|right]); by exists m.
      * intros m s' e'' _. case_bool_decide as Hin.
        -- rewrite referenced_by_string_rstate_set. apply elem_of_list_to_set in Hin.
           split; (intros [|]; [by left|right]); [done|]. by destruct H.
        -- split; [by left|]. intros [|[Hn _]]; [done|]. exfalso. apply Hin.
           by apply elem_of_list_to_set.
  - apply (keep_methods_footprint (same_but ref_by_string st) (λ _ op, op = ref_by_string));
      [|done|apply same_but_refl].
    intros e op s ->. apply same_but_rstate. by intros [].
Qed.

(** ** Annotation propagation *)

Lemma anno_set_contains_spec anno_set keep_annotations :
  anno_set_contains anno_set keep_annotations = true ↔
  ∃ annos t, anno_set = Some annos ∧ t ∈ annos ∧ t ∈ keep_annotations.
Proof.
  unfold anno_set_contains. destruct anno_set as [annos|].
  - rewrite existsb_exists. split.
    + intros (t & Ht & Hk). exists annos, t. apply bool_decide_eq_true in Hk.
      by rewrite list_elem_of_In.
    + intros (annos' & t & [= <-] & Ht & Hk). exists t. rewrite <- list_elem_of_In.
      by rewrite bool_decide_eq_true.
  - split; [done|]. by intros (? & ? & ? & _).
Qed.

(** [keep_annotated_classes] sets [referenced_by_type] exactly on the
    classes of the scope and on their declared members that carry an
    annotation of the configured set, beside the elements that had it, and
    changes nothing else.  An element without annotation set is never
    selected. *)
Theorem keep_annotated_classes_marks_exactly
    (scope : Scope) (keep_annotations : gset string) (st : State) :
  (∀ e, referenced_by_type (keep_annotated_classes scope keep_annotations st) e = true ↔
        referenced_by_type st e = true ∨
        ∃ cls annos t, cls ∈ scope ∧ (e, Some annos) ∈ annotated_elements cls ∧
                       t ∈ annos ∧ t ∈ keep_annotations) ∧
  same_but ref_by_type st (keep_annotated_classes scope keep_annotations st).
Proof.
  split.
  - intros e. unfold keep_annotated_classes.
    assert (∀ m a s e', referenced_by_type (keep_annotated a keep_annotations m s) e' = true ↔
              referenced_by_type s e' = true ∨
              (anno_set_contains a keep_annotations = true ∧ e' = m)) as Hone.
    { intros m a s e'. unfold keep_annotated, mark_only_reachable_directly.
      destruct (anno_set_contains a keep_annotations).
      - rewrite referenced_by_type_rstate_set. split; (intros [|]; [by left|right]);
          [done|]. by destruct H.
      - split; [by left|]. by intros [|[? _]]. }
    rewrite (for_each_marks referenced_by_type
               (λ cls e, ∃ a, (e, a) ∈ annotated_elements cls ∧
                              anno_set_contains a keep_annotations = true)).
    + split.
      * intros [|(cls & Hcls & a & Hin & Hc)]; [by left|right].
        apply anno_set_contains_spec in Hc as (annos & t & -> & Ht & Hk).
        by exists cls, annos, t.
      * intros [|(cls & annos & t & Hscope & Hin & Ht & Hk)]; [by left|right].
        exists cls. split; [done|]. exists (Some annos). split; [done|].
        apply anno_set_contains_spec. by exists annos, t.
    + intros cls s e' _. cbn zeta.
      rewrite !(for_each_marks referenced_by_type
                  (λ x e, anno_set_contains (f_annos x) keep_annotations = true ∧
                          e = of_field x)) by (intros; apply Hone).
      rewrite !(for_each_marks referenced_by_type
                  (λ x e, anno_set_contains (m_annos x) keep_annotations = true ∧
                          e = of_method x)) by (intros; apply Hone).
      rewrite Hone. unfold annotated_elements.
      setoid_rewrite elem_of_cons. setoid_rewrite elem_of_app.
      setoid_rewrite list_elem_of_fmap. setoid_rewrite elem_of_app.
      split.
      * intros [[[[[|[Hc ->]]|(m & Hm & Hc & ->)]|(m & Hm & Hc & ->)]|(f & Hf & Hc & ->)]
                |(f & Hf & Hc & ->)]; [by left|right..].
        -- exists (c_annos cls). split; [by left|done].
        -- exists (m_annos m). split; [|done]. right. left. exists m. split; [done|].
           by left.
        -- exists (m_annos m). split; [|done]. right. left. exists m. split; [done|].
           by right.
        -- exists (f_annos f). split; [|done]. right. right. exists f. split; [done|].
           by left.
        -- exists (f_annos f). split; [|done]. right. right. exists f. split; [done|].
           by right.
      * intros [|(a & [[= -> ->]|[(m & [= -> ->] & [Hm|Hm])|(f & [= -> ->] & [Hf|Hf])]]
                  & Hc)]; [by do 5 left| | | | |].
        -- do 4 left. by right.
        -- do 3 left. right. by exists m.
        -- do 2 left. right. by exists m.
        -- left. right. by exists f.
        -- right. by exists f.
  - apply (keep_annotated_classes_footprint (same_but ref_by_type st)
             (λ _ op, op = ref_by_type)); [|done|apply same_but_refl].
    intros e op s ->. apply same_but_rstate. by intros [].
Qed.

(** ** Nothing is taken back *)

Lemma never_cleared_refl st : never_cleared st st.
Proof.
  intros e. do 6 (split; [done|]). split; [|done].
  intros priority r Hr. by exists r.
Qed.

Lemma never_cleared_rstate st e op s :
  op ≠ unset_referenced_by_resource_xml →
  never_cleared st s → never_cleared st (rstate e op s).
Proof.
  intros Hop Hs e'. rewrite rstate_of_rstate. case_decide as He; [|apply Hs].
  subst e'.
  destruct (Hs e) as (Hty & Hstr & Hxml & Hserde & Hkeep & Hcnt & Hwhy & Hlog).
  assert ((∀ priority, no_weaker priority (keep_reason_of priority (rstate_of st e))
                         (keep_reason_of priority (apply_op op (rstate_of s e)))) ∧
          keep_originators (rstate_of st e) `prefix_of`
            keep_originators (apply_op op (rstate_of s e))) as Hroot.
  { destruct (Op_root_or_not op) as [(reason & originator & ->)|Hno].
    - split.
      + intros priority. rewrite keep_reason_of_set_root.
        eapply no_weaker_trans; [apply Hwhy|apply record_reason_no_weaker].
      + rewrite keep_originators_set_root. by apply prefix_app_r.
    - split.
      + intros priority. by rewrite (proj1 (keep_reason_of_apply_op priority op _ Hno)).
      + by rewrite (proj1 (proj2 (keep_reason_of_apply_op first_reason_kept op _ Hno))). }
  destruct Hroot as [Hwhy' Hlog'].
  do 6 (try split); [..|split; [exact Hwhy'|exact Hlog']];
    destruct (rstate_of s e) as [ty str xml serde keep obf cnt why]; simpl in *;
    destruct op; simpl; auto; try done; lia.
Qed.

(** A run of the seeder takes nothing back: on every element, a flag
    [referenced_by_type], [referenced_by_string],
    [referenced_by_resource_xml], [is_serde] or [keep] that was set is
    still set, the keep count has not decreased, the keep reason it
    carried has not been dropped nor replaced by a weaker one, and the
    originators logged before are still there. *)
Theorem init_reachable_classes_never_clears
    (env : Env) (fuel : nat) (scope : Scope) (config : JsonWrapper)
    (no_optimizations_anno : gset string) (st st' : State) :
  init_reachable_classes env fuel scope config no_optimizations_anno st = Ok st' →
  never_cleared st st'.
Proof.
  apply (init_reachable_classes_footprint env (never_cleared st)
           (λ _ op, op ≠ unset_referenced_by_resource_xml)).
  - intros. by apply never_cleared_rstate.
  - done.
  - done.
  - done.
  - done.
  - intros t d s _.
    apply (mark_reachable_by_classname_footprint (never_cleared st)
             (λ _ op, op ≠ unset_referenced_by_resource_xml)); [|done].
    intros. by apply never_cleared_rstate.
  - intros d s _.
    apply (mark_reachable_by_classname_footprint (never_cleared st)
             (λ _ op, op ≠ unset_referenced_by_resource_xml)); [|done].
    intros. by apply never_cleared_rstate.
  - intros cls m s _ _ _ Hs. unfold mark_reachable_by_string.
    apply never_cleared_rstate; [done|].
    destruct (type_class_internal env (Some (m_class m))); [|done].
    by apply never_cleared_rstate.
  - apply never_cleared_refl.
Qed.

Lemma init_reachable_classes_never_clears_witness :
  referenced_by_type marked_before (EField 91) = true ∧
  referenced_by_type marked_after (EField 91) = true ∧
  referenced_by_resource_xml marked_before (EClass "LFoo;") = true ∧
  referenced_by_resource_xml marked_after (EClass "LFoo;") = true ∧
  keep_flag marked_before (EField 92) = true ∧
  keep_flag marked_after (EField 92) = true ∧
  keep_reason_of first_reason_kept (rstate_of marked_before (EField 92)) = Some REFLECTION ∧
  (∃ reason, keep_reason_of first_reason_kept (rstate_of marked_after (EField 92))
             = Some reason).
Proof.
  assert (never_cleared marked_before marked_after) as Hkept.
  { apply (init_reachable_classes_never_clears package_world 5 [class_Foo] package_config
             ∅).
    vm_compute. reflexivity. }
  assert (referenced_by_type marked_before (EField 91) = true) as Hty
      by (vm_compute; reflexivity).
  assert (referenced_by_resource_xml marked_before (EClass "LFoo;") = true) as Hxml
      by (vm_compute; reflexivity).
  assert (keep_flag marked_before (EField 92) = true) as Hkeep
      by (vm_compute; reflexivity).
  assert (keep_reason_of first_reason_kept (rstate_of marked_before (EField 92))
          = Some REFLECTION) as Hwhy by (vm_compute; reflexivity).
  destruct (Hkept (EField 91)) as (Hty' & _).
  destruct (Hkept (EClass "LFoo;")) as (_ & _ & Hxml' & _).
  destruct (Hkept (EField 92)) as (_ & _ & _ & _ & Hkeep' & _ & Hreason & _).
  destruct (Hreason first_reason_kept REFLECTION Hwhy) as (reason & Hafter & _).
  unfold referenced_by_type, referenced_by_resource_xml, keep_flag in *.
  split; [exact Hty|]. split; [exact (Hty' Hty)|].
  split; [exact Hxml|]. split; [exact (Hxml' Hxml)|].
  split; [exact Hkeep|]. split; [exact (Hkeep' Hkeep)|].
  split; [exact Hwhy|]. exists reason. exact Hafter.
Defined.

(** ** Native methods *)

(** The walk over the methods of the scope sets [referenced_by_string]
    exactly on the native methods and on the class of each native method
    when that class is known and not external, beside the elements that
    had the flag, and changes nothing else. *)
Theorem recompute_classes_reachable_from_code_marks_exactly
    (env : Env) (scope : Scope) (st : State) :
  (∀ e, referenced_by_string (recompute_classes_reachable_from_code env scope st) e = true ↔
        referenced_by_string st e = true ∨
        ∃ cls m, cls ∈ scope ∧ m ∈ c_dmethods cls ++ c_vmethods cls ∧ m_native m = true ∧
                 (e = of_method m ∨
                  ∃ dclass, type_class_internal env (Some (m_class m)) = Some dclass ∧
                            e = of_class dclass)) ∧
  same_but ref_by_string st (recompute_classes_reachable_from_code env scope st).
Proof.
  split.
  - intros e. unfold recompute_classes_reachable_from_code, walk_methods.
    rewrite (for_each_marks referenced_by_string
               (λ cls e, ∃ m, m ∈ c_dmethods cls ++ c_vmethods cls ∧ m_native m = true ∧
                              (e = of_method m ∨
                               ∃ dclass, type_class_internal env (Some (m_class m))
                                         = Some dclass ∧ e = of_class dclass))).
    + split.
      * intros [|(cls & Hcls & m & Hm)]; [by left|right]. by exists cls, m.
      * intros [|(cls & m & Hcls & Hm)]; [by left|right]. exists cls.
        split; [done|]. by exists m.
    + intros cls s e' _.
      rewrite (for_each_marks referenced_by_string
                 (λ m e, m_native m = true ∧
                         (e = of_method m ∨
                          ∃ dclass, type_class_internal env (Some (m_class m))
                                    = Some dclass ∧ e = of_class dclass))).
      * split.
        -- intros [|(m & Hm & Hsel)]; [by left|right]. by exists m.
        -- intros [|(m & Hm & Hsel)]; [by left|right]. by exists m.
      * intros m s' e'' _. destruct (m_native m).
        -- unfold mark_reachable_by_string. rewrite referenced_by_string_rstate_set.
           destruct (type_class_internal env (Some (m_class m))) as [d|].
           ++ rewrite referenced_by_string_rstate_set. split.
              ** intros [[ | -> ] | -> ]; [by left|right..]; (split; [done|]).
                 { right. by exists d. }
                 { by left. }
              ** intros [ | [_ [ -> | (d' & [= <-] & ->)]]]; [by left; left|by right|].
                 left. by right.
           ++ split.
              ** intros [ | -> ]; [by left|right]. split; [done|]. by left.
              ** intros [ | [_ [ -> | (d' & ? & _)]]]; [by left|by right|done].
        -- split; [by left|]. by intros [|[? _]].
  - apply (recompute_classes_reachable_from_code_footprint env
             (same_but ref_by_string st)); [done| |apply same_but_refl].
    intros cls m s _ _ _ Hs. unfold mark_reachable_by_string.
    apply same_but_rstate; [by intros []|].
    destruct (type_class_internal env (Some (m_class m))); [|done].
    apply same_but_rstate; [by intros []|done].
Qed.

(** ** What a reflective lookup roots *)

Lemma for_each_unchanged {A} (g : A → Elem) (l : list A) body s e :
  (∀ x s', x ∈ l → g x ≠ e → rstate_of (body x s') e = rstate_of s' e) →
  e ∉ g <$> l → rstate_of (for_each l body s) e = rstate_of s e.
Proof.
  revert s. induction l as [|x l IH]; intros s Hb Hnot; [done|].
  rewrite for_each_cons, IH.
  - apply Hb; [by left|]. intros Heq. apply Hnot. rewrite <- Heq. simpl. by left.
  - intros. apply Hb; [by right|done].
  - intros Hin. apply Hnot. simpl. by right.
Qed.

(** ** Roots and the reason they carry *)

Lemma rooted_at_least_rstate reason e op s e' :
  rooted_at_least reason s e' → rooted_at_least reason (rstate e op s) e'.
Proof.
  unfold rooted_at_least. rewrite rstate_of_rstate. case_decide as He; [|done].
  subst e'. intros [Hkeep Hwhy].
  destruct (Op_root_or_not op) as [(r & o & ->)|Hno].
  - split; [apply m_keep_set_root|]. intros priority. rewrite keep_reason_of_set_root.
    eapply no_weaker_trans; [apply Hwhy|apply record_reason_no_weaker].
  - destruct (keep_reason_of_apply_op first_reason_kept op (rstate_of s e) Hno)
      as (_ & _ & ->).
    split; [done|]. intros priority.
    by rewrite (proj1 (keep_reason_of_apply_op priority op _ Hno)).
Qed.

Lemma rooted_at_least_set_root reason originator e s :
  rooted_at_least reason (rstate e (set_root reason originator) s) e.
Proof.
  unfold rooted_at_least. rewrite rstate_of_rstate_eq.
  split; [apply m_keep_set_root|]. intros priority. rewrite keep_reason_of_set_root.
  apply record_reason_no_weaker.
Qed.

Lemma rooted_only_with_refl reason st : rooted_only_with reason st st.
Proof. intros e priority. by left. Qed.

Lemma rooted_only_with_rstate reason st e op s :
  (∀ r o, op = set_root r o → r = reason) →
  rooted_only_with reason st s → rooted_only_with reason st (rstate e op s).
Proof.
  intros Hop Hs e' priority. rewrite rstate_of_rstate. case_decide as He; [|apply Hs].
  subst e'. destruct (Op_root_or_not op) as [(r & o & ->)|Hno].
  - rewrite (Hop r o eq_refl), keep_reason_of_set_root. right.
    destruct (Hs e priority) as [-> | ->]; [done|apply record_reason_idem].
  - rewrite (proj1 (keep_reason_of_apply_op priority op _ Hno)). apply Hs.
Qed.

(** An element that is a root with a reason at least as strong as
    [reason], after roots that all gave [reason], carries what
    [set_root(reason)] records over the reason it had. *)
Lemma rooted_with_intro reason st s e :
  rooted_at_least reason s e → rooted_only_with reason st s → rooted_with reason st s e.
Proof.
  intros [Hkeep Hwhy] Honly. split; [done|]. intros priority.
  destruct (Honly e priority) as [Hsame|Hnew]; [|done].
  rewrite Hsame. symmetry. apply record_reason_absorbed. rewrite <- Hsame. apply Hwhy.
Qed.

Lemma rooted_by_reflection_rstate origin e op s e' :
  rooted_by_reflection origin s e' → rooted_by_reflection origin (rstate e op s) e'.
Proof.
  intros [Hroot Hlog]. split; [by apply rooted_at_least_rstate|].
  rewrite rstate_of_rstate. case_decide as He; [|done]. subst e'.
  destruct (Op_root_or_not op) as [(r & o & ->)|Hno].
  - rewrite keep_originators_set_root. apply elem_of_app. by left.
  - by rewrite (proj1 (proj2 (keep_reason_of_apply_op first_reason_kept op _ Hno))).
Qed.

Lemma root_by_reflection_rooted origin e s :
  rooted_by_reflection origin (root_by_reflection origin e s) e.
Proof.
  unfold root_by_reflection. split; [apply rooted_at_least_set_root|].
  rewrite rstate_of_rstate_eq, keep_originators_set_root. apply elem_of_app. right.
  by left.
Qed.

Lemma for_each_root_by_reflection_rooted {A} origin (g : A → Elem) (l : list A) s x :
  x ∈ l →
  rooted_by_reflection origin (for_each l (λ t, root_by_reflection origin (g t)) s) (g x).
Proof.
  induction l as [|y l IH] using rev_ind; intros Hin; [by apply elem_of_nil in Hin|].
  rewrite for_each_snoc. apply elem_of_app in Hin as [Hin|Hin].
  - unfold root_by_reflection. apply rooted_by_reflection_rstate.
    unfold rooted_by_reflection. rewrite rstate_of_TRACE. by apply IH.
  - apply list_elem_of_singleton in Hin as ->. apply root_by_reflection_rooted.
Qed.

Lemma for_each_root_by_reflection_unchanged {A} origin (g : A → Elem) (l : list A) s e :
  e ∉ g <$> l →
  rstate_of (for_each l (λ t, root_by_reflection origin (g t)) s) e = rstate_of s e.
Proof.
  apply for_each_unchanged. intros x s' _ Hne. unfold root_by_reflection.
  by rewrite rstate_of_rstate_ne.
Qed.

Lemma on_super_chain_None env cls : ¬ on_super_chain env None cls.
Proof. intros Hchain. inversion Hchain; simplify_eq; discriminate. Qed.

Section Lookup.

Variable env : Env.

Lemma blacklist_field_changes_only fuel :
  ∀ origin t name declared st st' e,
    blacklist_field env fuel origin t name declared st = Ok st' →
    rstate_of st' e ≠ rstate_of st e →
    ∃ cls f, lookup_visits env declared t cls ∧ c_external cls = false ∧
             f ∈ c_sfields cls ++ c_ifields cls ∧ f_name f = name ∧
             (f_public f = true ∨ declared = true) ∧ e = of_field f.
Proof.
  induction fuel as [|fuel IH]; intros origin t name declared st st' e; [done|].
  cbn [blacklist_field]. destruct (type_class env t) as [cls|] eqn:Hcls;
    [|by intros [= <-]].
  set (st1 := iterate_fields cls (blacklist_field_yield origin name declared) st).
  assert (rstate_of st1 e ≠ rstate_of st e →
          ∃ f, c_external cls = false ∧ f ∈ c_sfields cls ++ c_ifields cls ∧
               f_name f = name ∧ (f_public f = true ∨ declared = true) ∧ e = of_field f)
    as Hhere.
  { subst st1. destruct (c_external cls) eqn:Hext.
    - unfold iterate_fields. by rewrite Hext.
    - rewrite iterate_fields_internal by done. unfold root_declared_fields. intros Hne.
      destruct (decide (e ∈ of_field <$>
                          List.filter (field_matches name declared)
                            (c_sfields cls ++ c_ifields cls))) as [Hin|Hnin].
      + apply list_elem_of_fmap in Hin as (f & -> & Hf).
        apply list_elem_of_In, filter_In in Hf as [Hf Hmatch].
        unfold field_matches in Hmatch. apply andb_true_iff in Hmatch as [Hname Hvis].
        apply String.eqb_eq in Hname. apply orb_true_iff in Hvis.
        exists f. rewrite list_elem_of_In. by repeat split.
      + by rewrite for_each_root_by_reflection_unchanged in Hne. }
  assert (lookup_visits env declared t cls) as Hvisit.
  { destruct declared; [done|]. by apply on_super_chain_here. }
  destruct (negb declared) eqn:Hdecl.
  - apply negb_true_iff in Hdecl as ->. destruct (c_super cls) as [super_cls|] eqn:Hsup.
    + intros Hrun Hne.
      destruct (decide (rstate_of st1 e = rstate_of st e)) as [Heq|Hne1].
      * rewrite <- Heq in Hne. destruct (IH _ _ _ _ _ _ _ Hrun Hne) as (c & f & Hv & Hrest).
        exists c, f. split; [|done]. eapply on_super_chain_super; [done|].
        by rewrite Hsup.
      * destruct (Hhere Hne1) as (f & Hrest). by exists cls, f.
    + intros [= <-] Hne. destruct (Hhere Hne) as (f & Hrest). by exists cls, f.
  - intros [= <-] Hne. destruct (Hhere Hne) as (f & Hrest). by exists cls, f.
Qed.

Lemma blacklist_field_keeps_rooted fuel origin t name declared st st' origin' e :
  blacklist_field env fuel origin t name declared st = Ok st' →
  rooted_by_reflection origin' st e → rooted_by_reflection origin' st' e.
Proof.
  intros Hrun Hst. revert Hrun.
  apply (blacklist_field_footprint env (λ s, rooted_by_reflection origin' s e)
           (λ _ _, True)); try done.
  intros. by apply rooted_by_reflection_rstate.
Qed.

Lemma blacklist_field_roots_matches fuel :
  ∀ origin t name declared st st' cls f,
    blacklist_field env fuel origin t name declared st = Ok st' →
    lookup_visits env declared t cls → c_external cls = false →
    f ∈ c_sfields cls ++ c_ifields cls → f_name f = name →
    f_public f = true ∨ declared = true →
    rooted_by_reflection origin st' (of_field f).
Proof.
  induction fuel as [|fuel IH]; intros origin t name declared st st' cls f; [done|].
  cbn [blacklist_field]. intros Hrun Hvisit Hext Hf Hname Hvis.
  assert (∀ s, rooted_by_reflection origin
                 (iterate_fields cls (blacklist_field_yield origin name declared) s)
                 (of_field f)) as Hhere.
  { intros s. rewrite iterate_fields_internal by done.
    apply (for_each_root_by_reflection_rooted origin of_field).
    apply list_elem_of_In, filter_In. rewrite <- list_elem_of_In. split; [done|].
    unfold field_matches. apply andb_true_iff. split; [by apply String.eqb_eq|].
    apply orb_true_iff. destruct Hvis as [ | -> ]; [by left|by right]. }
  destruct declared.
  - simpl in Hvisit. rewrite Hvisit in Hrun. simpl in Hrun. injection Hrun as <-.
    apply Hhere.
  - simpl in Hvisit. simpl in Hrun. inversion Hvisit as [t' c Hc|t' c c' Hc Hchain]; subst.
    + rewrite Hc in Hrun.
      destruct (c_super cls) as [super_cls|]; [|injection Hrun as <-; apply Hhere].
      eapply blacklist_field_keeps_rooted; [done|]. apply Hhere.
    + rewrite Hc in Hrun. destruct (c_super c) as [super_cls|] eqn:Hsup.
      * by apply (IH _ _ _ _ _ _ _ _ Hrun Hchain).
      * by apply on_super_chain_None in Hchain.
Qed.

(** A lookup of a field roots exactly the fields it selects: a field
    whose state changes is declared by a class the lookup visits, that
    class is not external, the field has the name looked up, and it is
    public unless the lookup is declared-only; and every such field ends
    up a root, with the reflecting method logged, carrying the reason that
    [set_root(REFLECTION)] records over the one it carried: [REFLECTION]
    for a field that carried none. *)
Theorem blacklist_field_roots_exactly
    (fuel : nat) (origin : DexMethod) (t : option DexType) (name : DexString)
    (declared : bool) (st st' : State) :
  blacklist_field env fuel origin t name declared st = Ok st' →
  (∀ e, rstate_of st' e ≠ rstate_of st e →
        ∃ cls f, lookup_visits env declared t cls ∧ c_external cls = false ∧
                 f ∈ c_sfields cls ++ c_ifields cls ∧ f_name f = name ∧
                 (f_public f = true ∨ declared = true) ∧ e = of_field f) ∧
  (∀ cls f, lookup_visits env declared t cls → c_external cls = false →
            f ∈ c_sfields cls ++ c_ifields cls → f_name f = name →
            f_public f = true ∨ declared = true →
            rooted_with REFLECTION st st' (of_field f) ∧
            Some (m_id origin) ∈ keep_originators (rstate_of st' (of_field f))).
Proof.
  intros Hrun. split.
  - intros e. by apply (blacklist_field_changes_only fuel origin t name declared).
  - intros cls f Hv Hext Hf Hn Hvis.
    destruct (blacklist_field_roots_matches fuel origin t name declared st st' cls f)
      as [Hroot Hlog]; try done.
    split; [|done]. apply rooted_with_intro; [done|]. revert Hrun.
    apply (blacklist_field_footprint env (rooted_only_with REFLECTION st)
             (λ _ op, ∀ r o, op = set_root r o → r = REFLECTION)).
    + intros. by apply rooted_only_with_rstate.
    + done.
    + by intros e o r o' [= <- _].
    + apply rooted_only_with_refl.
Qed.

End Lookup.

Section MethodLookup.

Variable env : Env.

Lemma method_matches_spec name params declared m :
  method_matches name params declared m = true ↔
  m_name m = name ∧ (∀ ps, params = Some ps → m_args m = ps) ∧
  (m_public m = true ∨ declared = true).
Proof.
  unfold method_matches. rewrite !andb_true_iff, String.eqb_eq, orb_true_iff.
  destruct params as [ps|].
  - rewrite bool_decide_eq_true. split.
    + intros [[Hn Ha] Hv]. split; [done|]. split; [|done]. by intros ps' [= <-].
    + intros (Hn & Ha & Hv). split; [|done]. split; [done|]. by apply Ha.
  - split.
    + intros [[Hn _] Hv]. by repeat split.
    + intros (Hn & _ & Hv). by repeat split.
Qed.

Lemma blacklist_method_changes_only fuel :
  ∀ origin t name params declared st st' e,
    blacklist_method env fuel origin t name params declared st = Ok st' →
    rstate_of st' e ≠ rstate_of st e →
    ∃ cls m, lookup_visits env declared t cls ∧ c_external cls = false ∧
             m ∈ c_dmethods cls ++ c_vmethods cls ∧
             method_matches name params declared m = true ∧ e = of_method m.
Proof.
  induction fuel as [|fuel IH]; intros origin t name params declared st st' e; [done|].
  cbn [blacklist_method]. destruct (type_class env t) as [cls|] eqn:Hcls;
    [|by intros [= <-]].
  set (st1 := iterate_methods cls (blacklist_method_yield origin name params declared) st).
  assert (rstate_of st1 e ≠ rstate_of st e →
          ∃ m, c_external cls = false ∧ m ∈ c_dmethods cls ++ c_vmethods cls ∧
               method_matches name params declared m = true ∧ e = of_method m)
    as Hhere.
  { subst st1. destruct (c_external cls) eqn:Hext.
    - unfold iterate_methods. by rewrite Hext.
    - rewrite iterate_methods_internal by done. unfold root_declared_methods. intros Hne.
      destruct (decide (e ∈ of_method <$>
                          List.filter (method_matches name params declared)
                            (c_dmethods cls ++ c_vmethods cls))) as [Hin|Hnin].
      + apply list_elem_of_fmap in Hin as (m & -> & Hm).
        apply list_elem_of_In, filter_In in Hm as [Hm Hmatch].
        exists m. rewrite list_elem_of_In. by repeat split.
      + by rewrite for_each_root_by_reflection_unchanged in Hne. }
  assert (lookup_visits env declared t cls) as Hvisit.
  { destruct declared; [done|]. by apply on_super_chain_here. }
  destruct (negb declared) eqn:Hdecl.
  - apply negb_true_iff in Hdecl as ->. destruct (c_super cls) as [super_cls|] eqn:Hsup.
    + intros Hrun Hne.
      destruct (decide (rstate_of st1 e = rstate_of st e)) as [Heq|Hne1].
      * rewrite <- Heq in Hne.
        destruct (IH _ _ _ _ _ _ _ _ Hrun Hne) as (c & m & Hv & Hrest).
        exists c, m. split; [|done]. eapply on_super_chain_super; [done|].
        by rewrite Hsup.
      * destruct (Hhere Hne1) as (m & Hrest). by exists cls, m.
    + intros [= <-] Hne. destruct (Hhere Hne) as (m & Hrest). by exists cls, m.
  - intros [= <-] Hne. destruct (Hhere Hne) as (m & Hrest). by exists cls, m.
Qed.

Lemma blacklist_method_keeps_rooted fuel origin t name params declared st st' origin' e :
  blacklist_method env fuel origin t name params declared st = Ok st' →
  rooted_by_reflection origin' st e → rooted_by_reflection origin' st' e.
Proof.
  intros Hrun Hst. revert Hrun.
  apply (blacklist_method_footprint env (λ s, rooted_by_reflection origin' s e)
           (λ _ _, True)); try done.
  intros. by apply rooted_by_reflection_rstate.
Qed.

Lemma blacklist_method_roots_matches fuel :
  ∀ origin t name params declared st st' cls m,
    blacklist_method env fuel origin t name params declared st = Ok st' →
    lookup_visits env declared t cls → c_external cls = false →
    m ∈ c_dmethods cls ++ c_vmethods cls →
    method_matches name params declared m = true →
    rooted_by_reflection origin st' (of_method m).
Proof.
  induction fuel as [|fuel IH]; intros origin t name params declared st st' cls m;
    [done|].
  cbn [blacklist_method]. intros Hrun Hvisit Hext Hm Hmatch.
  assert (∀ s, rooted_by_reflection origin
                 (iterate_methods cls (blacklist_method_yield origin name params declared) s)
                 (of_method m)) as Hhere.
  { intros s. rewrite iterate_methods_internal by done.
    apply (for_each_root_by_reflection_rooted origin of_method).
    apply list_elem_of_In, filter_In. by rewrite <- list_elem_of_In. }
  destruct declared.
  - simpl in Hvisit. rewrite Hvisit in Hrun. simpl in Hrun. injection Hrun as <-.
    apply Hhere.
  - simpl in Hvisit. simpl in Hrun. inversion Hvisit as [t' c Hc|t' c c' Hc Hchain]; subst.
    + rewrite Hc in Hrun.
      destruct (c_super cls) as [super_cls|]; [|injection Hrun as <-; apply Hhere].
      eapply blacklist_method_keeps_rooted; [done|]. apply Hhere.
    + rewrite Hc in Hrun. destruct (c_super c) as [super_cls|] eqn:Hsup.
      * by apply (IH _ _ _ _ _ _ _ _ _ Hrun Hchain).
      * by apply on_super_chain_None in Hchain.
Qed.

(** A lookup of a method roots exactly the methods it selects: a method
    whose state changes is declared by a class the lookup visits, that
    class is not external, the method has the name looked up and, when
    parameter types are given, exactly these parameter types, and it is
    public unless the lookup is declared-only; and every such method ends
    up a root, with the reflecting method logged, carrying the reason that
    [set_root(REFLECTION)] records over the one it carried: [REFLECTION]
    for a method that carried none.  Without parameter types every
    overload of the name is rooted. *)
Theorem blacklist_method_roots_exactly
    (fuel : nat) (origin : DexMethod) (t : option DexType) (name : DexString)
    (params : option (list DexType)) (declared : bool) (st st' : State) :
  blacklist_method env fuel origin t name params declared st = Ok st' →
  (∀ e, rstate_of st' e ≠ rstate_of st e →
        ∃ cls m, lookup_visits env declared t cls ∧ c_external cls = false ∧
                 m ∈ c_dmethods cls ++ c_vmethods cls ∧ m_name m = name ∧
                 (∀ ps, params = Some ps → m_args m = ps) ∧
                 (m_public m = true ∨ declared = true) ∧ e = of_method m) ∧
  (∀ cls m, lookup_visits env declared t cls → c_external cls = false →
            m ∈ c_dmethods cls ++ c_vmethods cls → m_name m = name →
            (∀ ps, params = Some ps → m_args m = ps) →
            m_public m = true ∨ declared = true →
            rooted_with REFLECTION st st' (of_method m) ∧
            Some (m_id origin) ∈ keep_originators (rstate_of st' (of_method m))).
Proof.
  intros Hrun. split.
  - intros e Hne.
    destruct (blacklist_method_changes_only fuel origin t name params declared st st' e
                Hrun Hne) as (cls & m & Hv & Hext & Hm & Hmatch & ->).
    apply method_matches_spec in Hmatch as (Hn & Ha & Hvis). by exists cls, m.
  - intros cls m Hv Hext Hm Hn Ha Hvis.
    destruct (blacklist_method_roots_matches fuel origin t name params declared st st'
                cls m) as [Hroot Hlog]; try done.
    { by apply method_matches_spec. }
    split; [|done]. apply rooted_with_intro; [done|]. revert Hrun.
    apply (blacklist_method_footprint env (rooted_only_with REFLECTION st)
             (λ _ op, ∀ r o, op = set_root r o → r = REFLECTION)).
    + intros. by apply rooted_only_with_rstate.
    + done.
    + by intros e o r o' [= <- _].
    + apply rooted_only_with_refl.
Qed.

End MethodLookup.

Lemma blacklist_field_roots_exactly_witness :
  m_keep (rstate_of looked_up_field (EField 1)) = true ∧
  keep_reason_of first_reason_kept (rstate_of looked_up_field (EField 1))
  = Some REFLECTION ∧
  Some 100 ∈ keep_originators (rstate_of looked_up_field (EField 1)).
Proof.
  destruct (blacklist_field_roots_exactly external_over_internal 3 main_method
              (Some "LB;") "x" false empty_state looked_up_field) as [_ Hroots].
  - vm_compute. reflexivity.
  - destruct (Hroots internal_S (mk_field 1 "x" true)) as [[Hkeep Hwhy] Hlog].
    + eapply on_super_chain_super; [vm_compute; reflexivity|].
      apply on_super_chain_here. vm_compute. reflexivity.
    + reflexivity.
    + by left.
    + reflexivity.
    + by left.
    + change (of_field (mk_field 1 "x" true)) with (EField 1) in Hwhy.
      split; [exact Hkeep|]. split; [|exact Hlog].
      rewrite (Hwhy first_reason_kept). reflexivity.
Defined.

Lemma blacklist_method_roots_exactly_witness :
  m_keep (rstate_of looked_up_method (EMethod 4)) = true ∧
  keep_reason_of first_reason_kept (rstate_of looked_up_method (EMethod 4))
  = Some MANIFEST ∧
  keep_reason_of reflection_first (rstate_of looked_up_method (EMethod 4))
  = Some REFLECTION ∧
  Some 100 ∈ keep_originators (rstate_of looked_up_method (EMethod 4)).
Proof.
  destruct (blacklist_method_roots_exactly external_over_internal 3 main_method
              (Some "LB;") "run" (Some []) true manifest_rooted_before looked_up_method)
    as [_ Hroots].
  - vm_compute. reflexivity.
  - destruct (Hroots internal_B (mk_method 4 "LB;" "run" [] true false false))
      as [[Hkeep Hwhy] Hlog].
    + vm_compute. reflexivity.
    + reflexivity.
    + simpl. by left.
    + reflexivity.
    + by intros ps [= <-].
    + by left.
    + change (of_method (mk_method 4 "LB;" "run" [] true false false)) with (EMethod 4)
        in Hwhy.
      split; [exact Hkeep|]. split; [|split; [|exact Hlog]].
      * rewrite (Hwhy first_reason_kept). reflexivity.
      * rewrite (Hwhy reflection_first). reflexivity.
Defined.

(** ** Manifest policy *)

Lemma prune_unexported_components_of_returns strs :
  (∀ s, s ∈ strs → s ∈ prunable_tags) →
  ∃ tags, prune_unexported_components_of strs = Ok tags.
Proof.
  induction strs as [|s l IH]; intros Hall; [by eexists|].
  destruct IH as [tags Htags]; [intros; apply Hall; by right|].
  simpl. rewrite Htags. unfold string_to_tag_at.
  pose proof (Hall s ltac:(by left)) as Hs. unfold prunable_tags in Hs.
  apply elem_of_union in Hs as [Hs|Hs]; apply elem_of_singleton in Hs as ->;
    by eexists.
Qed.




(** An activity or activity alias that is not exported, has no intent
    filter and whose kind is pruned is not made a root: its class gets the
    keep count incremented and obfuscation disallowed, its [keep] flag and
    keep reasons stay as they were, and no other element changes.  When the
    class name does not resolve nothing changes at all. *)
Theorem pruned_component_is_pinned_not_rooted
    (env : Env) (prune : list ComponentTag) (tag_info : ComponentTagInfo) (st : State) :
  tag tag_info = Activity ∨ tag tag_info = ActivityAlias →
  is_exported tag_info = false →
  has_intent_filters tag_info = false →
  tag tag_info ∈ prune →
  (maybe_class_from_string env (classname tag_info) = None →
     rstates (analyze_component_tag env prune tag_info st) = rstates st) ∧
  (∀ dclass, maybe_class_from_string env (classname tag_info) = Some dclass →
     rstate_of (analyze_component_tag env prune tag_info st) (of_class dclass) =
       apply_op unset_allowobfuscation
         (apply_op increment_keep_count (rstate_of st (of_class dclass))) ∧
     m_keep (rstate_of (analyze_component_tag env prune tag_info st) (of_class dclass)) =
       m_keep (rstate_of st (of_class dclass)) ∧
     m_keep_reasons (rstate_of (analyze_component_tag env prune tag_info st)
                       (of_class dclass)) =
       m_keep_reasons (rstate_of st (of_class dclass)) ∧
     (∀ e, e ≠ of_class dclass →
           rstate_of (analyze_component_tag env prune tag_info st) e = rstate_of st e)).
Proof.
  intros Htag Hexp Hfilt Hprune.
  assert (analyze_component_tag env prune tag_info st =
          match maybe_class_from_string env (classname tag_info) with
          | Some dclass =>
            rstate (of_class dclass) unset_allowobfuscation
              (rstate (of_class dclass) increment_keep_count
                 (TRACE 3 (not_exported (c_str (classname tag_info))) st))
          | None => TRACE 3 (not_exported (c_str (classname tag_info))) st
          end) as ->.
  { unfold analyze_component_tag. rewrite Hexp, Hfilt.
    rewrite (bool_decide_eq_true_2 (tag tag_info ∈ prune)) by done.
    by destruct Htag as [-> | ->]. }
  split.
  - by intros ->.
  - intros dclass ->. rewrite !rstate_of_rstate_eq, rstate_of_TRACE.
    split; [done|]. split; [by destruct (rstate_of st (of_class dclass))|].
    split; [by destruct (rstate_of st (of_class dclass))|].
    intros e Hne. by rewrite !rstate_of_rstate_ne.
Qed.

Lemma pruned_component_is_pinned_not_rooted_witness :
  m_keep (rstate_of (analyze_component_tag manifest_world [Activity] unexported_activity
                       empty_state) (EClass "Ltest3;")) = false ∧
  m_keep_count (rstate_of (analyze_component_tag manifest_world [Activity]
                             unexported_activity empty_state) (EClass "Ltest3;")) = 1 ∧
  m_allowobfuscation (rstate_of (analyze_component_tag manifest_world [Activity]
                                   unexported_activity empty_state) (EClass "Ltest3;"))
  = false.
Proof.
  destruct (pruned_component_is_pinned_not_rooted manifest_world [Activity]
              unexported_activity empty_state) as [_ Hsome].
  - by left.
  - reflexivity.
  - reflexivity.
  - simpl. by left.
  - destruct (Hsome activity_test3) as (Hrs & _); [vm_compute; reflexivity|].
    unfold of_class in Hrs. simpl in Hrs. rewrite Hrs. by repeat split.
Defined.

Lemma rooted_by_manifest_rstate e op s e' :
  rooted_by_manifest s e' → rooted_by_manifest (rstate e op s) e'.
Proof. apply rooted_at_least_rstate. Qed.

Section ManifestRoots.

Variable env : Env.

Lemma mark_manifest_root_keeps classname s e :
  rooted_by_manifest s e → rooted_by_manifest (mark_manifest_root env classname s) e.
Proof.
  intros Hs.
  apply (mark_manifest_root_footprint env (λ s', rooted_by_manifest s' e) (λ _ _, True));
    try done.
  intros. by apply rooted_by_manifest_rstate.
Qed.

Lemma mark_manifest_root_roots classname dclass s e :
  maybe_class_from_string env classname = Some dclass →
  e = of_class dclass ∨ (∃ m, m ∈ get_ctors dclass ∧ e = of_method m) →
  rooted_by_manifest (mark_manifest_root env classname s) e.
Proof.
  intros Hd He. unfold mark_manifest_root. rewrite Hd.
  assert (∀ rs, m_keep (apply_op (set_root MANIFEST None) rs) = true ∧
                ∀ priority,
                  no_weaker priority (Some MANIFEST)
                    (keep_reason_of priority (apply_op (set_root MANIFEST None) rs)))
    as Hset.
  { intros rs. split; [apply m_keep_set_root|]. intros priority.
    rewrite keep_reason_of_set_root. apply record_reason_no_weaker. }
  destruct He as [->|(m & Hm & ->)].
  - apply (for_each_invariant (λ s', rooted_by_manifest s' (of_class dclass))).
    + intros. by apply rooted_by_manifest_rstate.
    + apply rooted_by_manifest_rstate. apply rooted_at_least_set_root.
  - unfold rooted_by_manifest, rooted_at_least.
    apply (rstate_of_for_each_rstate_in
             (λ rs, m_keep rs = true ∧
                    ∀ priority,
                      no_weaker priority (Some MANIFEST) (keep_reason_of priority rs))
             of_method);
      [apply Hset|]. by apply list_elem_of_fmap_2.
Qed.

(** After the manifest seeder, every class that a root name of the
    manifest resolves to is a root, and so is every declared constructor
    of such a class, whatever the entries that follow; each carries the
    reason that [set_root(MANIFEST)] records over the one it carried:
    [MANIFEST] for an element that carried none. *)
Theorem analyze_reachable_from_manifest_roots
    (apk_dir : string) (prune_str : gset string) (prune : list ComponentTag)
    (st st' : State) (name : string) (dclass : DexClass) :
  prune_unexported_components_of (elements prune_str) = Ok prune →
  analyze_reachable_from_manifest env apk_dir prune_str st = Ok st' →
  manifest_root_name (get_manifest_class_info env (apk_dir +:+ "/AndroidManifest.xml"))
    prune name →
  maybe_class_from_string env name = Some dclass →
  rooted_with MANIFEST st st' (of_class dclass) ∧
  ∀ m, m ∈ c_dmethods dclass → m_init m = true →
       rooted_with MANIFEST st st' (of_method m).
Proof.
  intros Hprune Hrun Hname Hd.
  assert (rooted_only_with MANIFEST st st') as Honly.
  { revert Hrun.
    apply (analyze_reachable_from_manifest_footprint env (rooted_only_with MANIFEST st)
             (λ _ op, ∀ r o, op = set_root r o → r = MANIFEST)).
    - intros. by apply rooted_only_with_rstate.
    - done.
    - by intros e r o [= <- _].
    - by intros e r o [=].
    - by intros e r o [=].
    - apply rooted_only_with_refl. }
  cut (rooted_by_manifest st' (of_class dclass) ∧
       ∀ m, m ∈ c_dmethods dclass → m_init m = true →
            rooted_by_manifest st' (of_method m)).
  { intros [Hcls Hctors]. split; [by apply rooted_with_intro|].
    intros m Hm Hinit. apply rooted_with_intro; [by apply Hctors|done]. }
  clear Honly. unfold analyze_reachable_from_manifest in Hrun.
  rewrite Hprune in Hrun. simpl in Hrun. injection Hrun as <-.
  set (info := get_manifest_class_info env (apk_dir +:+ "/AndroidManifest.xml")) in *.
  assert (∀ e, e = of_class dclass ∨ (∃ m, m ∈ get_ctors dclass ∧ e = of_method m) →
               rooted_by_manifest
                 (for_each (component_tags info) (analyze_component_tag env prune)
                    (for_each (instrumentation_classes info) (mark_manifest_root env)
                       (for_each (application_classes info) (mark_manifest_root env) st)))
                 e) as Hall.
  { intros e He.
    assert (∀ (l : list string) s, name ∈ l ∨ rooted_by_manifest s e →
              rooted_by_manifest (for_each l (mark_manifest_root env) s) e) as Hnames.
    { induction l as [|x l IH]; intros s [Hin|Hs]; try done.
      - by apply elem_of_nil in Hin.
      - rewrite for_each_cons. apply IH. apply elem_of_cons in Hin as [<-|Hin];
          [right|by left]. by apply (mark_manifest_root_roots name dclass).
      - rewrite for_each_cons. apply IH. right. by apply mark_manifest_root_keeps. }
    assert (∀ tag_info s, rooted_by_manifest s e →
              rooted_by_manifest (analyze_component_tag env prune tag_info s) e) as Hkeep.
    { intros tag_info s Hs.
      apply (for_each_invariant (λ s', rooted_by_manifest s' e) [tag_info]
               (analyze_component_tag env prune)); [|done].
      intros x s' _ Hs'. unfold analyze_component_tag.
      destruct (tag x); repeat first
        [ by apply mark_manifest_root_keeps
        | by apply Hnames; right; apply mark_manifest_root_keeps
        | done
        | apply rooted_by_manifest_rstate
        | match goal with
          | |- rooted_by_manifest (if ?b then _ else _) _ => destruct b
          | |- rooted_by_manifest (match ?o with Some _ => _ | None => _ end) _ => destruct o
          end ]. }
    assert (∀ (l : list ComponentTagInfo) s,
              (∃ tag_info, tag_info ∈ l ∧
                 ((name = classname tag_info ∧
                   (tag tag_info = Receiver ∨ tag tag_info = Service ∨
                    tag tag_info = Provider ∨ is_exported tag_info = true ∨
                    has_intent_filters tag_info = true ∨ tag tag_info ∉ prune)) ∨
                  (tag tag_info = Provider ∧ name ∈ authority_classes tag_info))) ∨
              rooted_by_manifest s e →
              rooted_by_manifest (for_each l (analyze_component_tag env prune) s) e) as Htags.
    { induction l as [|x l IH]; intros s [(ti & Hin & Hsel)|Hs]; try done.
      - by apply elem_of_nil in Hin.
      - rewrite for_each_cons. apply IH. apply elem_of_cons in Hin as [<-|Hin];
          [right|left; by exists ti].
        unfold analyze_component_tag.
        destruct Hsel as [[-> Hwhy]|[Hprov Hauth]].
        + destruct (tag ti) eqn:Htag.
          * destruct Hwhy as [|[|[|[->|[->|Hnot]]]]]; try done.
            -- by apply (mark_manifest_root_roots _ dclass).
            -- rewrite orb_true_r. by apply (mark_manifest_root_roots _ dclass).
            -- rewrite (bool_decide_eq_false_2 (Activity ∈ prune)) by done.
               simpl. rewrite !orb_true_r. by apply (mark_manifest_root_roots _ dclass).
          * destruct Hwhy as [|[|[|[->|[->|Hnot]]]]]; try done.
            -- by apply (mark_manifest_root_roots _ dclass).
            -- rewrite orb_true_r. by apply (mark_manifest_root_roots _ dclass).
            -- rewrite (bool_decide_eq_false_2 (ActivityAlias ∈ prune)) by done.
               simpl. rewrite !orb_true_r. by apply (mark_manifest_root_roots _ dclass).
          * apply Hnames. right. by apply (mark_manifest_root_roots _ dclass).
          * by apply (mark_manifest_root_roots _ dclass).
          * by apply (mark_manifest_root_roots _ dclass).
        + rewrite Hprov. apply Hnames. by left.
      - rewrite for_each_cons. apply IH. right. by apply Hkeep. }
    destruct Hname as [Happ|[Hinst|Htag]].
    - apply Htags. right. apply Hnames. right. apply Hnames. by left.
    - apply Htags. right. apply Hnames. by left.
    - apply Htags. by left. }
  split.
  - apply Hall. by left.
  - intros m Hm Hinit. apply Hall. right. exists m. split; [|done].
    unfold get_ctors. apply list_elem_of_In, filter_In. by rewrite <- list_elem_of_In.
Qed.

End ManifestRoots.

Lemma analyze_reachable_from_manifest_roots_witness :
  m_keep (rstate_of filtered_activity_state (EClass "Ltest3;")) = true ∧
  keep_reason_of first_reason_kept (rstate_of filtered_activity_state (EClass "Ltest3;"))
  = Some MANIFEST ∧
  m_keep (rstate_of filtered_activity_state (EMethod 31)) = true ∧
  keep_reason_of first_reason_kept (rstate_of filtered_activity_state (EMethod 31))
  = Some MANIFEST.
Proof.
  destruct (analyze_reachable_from_manifest_roots filtered_activity_world "apk"
              {[ "activity" ]} [Activity] empty_state filtered_activity_state
              "Ltest3;" activity_test3) as [[Hcls Hclswhy] Hctor].
  - vm_compute. reflexivity.
  - vm_compute. reflexivity.
  - right. right. exists filtered_activity. split; [by left|]. left.
    split; [reflexivity|]. do 4 right. by left.
  - vm_compute. reflexivity.
  - destruct (Hctor (mk_method 31 "Ltest3;" "<init>" [] true false true))
      as [Hkeep Hwhy]; [by left|done|].
    change (of_method (mk_method 31 "Ltest3;" "<init>" [] true false true))
      with (EMethod 31) in Hwhy.
    change (of_class activity_test3) with (EClass "Ltest3;") in Hclswhy.
    split; [exact Hcls|]. split; [rewrite (Hclswhy first_reason_kept); reflexivity|].
    split; [exact Hkeep|]. rewrite (Hwhy first_reason_kept). reflexivity.
Defined.

(** ** Layout seeding done twice *)

Lemma same_but_xml_rstate st e op s :
  op = set_referenced_by_resource_xml ∨ op = unset_referenced_by_resource_xml →
  same_but unset_referenced_by_resource_xml st s →
  same_but unset_referenced_by_resource_xml st (rstate e op s).
Proof.
  intros Hop Hs e'. rewrite rstate_of_rstate. case_decide as He; [|apply Hs].
  subst e'. rewrite <- Hs. destruct (rstate_of s e). by destruct Hop as [-> | ->].
Qed.

Lemma same_but_xml_eq (a b : ReferencedState) :
  apply_op unset_referenced_by_resource_xml a = apply_op unset_referenced_by_resource_xml b →
  m_by_resources a = m_by_resources b → a = b.
Proof. destruct a, b. simpl. intros [= -> -> -> -> -> -> ->] ->. reflexivity. Qed.

Section Idempotent.

Variable env : Env.

Lemma analyze_reachable_from_xml_layouts_same_but scope apk_dir st st' :
  analyze_reachable_from_xml_layouts env scope apk_dir st = Ok st' →
  same_but unset_referenced_by_resource_xml st st'.
Proof.
  apply (analyze_reachable_from_xml_layouts_footprint env
           (same_but unset_referenced_by_resource_xml st)
           (λ _ op, op = set_referenced_by_resource_xml)); try done.
  intros e op s ->. apply same_but_xml_rstate. by left.
Qed.

Lemma unset_referenced_by_resource_xml_pass_same_but scope st :
  same_but unset_referenced_by_resource_xml st
    (unset_referenced_by_resource_xml_pass scope st).
Proof.
  apply (unset_referenced_by_resource_xml_pass_footprint
           (same_but unset_referenced_by_resource_xml st)
           (λ _ op, op = unset_referenced_by_resource_xml)); try done.
  intros e op s ->. apply same_but_xml_rstate. by right.
Qed.

(** Seeding from the layouts a second time changes no element's state,
    and neither does recomputing a second time: on the same inputs, the
    second run returns and leaves every [rstate] as the first run left
    it.  Either run changes nothing but [referenced_by_resource_xml]. *)
Theorem layout_seeding_is_idempotent
    (scope : Scope) (apk_dir : string) (st : State) :
  (∀ s1, analyze_reachable_from_xml_layouts env scope apk_dir st = Ok s1 →
     same_but unset_referenced_by_resource_xml st s1 ∧
     ∃ s2, analyze_reachable_from_xml_layouts env scope apk_dir s1 = Ok s2 ∧
           ∀ e, rstate_of s2 e = rstate_of s1 e) ∧
  (∀ s1, recompute_reachable_from_xml_layouts env scope apk_dir st = Ok s1 →
     same_but unset_referenced_by_resource_xml st s1 ∧
     ∃ s2, recompute_reachable_from_xml_layouts env scope apk_dir s1 = Ok s2 ∧
           ∀ e, rstate_of s2 e = rstate_of s1 e).
Proof.
  split.
  - intros s1 Hs1. split; [by eapply analyze_reachable_from_xml_layouts_same_but|].
    destruct (analyze_reachable_from_xml_layouts_returns_anyway env _ _ _ _ s1 Hs1)
      as [s2 Hs2].
    exists s2. split; [done|]. intros e. apply same_but_xml_eq.
    + by eapply analyze_reachable_from_xml_layouts_same_but.
    + apply eq_true_iff_eq.
      pose proof (analyze_reachable_from_xml_layouts_xml env _ _ _ _ Hs1 e) as H1.
      pose proof (analyze_reachable_from_xml_layouts_xml env _ _ _ _ Hs2 e) as H2.
      unfold referenced_by_resource_xml in *. rewrite H2, H1. tauto.
  - unfold recompute_reachable_from_xml_layouts. intros s1 Hs1. split.
    { intros e. rewrite (analyze_reachable_from_xml_layouts_same_but _ _ _ _ Hs1 e).
      apply unset_referenced_by_resource_xml_pass_same_but. }
    destruct (analyze_reachable_from_xml_layouts_returns_anyway env _ _ _ _
                (unset_referenced_by_resource_xml_pass scope s1) Hs1) as [s2 Hs2].
    exists s2. split; [done|]. intros e. apply same_but_xml_eq.
    + rewrite (analyze_reachable_from_xml_layouts_same_but _ _ _ _ Hs2 e).
      apply unset_referenced_by_resource_xml_pass_same_but.
    + apply eq_true_iff_eq.
      pose proof (analyze_reachable_from_xml_layouts_xml env _ _ _ _ Hs1 e) as H1.
      pose proof (analyze_reachable_from_xml_layouts_xml env _ _ _ _ Hs2 e) as H2.
      unfold referenced_by_resource_xml in *. rewrite H2, H1.
      rewrite !unset_referenced_by_resource_xml_pass_rstate.
      destruct (decide (e ∈ scope_elements scope)).
      * destruct (rstate_of s1 e), (rstate_of st e). simpl. tauto.
      * rewrite H1. rewrite unset_referenced_by_resource_xml_pass_rstate.
        rewrite decide_False by done. tauto.
Qed.

End Idempotent.

Lemma layout_seeding_is_idempotent_witness :
  ∃ s2, analyze_reachable_from_xml_layouts click_world [view_V] "apk" fresh_click_state
        = Ok s2 ∧
        ∀ e, rstate_of s2 e = rstate_of fresh_click_state e.
Proof.
  destruct (layout_seeding_is_idempotent click_world [view_V] "apk" empty_state)
    as [Hanalyze _].
  destruct (Hanalyze fresh_click_state) as [_ Htwice]; [vm_compute; reflexivity|].
  exact Htwice.
Defined.

(** ** Serializer families *)

Lemma serde_superclses_loop_marks env scope supers :
  ∀ children st st' e,
    serde_superclses_loop env scope supers children st = Ok st' →
    (is_serde st' e = true ↔
     is_serde st e = true ∨
     ∃ child dclass, classes env !! child = Some dclass ∧ e = of_class dclass ∧
       ((supers ≠ [] ∧ child ∈ children) ∨
        ∃ sup, sup ∈ supers ∧ child ∈ get_all_children env scope sup)).
Proof.
  induction supers as [|sup supers IH]; intros children st st' e Hrun.
  - simpl in Hrun. injection Hrun as <-. split; [by left|].
    intros [|(child & d & _ & _ & [[Hne _]|(sup & Hsup & _)])];
      [done|by destruct Hne|by apply elem_of_nil in Hsup].
  - cbn [serde_superclses_loop] in Hrun.
    destruct (for_eachM _ _ st) as [s1| |] eqn:Hloop; simpl in Hrun; [|done..].
    rewrite (IH _ _ _ _ Hrun).
    eapply (for_eachM_marks is_serde
              (λ child e, ∃ dclass, classes env !! child = Some dclass ∧
                                    e = of_class dclass)) in Hloop; [rewrite Hloop|].
    2:{ intros child s s' e' _ Hs. simpl in Hs.
        destruct (classes env !! child) as [d|] eqn:Hd; [|done].
        injection Hs as <-. rewrite is_serde_rstate_set. split.
        - intros [| ->]; [by left|right]. by exists d.
        - intros [|(d' & [= <-] & ->)]; [by left|by right]. }
    setoid_rewrite elem_of_elements. setoid_rewrite elem_of_union. split.
    + intros [[|(child & Hchild & d & Hd & ->)]|(child & d & Hd & -> & Hwhere)];
        [by left|right..]; exists child, d; (split; [done|]); (split; [done|]).
      * destruct Hchild as [|]; [by left|]. right. exists sup. split; [by left|done].
      * destruct Hwhere as [[_ [|]]|(sup' & Hsup' & Hc)].
        -- by left.
        -- right. exists sup. split; [by left|done].
        -- right. exists sup'. split; [by right|done].
    + intros [|(child & d & Hd & -> & [[_ Hc]|(sup' & Hsup' & Hc)])]; [by left; left| |].
      * left. right. exists child. split; [by left|]. by exists d.
      * apply elem_of_cons in Hsup' as [->|Hsup'].
        -- left. right. exists child. split; [by right|]. by exists d.
        -- right. exists child, d. split; [done|]. split; [done|]. right.
           by exists sup'.
Qed.

(** When the serde marker returns, [is_serde] is set exactly on the
    elements that had it and on the class of every child of a configured
    base name that resolves; nothing else changes.  With no base name that
    resolves it does nothing. *)
Theorem initialize_reachable_for_json_serde_marks_exactly
    (env : Env) (scope : Scope) (supercls_names : list string) (st st' : State) :
  initialize_reachable_for_json_serde env scope supercls_names st = Ok st' →
  (∀ e, is_serde st' e = true ↔
        is_serde st e = true ∨
        ∃ cls_name supercls child dclass,
          cls_name ∈ supercls_names ∧ get_type env cls_name = Some supercls ∧
          child ∈ get_all_children env scope supercls ∧
          classes env !! child = Some dclass ∧ e = of_class dclass) ∧
  same_but set_is_serde st st'.
Proof.
  intros Hrun. split.
  - intros e. unfold initialize_reachable_for_json_serde in Hrun.
    assert (∀ sup, sup ∈ (list_to_set (omap (get_type env) supercls_names) : gset string) ↔
                   ∃ cls_name, cls_name ∈ supercls_names ∧ get_type env cls_name = Some sup)
      as Hsupers.
    { intros sup. rewrite elem_of_list_to_set, list_elem_of_omap. done. }
    case_bool_decide as Hsize.
    + injection Hrun as <-. split; [by left|].
      intros [|(n & sup & child & d & Hn & Hsup & _)]; [done|].
      apply size_empty_inv in Hsize.
      assert (sup ∈ (list_to_set (omap (get_type env) supercls_names) : gset string))
        as Hin by (apply Hsupers; by exists n).
      rewrite Hsize in Hin. by apply not_elem_of_empty in Hin.
    + rewrite (serde_superclses_loop_marks _ _ _ _ _ _ e Hrun). split.
      * intros [|(child & d & Hd & -> & [[_ Hc]|(sup & Hsup & Hc)])]; [by left| |].
        -- by apply not_elem_of_empty in Hc.
        -- right. apply elem_of_elements, Hsupers in Hsup as (n & Hn & Hsup).
           by exists n, sup, child, d.
      * intros [|(n & sup & child & d & Hn & Hsup & Hc & Hd & ->)]; [by left|right].
        exists child, d. split; [done|]. split; [done|]. right. exists sup.
        split; [|done]. apply elem_of_elements, Hsupers. by exists n.
  - revert Hrun.
    apply (initialize_reachable_for_json_serde_footprint env (same_but set_is_serde st)
             (λ _ op, op = set_is_serde)); [|done|apply same_but_refl].
    intros e op s ->. apply same_but_rstate. by intros [].
Qed.

Lemma initialize_reachable_for_json_serde_marks_exactly_witness :
  is_serde serde_state (EClass "LChild;") = true ∧
  is_serde serde_state (EClass "LNat;") = false.
Proof.
  destruct (initialize_reachable_for_json_serde_marks_exactly native_and_serde_world
              [native_N; serde_child] ["LBase;"] empty_state serde_state) as [Hiff _].
  - vm_compute. reflexivity.
  - split.
    + apply Hiff. right. exists "LBase;", "LBase;", "LChild;", serde_child.
      split; [by left|]. split; [vm_compute; reflexivity|].
      split; [compute_done|]. split; [vm_compute; reflexivity|reflexivity].
    + vm_compute. reflexivity.
Defined.

(** ** Marking by class name *)

Lemma mark_reachable_by_classname_marks_exactly dclass st e :
  referenced_by_string (mark_reachable_by_classname (Some dclass) st) e = true ↔
  referenced_by_string st e = true ∨ e ∈ of_class dclass :: declared_members dclass.
Proof.
  unfold mark_reachable_by_classname.
  rewrite !(for_each_marks referenced_by_string (λ f e, e = of_field f))
    by (intros; apply referenced_by_string_rstate_set).
  rewrite !(for_each_marks referenced_by_string (λ m e, e = of_method m))
    by (intros; apply referenced_by_string_rstate_set).
  rewrite referenced_by_string_rstate_set.
  unfold declared_members. rewrite elem_of_cons, !elem_of_app, !list_elem_of_fmap.
  split.
  - intros [[[[[|]|(m & ? & ?)]|(m & ? & ?)]|(f & ? & ?)]|(f & ? & ?)];
      [by left|right; by left|right; right..].
    + left. by exists m.
    + right. left. by exists m.
    + do 2 right. left. by exists f.
    + do 3 right. by exists f.
  - intros [|[|[(m & ? & ?)|[(m & ? & ?)|[(f & ? & ?)|(f & ? & ?)]]]]].
    + by do 5 left.
    + do 4 left. by right.
    + do 3 left. right. by exists m.
    + do 2 left. right. by exists m.
    + left. right. by exists f.
    + right. by exists f.
Qed.

Lemma mark_reachable_by_classname_same_but dclass st s :
  same_but ref_by_string st s →
  same_but ref_by_string st (mark_reachable_by_classname dclass s).
Proof.
  intros Hs. destruct dclass as [d|]; [|done].
  apply (mark_reachable_by_classname_footprint (same_but ref_by_string st)
           (λ _ op, op = ref_by_string)); [|done|done].
  intros e op s' ->. apply same_but_rstate. by intros [].
Qed.

(** The class names found in native libraries set [referenced_by_string]
    exactly on the classes they resolve to, provided the class is known
    and not external, and on all declared members of these classes;
    nothing else changes. *)
Theorem mark_native_classes_marks_exactly (env : Env) (apk_dir : string) (st : State) :
  (∀ e, referenced_by_string (mark_native_classes env apk_dir st) e = true ↔
        referenced_by_string st e = true ∨
        ∃ classname t dclass,
          classname ∈ get_native_classes env apk_dir ∧
          get_type env (c_str classname) = Some t ∧
          classes env !! t = Some dclass ∧ c_external dclass = false ∧
          e ∈ of_class dclass :: declared_members dclass) ∧
  same_but ref_by_string st (mark_native_classes env apk_dir st).
Proof.
  split.
  - intros e. unfold mark_native_classes.
    rewrite (for_each_marks referenced_by_string
               (λ classname e, ∃ t dclass,
                  get_type env (c_str classname) = Some t ∧
                  classes env !! t = Some dclass ∧ c_external dclass = false ∧
                  e ∈ of_class dclass :: declared_members dclass)).
    + split.
      * intros [|(n & Hn & t & d & Hrest)]; [by left|right]. by exists n, t, d.
      * intros [|(n & t & d & Hn & Hrest)]; [by left|right]. exists n.
        split; [done|]. by exists t, d.
    + intros n s e' _. destruct (get_type env (c_str n)) as [t|].
      * unfold mark_reachable_by_classname_type, type_class_internal. simpl.
        destruct (classes env !! t) as [d|] eqn:Hd.
        -- destruct (c_external d) eqn:Hext.
           ++ split; [by left|]. intros [|(t' & d' & [= <-] & Hd' & Hext' & _)]; [done|].
              rewrite Hd in Hd'. injection Hd' as <-. congruence.
           ++ rewrite mark_reachable_by_classname_marks_exactly. split.
              ** intros [|]; [by left|right]. by exists t, d.
              ** intros [|(t' & d' & [= <-] & Hd' & _ & Hin)]; [by left|right].
                 rewrite Hd in Hd'. by injection Hd' as <-.
        -- split; [by left|]. intros [|(t' & d' & [= <-] & Hd' & _)]; [done|].
           by rewrite Hd in Hd'.
      * split; [by left|]. by intros [|(t' & d' & ? & _)].
  - unfold mark_native_classes.
    apply (for_each_invariant (same_but ref_by_string st)); [|apply same_but_refl].
    intros n s _ Hs. destruct (get_type env (c_str n)); [|done].
    by apply mark_reachable_by_classname_same_but.
Qed.

(** ** Reflected packages *)

Section Packages.

Variable env : Env.

Lemma in_reflected_pkg_spec fuel :
  ∀ cls reflected b,
    in_reflected_pkg env fuel (Some cls) reflected = Ok b →
    (b = true ↔ ∃ dclass, on_internal_chain env cls dclass ∧ c_type dclass ∈ reflected).
Proof.
  induction fuel as [|fuel IH]; intros cls reflected b; [done|].
  cbn [in_reflected_pkg]. case_bool_decide as Hin.
  - intros [= <-]. split; [|done]. intros _. exists cls. split; [constructor|done].
  - destruct (type_class_internal env (c_super cls)) as [super_cls|] eqn:Hsup.
    + intros Hrun. rewrite (IH _ _ _ Hrun). split.
      * intros (d & Hchain & Hd). exists d. split; [|done].
        by eapply on_internal_chain_super.
      * intros (d & Hchain & Hd). inversion Hchain; subst; [done|].
        exists d. split; [|done]. congruence.
    + destruct fuel; [done|]. intros [= <-]. split; [done|].
      intros (d & Hchain & Hd). inversion Hchain; subst; [done|congruence].
Qed.

(** [in_reflected_pkg] answers whether the class or one of its
    superclasses, as far as they are known and not external, is in the
    set.  On a superclass chain that neither ends nor meets the set it
    does not return. *)
Theorem in_reflected_pkg_answers
    (fuel : nat) (cls : DexClass) (reflected : gset string) :
  (∀ b, in_reflected_pkg env fuel (Some cls) reflected = Ok b →
        (b = true ↔ ∃ dclass, on_internal_chain env cls dclass ∧
                              c_type dclass ∈ reflected)) ∧
  ((∀ dclass, on_internal_chain env cls dclass →
              (c_type dclass ∉ reflected) ∧
              is_Some (type_class_internal env (c_super dclass))) →
   in_reflected_pkg env fuel (Some cls) reflected = Timeout).
Proof.
  split; [intros b; apply in_reflected_pkg_spec|].
  revert cls. induction fuel as [|fuel IH]; intros cls Hendless; [done|].
  cbn [in_reflected_pkg].
  destruct (Hendless cls (on_internal_chain_here env cls)) as [Hnot [super_cls Hsup]].
  rewrite bool_decide_eq_false_2 by done. rewrite Hsup. apply IH.
  intros d Hd. apply Hendless. by eapply on_internal_chain_super.
Qed.

Lemma reflected_package_loop_keeps fuel scope reflected st st' e :
  reflected_package_loop env fuel scope reflected st = Ok st' →
  referenced_by_string st e = true → referenced_by_string st' e = true.
Proof.
  intros Hrun Hst. revert Hrun.
  apply (reflected_package_loop_footprint env (λ s, referenced_by_string s e = true));
    try done.
  intros d s _ Hs. apply mark_reachable_by_classname_marks_exactly. by left.
Qed.

Lemma reflected_package_loop_marks fuel scope :
  ∀ reflected st st' clazz dclass e,
    reflected_package_loop env fuel scope reflected st = Ok st' →
    clazz ∈ scope → on_internal_chain env clazz dclass → c_type dclass ∈ reflected →
    e ∈ of_class clazz :: declared_members clazz →
    referenced_by_string st' e = true.
Proof.
  induction scope as [|c scope IH]; intros reflected st st' clazz d e Hrun Hin Hchain Hd He.
  - by apply elem_of_nil in Hin.
  - cbn [reflected_package_loop] in Hrun.
    destruct (in_reflected_pkg env fuel (Some c) reflected) as [b| |] eqn:Hb;
      simpl in Hrun; [|done..].
    apply elem_of_cons in Hin as [->|Hin].
    + assert (b = true) as -> by (apply (in_reflected_pkg_spec _ _ _ _ Hb); by exists d).
      eapply reflected_package_loop_keeps; [done|].
      apply mark_reachable_by_classname_marks_exactly. by right.
    + destruct b.
      * eapply IH; try done. apply elem_of_union. by right.
      * by eapply IH.
Qed.

Lemma elem_of_reflected_package_seed scope pkgs t :
  t ∈ reflected_package_seed scope pkgs ↔ in_configured_package scope pkgs t.
Proof.
  unfold reflected_package_seed, in_configured_package.
  rewrite elem_of_list_to_set, list_elem_of_fmap. split.
  - intros (c & -> & Hc). apply list_elem_of_In, filter_In in Hc as [Hc Hpkg].
    apply existsb_exists in Hpkg as (pkg & Hpkg & Hstart).
    exists c, pkg. by rewrite !list_elem_of_In.
  - intros (c & pkg & Hc & <- & Hpkg & Hstart). exists c. split; [done|].
    apply list_elem_of_In, filter_In. split; [by apply list_elem_of_In|].
    apply existsb_exists. exists pkg. by rewrite <- list_elem_of_In.
Qed.

(** When the package expansion returns, every class of the scope that is
    in a configured package, or that has a known, non-external superclass
    chain leading to such a class, has [referenced_by_string], and so has
    each of its declared members. *)
Theorem reflected_package_loop_marks_packages
    (fuel : nat) (scope : Scope) (pkgs : list string) (st st' : State)
    (clazz dclass : DexClass) (e : Elem) :
  reflected_package_loop env fuel scope (reflected_package_seed scope pkgs) st = Ok st' →
  clazz ∈ scope →
  on_internal_chain env clazz dclass →
  in_configured_package scope pkgs (c_type dclass) →
  e ∈ of_class clazz :: declared_members clazz →
  referenced_by_string st' e = true.
Proof.
  intros Hrun Hin Hchain Hpkg He.
  eapply reflected_package_loop_marks; try done.
  by apply elem_of_reflected_package_seed.
Qed.

End Packages.

Lemma in_reflected_pkg_answers_witness :
  in_reflected_pkg native_and_serde_world 3 (Some serde_child) {[ "LChild;" ]} = Ok true ∧
  in_reflected_pkg cyclic_world 7 (Some cyclic_A) ∅ = Timeout.
Proof.
  split; [vm_compute; reflexivity|].
  apply (in_reflected_pkg_answers cyclic_world 7 cyclic_A ∅).
  intros d Hd.
  assert (∀ c, on_internal_chain cyclic_world c d → c = cyclic_A → d = cyclic_A) as Hall.
  { intros c Hc. induction Hc as [|c s d' Hs Hd' IH]; [done|]. intros ->.
    assert (type_class_internal cyclic_world (c_super cyclic_A) = Some cyclic_A) as Hself
        by (vm_compute; reflexivity).
    rewrite Hself in Hs. injection Hs as <-. by apply IH. }
  rewrite (Hall cyclic_A Hd eq_refl).
  split; [apply not_elem_of_empty|]. exists cyclic_A. vm_compute. reflexivity.
Defined.

Lemma reflected_package_loop_marks_packages_witness :
  referenced_by_string
    (match reflected_package_loop package_world 5 [class_Foo]
             (reflected_package_seed [class_Foo] ["LFoo"]) empty_state with
     | Ok st => st
     | _ => empty_state
     end) (EField 92) = true.
Proof.
  apply (reflected_package_loop_marks_packages package_world 5 [class_Foo] ["LFoo"]
           empty_state _ class_Foo class_Foo).
  - vm_compute. reflexivity.
  - by left.
  - constructor.
  - exists class_Foo, "LFoo". split; [by left|]. split; [done|]. split; [by left|].
    vm_compute. reflexivity.
  - compute_done.
Defined.

(** ** Serializable *)

Lemma keep_flag_rstate_set_root reason origin e st e' :
  keep_flag (rstate e (set_root reason origin) st) e' = true ↔
  keep_flag st e' = true ∨ e' = e.
Proof.
  unfold keep_flag. rewrite rstate_of_rstate. case_decide as He.
  - subst e'. destruct (rstate_of st e). simpl. split; [by right|done].
  - split; [by left|]. by intros [ | -> ].
Qed.

(** When the serializable type is unknown the serializable chain does
    nothing.  Otherwise, when it returns, [keep] is set exactly on the
    elements that had it and on the no-argument constructors declared by
    the superclass of an implementor, provided that superclass is known,
    not external and not itself an implementor; constructors with
    arguments and the implementor's own constructors are not selected. *)
Theorem analyze_serializable_roots_exactly (env : Env) (scope : Scope) (st st' : State) :
  analyze_serializable env scope st = Ok st' →
  (get_type env "Ljava/io/Serializable;" = None → st' = st) ∧
  (get_type env "Ljava/io/Serializable;" ≠ None →
   ∀ e, keep_flag st' e = true ↔ keep_flag st e = true ∨ serializable_target env scope e).
Proof.
  unfold analyze_serializable, get_type. intros Hrun. case_decide as Hknown.
  - split; [done|]. intros _ e.
    eapply (for_eachM_marks keep_flag
              (λ child e, ∃ child_cls child_supercls meth,
                 classes env !! child = Some child_cls ∧
                 type_class env (c_super child_cls) = Some child_supercls ∧
                 c_external child_supercls = false ∧
                 type_set_count (get_all_implementors env scope "Ljava/io/Serializable;")
                   (c_super child_cls) = false ∧
                 meth ∈ c_dmethods child_supercls ∧ m_init meth = true ∧
                 m_args meth = [] ∧ e = of_method meth)) in Hrun; [rewrite Hrun|].
    + unfold serializable_target. setoid_rewrite elem_of_elements. split.
      * intros [|(child & Hc & cc & cs & m & Hrest)]; [by left|right].
        by exists child, cc, cs, m.
      * intros [|(child & cc & cs & m & Hc & Hrest)]; [by left|right].
        exists child. split; [done|]. by exists cc, cs, m.
    + intros child s s' e' _ Hbody. simpl in Hbody.
      destruct (classes env !! child) as [cc|] eqn:Hcc; [|done].
      destruct (type_class env (c_super cc)) as [cs|] eqn:Hcs.
      2:{ injection Hbody as <-. split; [by left|].
          intros [|(cc' & cs' & m & [= <-] & Hcs' & _)]; [done|]. congruence. }
      destruct (c_external cs) eqn:Hext.
      { injection Hbody as <-. split; [by left|].
        intros [|(cc' & cs' & m & [= <-] & Hcs' & Hext' & _)]; [done|]. congruence. }
      destruct (type_set_count _ (c_super cc)) eqn:Hcount.
      { injection Hbody as <-. split; [by left|].
        intros [|(cc' & cs' & m & [= <-] & Hcs' & _ & Hcount' & _)]; [done|]. congruence. }
      injection Hbody as <-.
      rewrite (for_each_marks keep_flag
                 (λ meth e, (m_init meth = true ∧ m_args meth = []) ∧ e = of_method meth)).
      * split.
        -- intros [|(m & Hm & [Hi Ha] & ->)]; [by left|right]. by exists cc, cs, m.
        -- intros [|(cc' & cs' & m & [= <-] & Hcs' & _ & _ & Hm & Hi & Ha & ->)];
             [by left|right]. assert (cs' = cs) as -> by congruence. by exists m.
      * intros m s0 e0 _.
        destruct (m_init m); simpl.
        -- case_bool_decide as Hlen.
           ++ rewrite keep_flag_rstate_set_root. apply length_zero_iff_nil in Hlen.
              split; (intros [|]; [by left|right]); [done|]. by destruct H.
           ++ split; [by left|]. intros [|[[_ Ha] _]]; [done|]. by rewrite Ha in Hlen.
        -- split; [by left|]. by intros [|[[? _] _]].
  - injection Hrun as <-. split; [done|]. by intros [].
Qed.

Lemma analyze_serializable_roots_exactly_witness :
  keep_flag serializable_state (EMethod 51) = true ∧
  keep_flag serializable_state (EMethod 52) = false.
Proof.
  destruct (analyze_serializable_roots_exactly serializable_world [plain_super; bean]
              empty_state serializable_state) as [_ Hiff]; [vm_compute; reflexivity|].
  split; [|vm_compute; reflexivity].
  apply Hiff; [vm_compute; discriminate|]. right.
  exists "LBean;", bean, plain_super, (mk_method 51 "LPlain;" "<init>" [] true false true).
  split; [compute_done|]. split; [vm_compute; reflexivity|].
  split; [vm_compute; reflexivity|]. split; [reflexivity|].
  split; [vm_compute; reflexivity|]. split; [by left|]. by repeat split.
Defined.

(** ** Which class members a configured entry keeps *)

(** For one class, [keep_class_members] sets [referenced_by_type] exactly
    on the elements that had it and, when some entry contains the class
    name, on the static fields of the class whose name occurs in the first
    such entry after the class name, and on the class if there is such a
    field.  The match is by substring, so a field is selected whenever its
    name occurs anywhere in the remainder of the entry. *)
Theorem keep_class_members_of_marks_exactly
    (cls : DexClass) (keep_class_mems : list string) (st : State) (e : Elem) :
  referenced_by_type (keep_class_members_of cls keep_class_mems st) e = true ↔
  referenced_by_type st e = true ∨
  ∃ before class_mem after pos f,
    keep_class_mems = before ++ class_mem :: after ∧
    (∀ x, x ∈ before → names_class cls x = false) ∧
    find (c_str class_mem) (c_type cls) = Some pos ∧
    f ∈ c_sfields cls ∧
    is_Some (find (substr (c_str class_mem) (pos + String.length (c_type cls)))
               (f_name f)) ∧
    (e = of_field f ∨ e = of_class cls).
Proof.
  induction keep_class_mems as [|x l IH].
  - simpl. split; [by left|]. intros [|(b & c & a & _ & _ & Heq & _)]; [done|].
    by destruct b.
  - cbn [keep_class_members_of]. destruct (find (c_str x) (c_type cls)) as [pos|] eqn:Hx.
    + rewrite (for_each_marks referenced_by_type
                 (λ f e, is_Some (find (substr (c_str x) (pos + String.length (c_type cls)))
                                    (f_name f)) ∧
                         (e = of_field f ∨ e = of_class cls))).
      * split.
        -- intros [|(f & Hf & Hfound & He)]; [by left|right].
           exists [], x, l, pos, f. split; [done|]. split; [|done].
           intros y Hy. by apply elem_of_nil in Hy.
        -- intros [|(b & c & a & pos' & f & Heq & Hb & Hc & Hf & Hfound & He)];
             [by left|right].
           destruct b as [|y b].
           ++ simpl in Heq. injection Heq as <- <-. rewrite Hx in Hc.
              injection Hc as <-. by exists f.
           ++ simpl in Heq. injection Heq as <- _.
              pose proof (Hb x ltac:(by left)) as Hno. unfold names_class in Hno.
              apply bool_decide_eq_false in Hno. exfalso. apply Hno. by eexists.
      * intros f s e' _. case_bool_decide as Hfound.
        -- unfold mark_only_reachable_directly. rewrite !referenced_by_type_rstate_set.
           split.
           ++ intros [[|]|]; [by left|right; split; [done|by left]|].
              right. split; [done|by right].
           ++ intros [|[_ [|]]]; [by left; left|left; by right|by right].
        -- split; [by left|]. by intros [|[? _]].
    + rewrite IH. split.
      * intros [|(b & c & a & pos & f & -> & Hb & Hrest)]; [by left|right].
        exists (x :: b), c, a, pos, f. split; [done|]. split; [|done].
        intros y Hy. apply elem_of_cons in Hy as [->|Hy]; [|by apply Hb].
        unfold names_class. apply bool_decide_eq_false. rewrite Hx. by intros [? ?].
      * intros [|(b & c & a & pos & f & Heq & Hb & Hc & Hrest)]; [by left|right].
        destruct b as [|y b].
        -- simpl in Heq. injection Heq as <- <-. congruence.
        -- simpl in Heq. injection Heq as <- ->. exists b, c, a, pos, f.
           split; [done|]. split; [|done]. intros z Hz. apply Hb. by right.
Qed.

(** ** When the run returns *)

Lemma for_eachM_returns {A} (l : list A) body :
  (∀ x s, x ∈ l → ∃ s', body x s = Ok s') →
  ∀ s, ∃ s', for_eachM l body s = Ok s'.
Proof.
  induction l as [|x l IH]; intros Hb s; [by eexists|].
  simpl. destruct (Hb x s) as [s1 ->]; [by left|]. simpl.
  apply IH. intros. apply Hb. by right.
Qed.

Section Returns.

Variable env : Env.
Variable n : nat.

Hypothesis chains_end : ∀ t, super_chain_within env n t = true.
Hypothesis children_resolve :
  ∀ scope t child, child ∈ get_all_children env scope t → is_Some (classes env !! child).
Hypothesis implementors_resolve :
  ∀ scope t child, child ∈ get_all_implementors env scope t →
                   is_Some (classes env !! child).

Lemma in_reflected_pkg_returns k :
  ∀ cls reflected fuel,
    super_chain_within env k (c_super cls) = true → k + 2 < fuel →
    ∃ b, in_reflected_pkg env fuel (Some cls) reflected = Ok b.
Proof.
  induction k as [|k IH]; intros cls reflected fuel Hchain Hfuel.
  - destruct fuel as [|[|[|fuel]]]; try lia. cbn [in_reflected_pkg].
    case_bool_decide; [by eexists|].
    unfold type_class_internal. simpl in Hchain.
    destruct (type_class env (c_super cls)) as [sup|]; [|by eexists].
    destruct (c_external sup); [by eexists|]. cbn [in_reflected_pkg].
    case_bool_decide; [by eexists|].
    destruct (c_super sup) as [s|] eqn:Hs; [done|]. simpl. by eexists.
  - destruct fuel as [|[|[|fuel]]]; try lia. cbn [in_reflected_pkg].
    case_bool_decide; [by eexists|].
    unfold type_class_internal. simpl in Hchain.
    destruct (type_class env (c_super cls)) as [sup|] eqn:Hsup; [|by eexists].
    destruct (c_external sup); [by eexists|].
    destruct (c_super sup) as [s|] eqn:Hs.
    + destruct (IH sup reflected (S (S fuel))) as [b Hb]; [by rewrite Hs|lia|].
      exists b. rewrite <- Hb. cbn [in_reflected_pkg]. unfold type_class_internal.
      rewrite Hs. reflexivity.
    + cbn [in_reflected_pkg]. case_bool_decide; [by eexists|].
      simpl. by eexists.
Qed.

Lemma reflected_package_loop_returns fuel scope :
  n + 2 < fuel →
  ∀ reflected st, ∃ st', reflected_package_loop env fuel scope reflected st = Ok st'.
Proof.
  intros Hfuel. induction scope as [|c scope IH]; intros reflected st; [by eexists|].
  cbn [reflected_package_loop].
  destruct (in_reflected_pkg_returns n c reflected fuel) as [b ->]; [apply chains_end|done|].
  simpl. destruct b; apply IH.
Qed.

Lemma analyze_reflection_returns fuel scope st :
  n < fuel → ∃ st', analyze_reflection env fuel scope st = Ok st'.
Proof.
  intros Hfuel. unfold analyze_reflection, walk_code.
  apply for_eachM_returns. intros cls s _.
  apply for_eachM_returns. intros m s1 _.
  destruct (m_code m) as [code|]; [|by eexists].
  apply for_eachM_returns. intros insn s2 _.
  unfold analyze_reflection_insn.
  destruct (negb (insn_is_invoke insn)); [by eexists|].
  destruct (refls !! insn_callee_class insn) as [method_map|]; [|by eexists].
  destruct (method_map !! insn_callee_name insn) as [refl_type|]; [|by eexists].
  destruct (get_abstract_object env m (src insn 0) insn) as [arg_cls|]; [|by eexists].
  destruct (negb (bool_decide (obj_kind arg_cls = CLASS))); [by eexists|].
  destruct (dex_string_lookup env m refl_type insn) as [name|]; [|by eexists].
  cbn zeta. unfold dispatch_reflection.
  destruct refl_type;
    match goal with
    | |- ∃ _, blacklist_field _ _ ?o ?t ?nm ?d ?s = _ =>
      destruct (blacklist_field_finite_chain env n o t nm d s) as [s' Hs'];
        [left; apply chains_end|exists s'; by apply Hs']
    | |- ∃ _, blacklist_method _ _ ?o ?t ?nm ?ps ?d ?s = _ =>
      destruct (blacklist_method_finite_chain env n o t nm ps d s) as [s' Hs'];
        [left; apply chains_end|exists s'; by apply Hs']
    end.
Qed.

Lemma analyze_serializable_returns scope st :
  ∃ st', analyze_serializable env scope st = Ok st'.
Proof.
  unfold analyze_serializable.
  destruct (get_type env "Ljava/io/Serializable;") as [serializable|]; [|by eexists].
  apply for_eachM_returns. intros child s Hchild. apply elem_of_elements in Hchild.
  destruct (implementors_resolve _ _ _ Hchild) as [cc Hcc].
  unfold type_class at 1. simpl. rewrite Hcc.
  destruct (type_class env (c_super cc)) as [cs|]; [|by eexists].
  destruct (c_external cs); [by eexists|].
  destruct (type_set_count _ _); by eexists.
Qed.

Lemma serde_superclses_loop_returns scope :
  ∀ supers children st,
    (∀ child, child ∈ children → is_Some (classes env !! child)) →
    ∃ st', serde_superclses_loop env scope supers children st = Ok st'.
Proof.
  induction supers as [|sup supers IH]; intros children st Hres; [by eexists|].
  cbn [serde_superclses_loop].
  assert (∀ child, child ∈ children ∪ get_all_children env scope sup →
                   is_Some (classes env !! child)) as Hres'.
  { intros child [Hc|Hc]%elem_of_union; [by apply Hres|].
    by apply (children_resolve scope sup). }
  edestruct (for_eachM_returns (elements (children ∪ get_all_children env scope sup)))
    as [s1 Hs1]; [|rewrite Hs1; simpl; by apply IH].
  intros child s Hchild%elem_of_elements.
  destruct (Hres' child Hchild) as [d Hd].
  unfold type_class. simpl. rewrite Hd. by eexists.
Qed.

Lemma initialize_reachable_for_json_serde_returns scope names st :
  ∃ st', initialize_reachable_for_json_serde env scope names st = Ok st'.
Proof.
  unfold initialize_reachable_for_json_serde. case_bool_decide; [by eexists|].
  apply serde_superclses_loop_returns. intros child Hchild.
  by apply elem_of_empty in Hchild.
Qed.

Lemma analyze_reachable_from_xml_layouts_returns scope apk_dir st :
  "Landroid/content/Context;" ∈ known_types env →
  ∃ st', analyze_reachable_from_xml_layouts env scope apk_dir st = Ok st'.
Proof.
  intros Hctx. unfold analyze_reachable_from_xml_layouts.
  destruct (collect_layout_classes_and_attributes env apk_dir _)
    as [layout_classes attribute_values].
  unfold mark_onclick_attributes_reachable. case_bool_decide; [by eexists|].
  unfold get_type. rewrite decide_True; [|done].
  apply for_eachM_returns. intros t s Ht%elem_of_elements.
  destruct (children_resolve _ _ _ Ht) as [d Hd].
  unfold type_class. simpl. rewrite Hd. destruct (c_external d); by eexists.
Qed.

End Returns.

Lemma analyze_reachable_from_manifest_returns
    (env : Env) (apk_dir : string) (prune : gset string) (st : State) :
  prune ⊆ prunable_tags →
  ∃ st', analyze_reachable_from_manifest env apk_dir prune st = Ok st'.
Proof.
  intros Hsub. unfold analyze_reachable_from_manifest.
  destruct (prune_unexported_components_of_returns (elements prune)) as [tags ->].
  - intros s Hs. apply Hsub. by apply elem_of_elements.
  - by eexists.
Qed.

(** The whole seeding run returns a state when every superclass chain of
    the program ends within [n] steps and the fuel exceeds [n + 2], the
    hierarchy queries answer with types that have a class, and, when the
    manifest and the layouts are read, the pruned component kinds are among
    [activity] and [activity-alias] and [android.content.Context] is a known
    type.  No assertion fails, no null class is dereferenced, no lookup
    throws and no superclass walk runs on for ever. *)
Theorem init_reachable_classes_returns
    (env : Env) (n fuel : nat) (scope : Scope) (config : JsonWrapper)
    (no_optimizations_anno : gset string) (st : State) :
  (∀ t, super_chain_within env n t = true) →
  (∀ sc t child, child ∈ get_all_children env sc t → is_Some (classes env !! child)) →
  (∀ sc t child, child ∈ get_all_implementors env sc t → is_Some (classes env !! child)) →
  (has_apk_dir config = true →
   config_get (cfg_compute_xml_reachability config) true = true →
   config_get (cfg_prune_unexported_components config) ∅ ⊆ prunable_tags ∧
   "Landroid/content/Context;" ∈ known_types env) →
  n + 2 < fuel →
  ∃ st', init_reachable_classes env fuel scope config no_optimizations_anno st = Ok st'.
Proof.
  intros Hchains Hchildren Himpl Hxml Hfuel.
  unfold init_reachable_classes, init_permanently_reachable_classes. cbn zeta.
  destruct (keep_annotation_types _ _ _) as [annotation_types st0].
  match goal with
  | |- context [keep_methods ?sc ?ms ?s] => generalize (keep_methods sc ms s)
  end.
  intros s0.
  assert (∃ s1,
    (if negb (Nat.eqb (String.length (config_get (cfg_apk_dir config) "")) 0) then
       st ← (if config_get (cfg_compute_xml_reachability config) true : bool then
               st ← analyze_reachable_from_manifest env (config_get (cfg_apk_dir config) "")
                      (config_get (cfg_prune_unexported_components config) ∅) s0;
               analyze_reachable_from_xml_layouts env scope
                 (config_get (cfg_apk_dir config) "") st
             else Ok s0);
       if config_get (cfg_analyze_native_lib_reachability config) true : bool
       then Ok (mark_native_classes env (config_get (cfg_apk_dir config) "") st)
       else Ok st
     else Ok s0) = Ok s1) as [s1 Hs1].
  { unfold has_apk_dir in Hxml.
    destruct (negb (Nat.eqb (String.length (config_get (cfg_apk_dir config) "")) 0));
      [|by eexists].
    destruct (config_get (cfg_compute_xml_reachability config) true).
    - destruct Hxml as [Hprune Hctx]; [done..|].
      destruct (analyze_reachable_from_manifest_returns env
                  (config_get (cfg_apk_dir config) "") _ s0 Hprune) as [sa ->].
      simpl.
      destruct (analyze_reachable_from_xml_layouts_returns env Hchildren scope
                  (config_get (cfg_apk_dir config) "") sa Hctx) as [sb ->].
      simpl. destruct (config_get (cfg_analyze_native_lib_reachability config) true);
        by eexists.
    - simpl. destruct (config_get (cfg_analyze_native_lib_reachability config) true);
        by eexists. }
  rewrite Hs1. simpl.
  destruct (analyze_reflection_returns env n Hchains fuel scope s1) as [s2 ->]; [lia|].
  simpl.
  destruct (reflected_package_loop_returns env n Hchains fuel scope Hfuel
              (reflected_package_seed scope (config_get (cfg_keep_packages config) []))
              s2) as [s3 ->].
  simpl.
  destruct (analyze_serializable_returns env Himpl scope s3) as [s4 ->]. simpl.
  apply (initialize_reachable_for_json_serde_returns env Hchildren).
Qed.

Lemma init_reachable_classes_returns_witness :
  ∃ st', init_reachable_classes click_world 4 [view_V] apk_config ∅ empty_state = Ok st'.
Proof.
  assert (classes click_world = <[ "LV;" := view_V ]> ∅) as Hcls by reflexivity.
  apply (init_reachable_classes_returns click_world 1 4 [view_V] apk_config ∅ empty_state).
  - intros [t|]; [|reflexivity].
    destruct (decide (t = "LV;")) as [->|Hne]; [vm_compute; reflexivity|].
    cbn [super_chain_within type_class]. rewrite Hcls, lookup_insert_ne by done.
    by rewrite lookup_empty.
  - intros sc t child Hchild. change (child ∈ context_children t) in Hchild.
    unfold context_children in Hchild.
    destruct (String.eqb t "Landroid/content/Context;").
    + apply elem_of_singleton in Hchild as ->. rewrite Hcls, lookup_insert. by eexists.
    + by apply elem_of_empty in Hchild.
  - intros sc t child Hchild. change (child ∈ (∅ : gset string)) in Hchild.
    by apply elem_of_empty in Hchild.
  - intros _ _. split.
    + intros x Hx. change (x ∈ (∅ : gset string)) in Hx. by apply elem_of_empty in Hx.
    + apply (bool_decide_unpack _). vm_compute. reflexivity.
  - lia.
Defined.
